(** * Kea lease monitor: lease sources, cabinet inventory reconciliation,
      reservation/DNS transaction

    Shallow embedding of [python/src/baremetal/kea_lease_monitor.py].

    Conventions of the embedding:
    - Python [str] values are ASCII strings ([string]); [None] is [option].
    - A Python [dict] whose iteration order is observable is an association
      list in insertion order ([dict_set]); the output directory is a finite
      map from file names to parsed YAML documents.
    - Calls to collaborators (PostgreSQL, SOLIDserver, the clock) are taken
      from an environment record; the reservation store keeps committed rows
      only, a transaction works on a copy that is installed by [commit]. *)

From Stdlib Require Import ZArith String Ascii List Lia Bool.
From Stdlib Require Import Sorting.Sorted Sorting.Permutation.
From stdpp Require Import base gmap strings list pretty sorting.

Open Scope string_scope.
Open Scope Z_scope.
Open Scope list_scope.

(** ** Python string primitives *)

Module PyStr.

Definition is_digit (c : ascii) : bool :=
  let n := N_of_ascii c in ((48 <=? n) && (n <=? 57))%N.

Definition is_upper (c : ascii) : bool :=
  let n := N_of_ascii c in ((65 <=? n) && (n <=? 90))%N.

Definition is_lower (c : ascii) : bool :=
  let n := N_of_ascii c in ((97 <=? n) && (n <=? 122))%N.

Definition lower_char (c : ascii) : ascii :=
  if is_upper c then ascii_of_N (N_of_ascii c + 32) else c.

Definition upper_char (c : ascii) : ascii :=
  if is_lower c then ascii_of_N (N_of_ascii c - 32) else c.

(** [s.lower()] and [s.upper()] *)
Fixpoint lower (s : string) : string :=
  match s with
  | EmptyString => EmptyString
  | String c s' => String (lower_char c) (lower s')
  end.

Fixpoint upper (s : string) : string :=
  match s with
  | EmptyString => EmptyString
  | String c s' => String (upper_char c) (upper s')
  end.

(** Truthiness of a string: [if s:] *)
Definition truthy (s : string) : bool :=
  match s with EmptyString => false | _ => true end.

(** Truthiness of an optional string: [None] and [''] are both falsy. *)
Definition truthy_opt (o : option string) : bool :=
  match o with Some s => truthy s | None => false end.

(** [o or ''] *)
Definition or_empty (o : option string) : string :=
  match o with Some s => if truthy s then s else "" | None => "" end.

(** [s.startswith(p)] *)
Fixpoint startswith (p s : string) : bool :=
  match p, s with
  | EmptyString, _ => true
  | String a p', String b s' => if Ascii.eqb a b then startswith p' s' else false
  | String _ _, EmptyString => false
  end.

(** [sub in s] *)
Fixpoint contains (sub s : string) : bool :=
  if startswith sub s then true
  else match s with
       | EmptyString => false
       | String _ s' => contains sub s'
       end.

(** [s.endswith(suf)] *)
Fixpoint endswith (suf s : string) : bool :=
  if String.eqb suf s then true
  else match s with
       | EmptyString => false
       | String _ s' => endswith suf s'
       end.

(** [s.replace(c, '')] for a one-character [c] *)
Fixpoint remove_char (c : ascii) (s : string) : string :=
  match s with
  | EmptyString => EmptyString
  | String a s' => if Ascii.eqb a c then remove_char c s' else String a (remove_char c s')
  end.

(** Longest prefix of digits, as the greedy [\d+] takes it, and the rest. *)
Fixpoint span_digits (s : string) : string * string :=
  match s with
  | String c s' =>
      if is_digit c then let '(d, r) := span_digits s' in (String c d, r)
      else (EmptyString, s)
  | EmptyString => (EmptyString, EmptyString)
  end.

Definition digit_val (c : ascii) : Z := Z.of_N (N_of_ascii c - 48).

Fixpoint int_digits_acc (acc : Z) (s : string) : Z :=
  match s with
  | EmptyString => acc
  | String c s' => int_digits_acc (10 * acc + digit_val c) s'
  end.

(** [int(s)] on a string of decimal digits (what a [\d+] group holds). *)
Definition int_of_digits (s : string) : Z := int_digits_acc 0 s.

(** [sep.join(l)] *)
Fixpoint join (sep : string) (l : list string) : string :=
  match l with
  | [] => ""
  | [x] => x
  | x :: l' => x +:+ sep +:+ join sep l'
  end.

(** [a < b] on strings: code-point lexicographic order. *)
Definition str_lt (a b : string) : bool := String.ltb a b.

End PyStr.

Import PyStr.

(** ** The regular expressions of the module *)

(** The first result that is not [None]. *)
Fixpoint list_find_map {A B : Type} (f : A -> option B) (l : list A) : option B :=
  match l with
  | [] => None
  | x :: l' => match f x with Some y => Some y | None => list_find_map f l' end
  end.

Module Regex.

(** The rest of [s] after the literal [p], if [s] starts with it. *)
Fixpoint strip_prefix (p s : string) : option string :=
  match p, s with
  | EmptyString, _ => Some s
  | String a p', String b s' => if Ascii.eqb a b then strip_prefix p' s' else None
  | String _ _, EmptyString => None
  end.

(** [(\d+)] at the start of [s]: the group and the rest. *)
Definition digits1 (s : string) : option (string * string) :=
  let '(d, rest) := span_digits s in
  if truthy d then Some (d, rest) else None.

(** [ru(\d+)(?:-(\d+))?] anchored at the start of [s]: the two groups. *)
Definition ru_at (s : string) : option (string * option string) :=
  match strip_prefix "ru" s with
  | Some rest =>
      match digits1 rest with
      | Some (d1, rest1) =>
          match strip_prefix "-" rest1 with
          | Some rest2 =>
              match digits1 rest2 with
              | Some (d2, _) => Some (d1, Some d2)
              | None => Some (d1, None)
              end
          | None => Some (d1, None)
          end
      | None => None
      end
  | None => None
  end.

(** [re.search(r'ru(\d+)(?:-(\d+))?', s)]: the leftmost match. *)
Fixpoint search_ru (s : string) : option (string * option string) :=
  match ru_at s with
  | Some g => Some g
  | None =>
      match s with
      | EmptyString => None
      | String _ s' => search_ru s'
      end
  end.

Definition site_codes : list string := ["us1"; "us2"; "us3"; "us4"; "dv"].

(** The alternation [(us[1-4]|dv)] at the start of [s]: group and rest. *)
Definition site_at (s : string) : option (string * string) :=
  list_find_map (fun code =>
    match strip_prefix code s with
    | Some rest => Some (code, rest)
    | None => None
    end) site_codes.

(** [re.match(r'^(us[1-4]|dv)-cab(\d+)-', s)]: groups 1 and 2. *)
Definition match_site_cabinet (s : string) : option (string * string) :=
  match site_at s with
  | Some (site, rest) =>
      match strip_prefix "-cab" rest with
      | Some rest1 =>
          match digits1 rest1 with
          | Some (num, rest2) =>
              match strip_prefix "-" rest2 with
              | Some _ => Some (site, num)
              | None => None
              end
          | None => None
          end
      | None => None
      end
  | None => None
  end.

End Regex.

(** ** Rack-unit extraction *)

(** [LeaseProcessor._extract_rack_unit] *)
Definition _extract_rack_unit (hostname : string) : Z :=
  if negb (truthy hostname) then 0
  else
    let hostname_lower := lower hostname in
    match Regex.search_ru hostname_lower with
    | Some (g1, g2) =>
        let ru_start := int_of_digits g1 in
        let ru_end := match g2 with Some d => int_of_digits d | None => ru_start end in
        Z.max ru_start ru_end
    | None => 0
    end.

(** [LeaseProcessor._format_rack_unit]; the test [if ru_end:] is false for
    an absent second group and also for a second group whose value is 0. *)
Definition _format_rack_unit (hostname : string) : string :=
  if negb (truthy hostname) then ""
  else
    let hostname_lower := lower hostname in
    match Regex.search_ru hostname_lower with
    | Some (g1, g2) =>
        let ru_start := int_of_digits g1 in
        let ru_end := match g2 with Some d => Some (int_of_digits d) | None => None end in
        match ru_end with
        | Some e =>
            if negb (e =? 0)%Z then
              "RU " +:+ pretty (Z.max ru_start e) +:+ "-" +:+ pretty (Z.min ru_start e)
            else "RU " +:+ pretty ru_start
        | None => "RU " +:+ pretty ru_start
        end
    | None => ""
    end.

(** [set(range(lo, hi))] *)
Definition py_range_set (lo hi : Z) : gset Z := list_to_set (seqZ lo (hi - lo)).

(** [LeaseProcessor._get_rack_unit_range] *)
Definition _get_rack_unit_range (hostname : string) : gset Z :=
  if negb (truthy hostname) then ∅
  else
    let hostname_lower := lower hostname in
    match Regex.search_ru hostname_lower with
    | Some (g1, g2) =>
        let ru_start := int_of_digits g1 in
        let ru_end := match g2 with Some d => int_of_digits d | None => ru_start end in
        py_range_set (Z.min ru_start ru_end) (Z.max ru_start ru_end + 1)
    | None => ∅
    end.


(** ** Data model *)

(** [DHCPLease]: the dataclass; [mac_address] is [None] when the
    notification payload carries no [dhcp_identifier]. *)
Record DHCPLease := {
  ip_address : string;
  mac_address : option string;
  hostname : option string;
  subnet_id : option string;
  lease_timestamp : Z
}.

(** A value of [existing_bmc_map]: [{'mac', 'hostname', 'manufacturer'}]. *)
Record BmcDetails := {
  d_mac : option string;
  d_hostname : string;
  d_manufacturer : string
}.

(** An element of [bmc_targets] in a cabinet file; an absent key is [None]. *)
Record BmcTarget := {
  t_ip : string;
  t_mac : option string;
  t_hostname : option string;
  t_rack_unit : option string;
  t_manufacturer : option string
}.

(** An element of [metadata['leases']] in the older file shape. *)
Record LeaseInfo := {
  li_mac : option string;
  li_hostname : option string;
  li_manufacturer : option string
}.

Record Metadata := {
  updated_at : string;
  source : string;
  site : string;
  cabinet : string;
  total_count : Z;
  leases : option (list LeaseInfo)
}.

Record Inventory := {
  bmc_targets : option (list BmcTarget);
  metadata : option Metadata
}.

(** What [open] followed by [yaml.safe_load] gives for an existing file. *)
Inductive YamlFile :=
| YamlError              (* reading or parsing raises *)
| YamlNull               (* an empty document *)
| YamlDoc (inv : Inventory).

(** The configuration held by a [LeaseProcessor]. *)
Record LeaseProcessor := {
  db_enabled : bool;
  reservation_subnet_id : Z;
  enable_dns : bool;
  dns_zone : option string;
  dns_scope : string;
  (* [solidserver_connection] and [vault_credentials] were imported *)
  dns_modules : bool
}.

(** A row of the [hosts] table. *)
Record HostRow := {
  host_id : Z;
  dhcp_identifier : string;        (* the hex digits given to [decode] *)
  dhcp_identifier_type : Z;
  dhcp4_subnet_id : Z;
  ipv4_address : string;
  host_hostname : string
}.

(** Committed state of the two write collaborators. *)
Record Store := {
  hosts : list HostRow;
  dns_records : list (string * string)    (* fqdn, address *)
}.

(** Behaviour of the collaborators during one call. *)
Record Env := {
  (* [psycopg2.connect] returns a connection *)
  db_connect_ok : bool;
  (* the server executes the upsert for these parameters *)
  db_statement_ok : string -> Z -> string -> string -> bool;
  (* the SOLIDserver calls of [create_dns_record] go through *)
  sds_create_ok : string -> string -> bool;
  (* the row of [lease4] for an address: [encode(hwaddr,'hex')], [hostname] *)
  lease4_row : Z -> option (string * option string);
  (* [datetime.now(timezone.utc).isoformat()] *)
  now : string
}.

(** Warnings and the final error of [_validate_bmc_conflicts]. *)
Inductive LogRecord :=
| MacConflict (site cabinet mac : string) (ips : list string)
| HostnameConflict (site cabinet hostname : string) (ips : list string)
| RackUnitConflict (site cabinet : string) (ru : Z) (devices : list (string * string))
| ConflictSummary (site cabinet : string).

(** ** Insertion-ordered dictionaries *)

Section Dict.
Context {K V : Type} `{EqDecision K}.

Fixpoint dict_get (d : list (K * V)) (k : K) : option V :=
  match d with
  | [] => None
  | (k', v) :: d' => if decide (k' = k) then Some v else dict_get d' k
  end.

(** [d[k] = v]: a present key keeps its position. *)
Fixpoint dict_set (d : list (K * V)) (k : K) (v : V) : list (K * V) :=
  match d with
  | [] => [(k, v)]
  | (k', v') :: d' =>
      if decide (k' = k) then (k, v) :: d' else (k', v') :: dict_set d' k v
  end.

Definition dict_mem (d : list (K * V)) (k : K) : bool :=
  match dict_get d k with Some _ => true | None => false end.

Definition dict_keys (d : list (K * V)) : list K := map fst d.
End Dict.

(** [d.setdefault(k, []).append(x)], the idiom of the grouping loops. *)
Definition dict_append {K V : Type} `{EqDecision K}
    (d : list (K * list V)) (k : K) (x : V) : list (K * list V) :=
  match dict_get d k with
  | None => dict_set d k [x]
  | Some l => dict_set d k (l ++ [x])
  end.

(** ** [list.sort] and [sorted] *)

Section PySort.
Context {A : Type} (lt : A -> A -> bool).

(** Insert [x] before the first element that is not below it. *)
Fixpoint insert_stable (x : A) (l : list A) : list A :=
  match l with
  | [] => [x]
  | y :: l' => if lt y x then y :: insert_stable x l' else x :: y :: l'
  end.

(** Stable ascending sort. *)
Definition sort_stable (l : list A) : list A := foldr insert_stable [] l.

(** [sorted(l, reverse=...)]: with [reverse] the list is reversed, sorted
    stably and reversed again. *)
Definition py_sorted (reverse : bool) (l : list A) : list A :=
  if reverse then rev (sort_stable (rev l)) else sort_stable l.
End PySort.

(** [<] on the tuples used as sort keys *)
Definition key_lt (a b : Z * string) : bool :=
  (a.1 <? b.1)%Z || ((a.1 =? b.1)%Z && str_lt a.2 b.2).

Definition pair_lt (a b : string * string) : bool :=
  str_lt a.1 b.1 || (String.eqb a.1 b.1 && str_lt a.2 b.2).

(** ** Manufacturer and cabinet key *)

(** [LeaseProcessor._detect_manufacturer] *)
Definition _detect_manufacturer (hostname : string) : string :=
  if negb (truthy hostname) then "Unknown"
  else
    let hostname_lower := lower hostname in
    if endswith "-idrac" hostname_lower || contains "idrac" hostname_lower then "Dell"
    else if endswith "-ilo" hostname_lower || contains "ilo" hostname_lower then "HP"
    else if endswith "-bmc" hostname_lower || endswith "bmc" hostname_lower then "Supermicro"
    else "Unknown".

(** [LeaseProcessor._extract_site_and_cabinet] *)
Definition _extract_site_and_cabinet (lease : DHCPLease) : option (string * string) :=
  if negb (truthy_opt (hostname lease)) then None
  else
    let hostname_lower := lower (or_empty (hostname lease)) in
    match Regex.match_site_cabinet hostname_lower with
    | None => None
    | Some (g1, g2) => Some (g1, "cab" +:+ g2)
    end.

(** ** Conflict detection *)

Definition mac_to_ips_of (targets : list BmcTarget) : list (string * list string) :=
  fold_left (fun acc target =>
      let mac := default "" (t_mac target) in
      if truthy mac then dict_append acc mac (t_ip target) else acc)
    targets [].

Definition hostname_to_ips_of (targets : list BmcTarget) : list (string * list string) :=
  fold_left (fun acc target =>
      let h := default "" (t_hostname target) in
      if truthy h then dict_append acc h (t_ip target) else acc)
    targets [].

(** [ru_usage]; the units of one hostname are visited in the iteration order
    of the set. *)
Definition ru_usage_of (targets : list BmcTarget) : list (Z * list (string * string)) :=
  fold_left (fun acc target =>
      let h := default "" (t_hostname target) in
      if truthy h then
        fold_left (fun acc' ru => dict_append acc' ru (t_ip target, h))
                  (elements (_get_rack_unit_range h)) acc
      else acc)
    targets [].

Definition more_than_one {A : Type} (l : list A) : bool := (1 <? length l)%nat.

(** The warning for one entry of [mac_to_ips], if it has several addresses. *)
Definition mac_warning (site cabinet : string) (entry : string * list string)
  : option LogRecord :=
  let '(mac, ips) := entry in
  if more_than_one ips
  then Some (MacConflict (upper site) (upper cabinet) mac (py_sorted str_lt false ips))
  else None.

Definition mac_conflicts (site cabinet : string) (targets : list BmcTarget) : list LogRecord :=
  omap (mac_warning site cabinet) (mac_to_ips_of targets).

Definition hostname_conflicts (site cabinet : string) (targets : list BmcTarget) : list LogRecord :=
  omap (fun '(h, ips) =>
          if more_than_one ips
          then Some (HostnameConflict (upper site) (upper cabinet) h (py_sorted str_lt false ips))
          else None)
       (hostname_to_ips_of targets).

Definition rack_unit_conflicts (site cabinet : string) (targets : list BmcTarget) : list LogRecord :=
  omap (fun '(ru, devices) =>
          if more_than_one devices
          then Some (RackUnitConflict (upper site) (upper cabinet) ru (py_sorted pair_lt false devices))
          else None)
       (ru_usage_of targets).

(** [LeaseProcessor._validate_bmc_conflicts]: the records it logs, in order.
    It returns nothing and raises nothing. *)
Definition _validate_bmc_conflicts (bmc_targets : list BmcTarget) (site cabinet : string)
  : list LogRecord :=
  let warnings := mac_conflicts site cabinet bmc_targets
                  ++ hostname_conflicts site cabinet bmc_targets
                  ++ rack_unit_conflicts site cabinet bmc_targets in
  match warnings with
  | [] => []
  | _ => warnings ++ [ConflictSummary (upper site) (upper cabinet)]
  end.

(** The text of a record, as the f-strings build it. *)
Definition render (r : LogRecord) : string :=
  match r with
  | MacConflict s c mac ips =>
      "[" +:+ s +:+ "-" +:+ c +:+ "] CONFLICT: MAC " +:+ mac
          +:+ " assigned to multiple IPs: " +:+ join ", " ips
  | HostnameConflict s c h ips =>
      "[" +:+ s +:+ "-" +:+ c +:+ "] CONFLICT: Hostname '" +:+ h
          +:+ "' assigned to multiple IPs: " +:+ join ", " ips
  | RackUnitConflict s c ru devices =>
      "[" +:+ s +:+ "-" +:+ c +:+ "] CONFLICT: Rack unit " +:+ pretty ru
          +:+ " claimed by multiple devices: "
          +:+ join ", " (map (fun '(ip, h) => h +:+ "(" +:+ ip +:+ ")") devices)
  | ConflictSummary s c =>
      "[" +:+ s +:+ "-" +:+ c
          +:+ "] Cabinet has configuration conflicts - review DHCP leases and device assignments"
  end.

(** ** More string primitives: [int], [split], hex chunks *)

Module PyParse.

Definition is_space (c : ascii) : bool :=
  let n := N_of_ascii c in
  (((9 <=? n) && (n <=? 13)) || ((28 <=? n) && (n <=? 32)))%N.

Fixpoint lstrip (s : string) : string :=
  match s with
  | String c s' => if is_space c then lstrip s' else s
  | EmptyString => EmptyString
  end.

Fixpoint rstrip (s : string) : string :=
  match s with
  | String c s' =>
      match rstrip s' with
      | EmptyString => if is_space c then EmptyString else String c EmptyString
      | r => String c r
      end
  | EmptyString => EmptyString
  end.

(** Digits with single underscores between them. *)
Fixpoint digits_us (after_digit : bool) (acc : Z) (s : string) : option Z :=
  match s with
  | EmptyString => if after_digit then Some acc else None
  | String c s' =>
      if is_digit c then digits_us true (10 * acc + digit_val c) s'
      else if Ascii.eqb c "_" then
             (if after_digit then digits_us false acc s' else None)
      else None
  end.

(** [int(s)] in base 10; [None] stands for [ValueError]. *)
Definition py_int (s : string) : option Z :=
  match rstrip (lstrip s) with
  | String "-" d => Z.opp <$> digits_us false 0 d
  | String "+" d => digits_us false 0 d
  | d => digits_us false 0 d
  end.

(** [s.split(sep)] for a one-character separator *)
Fixpoint split_char (sep : ascii) (s : string) : list string :=
  match s with
  | EmptyString => [EmptyString]
  | String c s' =>
      if Ascii.eqb c sep then EmptyString :: split_char sep s'
      else match split_char sep s' with
           | [] => [String c EmptyString]
           | w :: ws => String c w :: ws
           end
  end.

(** [[s[i:i+2] for i in range(0, len(s), 2)]] *)
Fixpoint chunks2 (s : string) : list string :=
  match s with
  | EmptyString => []
  | String a EmptyString => [String a EmptyString]
  | String a (String b s') => String a (String b EmptyString) :: chunks2 s'
  end.

End PyParse.

Import PyParse.

(** ** Exceptions *)

Inductive PyExc :=
| AttributeError
| ValueError
| IndexError
| OperationalError      (* psycopg2: connecting failed *)
| DatabaseError         (* psycopg2: the statement failed *)
| SDSError.

(** A computation that returns or raises. *)
Definition exc (A : Type) : Type := PyExc + A.

Definition raise {A : Type} (e : PyExc) : exc A := inl e.

Definition bind_exc {A B : Type} (c : exc A) (k : A -> exc B) : exc B :=
  match c with
  | inl e => inl e
  | inr a => k a
  end.

#[global] Instance exc_bind : MBind exc := fun A B k c => bind_exc c k.
#[global] Instance exc_ret : MRet exc := fun A a => inr a.

(** [try: c  except Exception: handler] *)
Definition try_except {A : Type} (c : exc A) (handler : PyExc -> A) : A :=
  match c with
  | inl e => handler e
  | inr a => a
  end.

(** ** Reservation store and DNS *)

(** [LeaseProcessor.create_dns_record] on the set of A records. *)
Definition create_dns_record (env : Env) (self : LeaseProcessor)
    (hostname ip : string) (dns : list (string * string))
  : bool * list (string * string) :=
  if negb (enable_dns self) then (true, dns)
  else if negb (truthy_opt (dns_zone self)) then (true, dns)
  else if negb (dns_modules self) then (true, dns)
  else
    let fqdn := hostname +:+ "." +:+ or_empty (dns_zone self) in
    try_except
      (if sds_create_ok env fqdn ip
       then inr (true, dns ++ [(fqdn, ip)])
       else raise SDSError)
      (fun _ => (false, dns)).

(** The row with the conflict key of the upsert, if there is one. *)
Definition same_key (mac_hex : string) (subnet : Z) (r : HostRow) : bool :=
  String.eqb (dhcp_identifier r) mac_hex
  && (dhcp_identifier_type r =? 0) && (dhcp4_subnet_id r =? subnet).

(** [INSERT ... ON CONFLICT (dhcp_identifier, dhcp_identifier_type,
    dhcp4_subnet_id) DO UPDATE SET ipv4_address, hostname
    RETURNING host_id, (xmax = 0)]: the new rows and the returned tuple. *)
Definition upsert (fresh_id : Z) (mac_hex : string) (subnet : Z) (ip hostname : string)
    (rows : list HostRow) : list HostRow * (Z * bool) :=
  match List.find (same_key mac_hex subnet) rows with
  | Some old =>
      (map (fun r => if same_key mac_hex subnet r
                     then {| host_id := host_id r;
                             dhcp_identifier := dhcp_identifier r;
                             dhcp_identifier_type := dhcp_identifier_type r;
                             dhcp4_subnet_id := dhcp4_subnet_id r;
                             ipv4_address := ip;
                             host_hostname := hostname |}
                     else r) rows,
       (host_id old, false))
  | None =>
      (rows ++ [{| host_id := fresh_id;
                   dhcp_identifier := mac_hex;
                   dhcp_identifier_type := 0;
                   dhcp4_subnet_id := subnet;
                   ipv4_address := ip;
                   host_hostname := hostname |}],
       (fresh_id, true))
  end.

(** An open connection: the committed rows and the rows the transaction
    sees. *)
Record Conn := {
  committed : list HostRow;
  working : list HostRow
}.

Definition connect (rows : list HostRow) : Conn :=
  {| committed := rows; working := rows |}.
Definition rollback (c : Conn) : Conn :=
  {| committed := committed c; working := committed c |}.
Definition commit (c : Conn) : Conn :=
  {| committed := working c; working := working c |}.
(** [conn.close()]: what is not committed is lost. *)
Definition close (c : Conn) : list HostRow := committed c.

(** A host id the server has not used yet. *)
Definition fresh_host_id (rows : list HostRow) : Z :=
  1 + fold_right Z.max 0 (map host_id rows).

(** The body of the outer [try] of [create_static_reservation]: the result
    and the store, or the exception that reaches the handler. *)
Definition reservation_body (env : Env) (self : LeaseProcessor)
    (lease : DHCPLease) (st : Store) : exc (bool * Store) :=
  let lease_hostname := or_empty (hostname lease) in
  (* [lease.mac_address.replace(':', '').upper()] *)
  mac_hex ← match mac_address lease with
            | Some m => inr (upper (remove_char ":" m))
            | None => raise AttributeError
            end;
  conn ← (if db_connect_ok env then inr (connect (hosts st))
          else raise OperationalError);
  (* the inner [try]; its [finally] closes the connection *)
  if db_statement_ok env mac_hex (reservation_subnet_id self)
                     (ip_address lease) lease_hostname
  then
    let '(rows, (hid, inserted)) :=
      upsert (fresh_host_id (working conn)) mac_hex (reservation_subnet_id self)
             (ip_address lease) lease_hostname (working conn) in
    let conn := {| committed := committed conn; working := rows |} in
    if enable_dns self then
      let '(dns_success, dns) :=
        create_dns_record env self lease_hostname (ip_address lease) (dns_records st) in
      if negb dns_success then
        let conn := rollback conn in
        inr (false, {| hosts := close conn; dns_records := dns |})
      else
        let conn := commit conn in
        inr (true, {| hosts := close conn; dns_records := dns |})
    else
      let conn := commit conn in
      inr (true, {| hosts := close conn; dns_records := dns_records st |})
  else
    (* the statement raises; the connection is closed without a commit *)
    raise DatabaseError.

(** [LeaseProcessor.create_static_reservation] *)
Definition create_static_reservation (env : Env) (self : LeaseProcessor)
    (lease : DHCPLease) (st : Store) : bool * Store :=
  if negb (db_enabled self) then (false, st)
  else if negb (truthy_opt (hostname lease)) then (false, st)
  else try_except (reservation_body env self lease st) (fun _ => (false, st)).

(** ** Inventory reconciliation *)

(** The reconciler's view of the outside: the output directory, the
    reservation store, what was logged by conflict detection and the leases
    [create_static_reservation] was called with. *)
Record World := {
  files : gmap string YamlFile;
  store : Store;
  log : list LogRecord;
  reservation_calls : list DHCPLease
}.

Definition blank_details : BmcDetails :=
  {| d_mac := Some ""; d_hostname := ""; d_manufacturer := "" |}.

(** The address as a [bigint]; the list index and [int] may raise. *)
Definition ip_to_bigint (ip_address : string) : exc Z :=
  let ip_parts := split_char "." ip_address in
  let part (i : nat) : exc Z :=
    match ip_parts !! i with
    | None => raise IndexError
    | Some p => match py_int p with None => raise ValueError | Some n => inr n end
    end in
  a ← part 0%nat; b ← part 1%nat; c ← part 2%nat; d ← part 3%nat;
  inr (a * 256 ^ 3 + b * 256 ^ 2 + c * 256 + d).

(** [LeaseProcessor._query_lease_details]; the cache argument is not read. *)
Definition _query_lease_details (env : Env) (self : LeaseProcessor)
    (ip_address : string) (lease_details_cache : list (string * (string * string)))
  : BmcDetails :=
  if negb (db_enabled self) then blank_details
  else
    try_except
      (ip_bigint ← ip_to_bigint ip_address;
       _ ← (if db_connect_ok env then inr () else raise OperationalError);
       match lease4_row env ip_bigint with
       | Some (mac_hex, h) =>
           let mac := lower (join ":" (chunks2 mac_hex)) in
           let hostname := or_empty h in
           let manufacturer :=
             if truthy hostname then _detect_manufacturer hostname else "" in
           inr {| d_mac := Some mac; d_hostname := hostname; d_manufacturer := manufacturer |}
       | None => inr blank_details
       end)
      (fun _ => blank_details).

(** The entry loaded for a target of a file in the current shape. *)
Definition details_of_target (target : BmcTarget) : BmcDetails :=
  {| d_mac := Some (default "" (t_mac target));
     d_hostname := default "" (t_hostname target);
     d_manufacturer := default "" (t_manufacturer target) |}.

(** Loading [existing_bmc_map] from the cabinet file, if it exists. *)
Definition load_existing (env : Env) (self : LeaseProcessor) (file : option YamlFile)
  : list (string * BmcDetails) :=
  match file with
  | None => []
  | Some YamlError => []
  | Some YamlNull => []
  | Some (YamlDoc existing_inventory) =>
      match bmc_targets existing_inventory with
      | None => []
      | Some targets =>
          let new_format :=
            match targets with
            | first :: _ => match t_mac first with Some _ => true | None => false end
            | [] => false
            end in
          if new_format then
            fold_left (fun m target => dict_set m (t_ip target) (details_of_target target))
              targets []
          else
            let ip_list := map t_ip targets in
            let lease_details :=
              match metadata existing_inventory with
              | Some md =>
                  match leases md with
                  | Some infos =>
                      fold_left (fun m lease_info =>
                          dict_set m (default "" (li_mac lease_info))
                            (default "" (li_hostname lease_info),
                             default "" (li_manufacturer lease_info)))
                        infos []
                  | None => []
                  end
              | None => []
              end in
            fold_left (fun m ip => dict_set m ip (_query_lease_details env self ip lease_details))
              ip_list []
      end
  end.

(** State of the loop over the leases of one cabinet. *)
Record MergeState := {
  existing_bmc_map : list (string * BmcDetails);
  new_lease_count : Z;
  new_hostnames : list string;
  m_store : Store;
  m_calls : list DHCPLease
}.

(** The entry made for a newly discovered address. *)
Definition lease_details (lease : DHCPLease) : BmcDetails :=
  {| d_mac := mac_address lease;
     d_hostname := or_empty (hostname lease);
     d_manufacturer :=
       if truthy_opt (hostname lease)
       then _detect_manufacturer (or_empty (hostname lease)) else "" |}.

(** One turn of [for lease in leases] in [_update_cabinet_inventory]. *)
Definition merge_lease (env : Env) (self : LeaseProcessor)
    (s : MergeState) (lease : DHCPLease) : MergeState :=
  if dict_mem (existing_bmc_map s) (ip_address lease) then s
  else
    let m := dict_set (existing_bmc_map s) (ip_address lease) (lease_details lease) in
    if truthy_opt (hostname lease) then
      let '(_, st) := create_static_reservation env self lease (m_store s) in
      {| existing_bmc_map := m;
         new_lease_count := new_lease_count s + 1;
         new_hostnames := new_hostnames s ++ [or_empty (hostname lease)];
         m_store := st;
         m_calls := m_calls s ++ [lease] |}
    else
      {| existing_bmc_map := m;
         new_lease_count := new_lease_count s + 1;
         new_hostnames := new_hostnames s;
         m_store := m_store s;
         m_calls := m_calls s |}.

Definition merge_leases (env : Env) (self : LeaseProcessor)
    (s : MergeState) (leases : list DHCPLease) : MergeState :=
  fold_left (merge_lease env self) leases s.

(** The dictionary written for one address. *)
Definition build_target (ip : string) (details : BmcDetails) : BmcTarget :=
  {| t_ip := ip;
     t_mac := if truthy_opt (d_mac details) then d_mac details else None;
     t_hostname := if truthy (d_hostname details) then Some (d_hostname details) else None;
     t_rack_unit :=
       if truthy (d_hostname details) then
         let rack_unit_display := _format_rack_unit (d_hostname details) in
         if truthy rack_unit_display then Some rack_unit_display else None
       else None;
     t_manufacturer :=
       if truthy (d_manufacturer details) then Some (d_manufacturer details) else None |}.

(** The loop [for ip in existing_bmc_map.keys()] *)
Definition build_targets (m : list (string * BmcDetails)) : list BmcTarget :=
  map (fun '(ip, details) => build_target ip details) m.

(** The key of [bmc_targets.sort] *)
Definition sort_key (x : BmcTarget) : Z * string :=
  (if truthy_opt (t_hostname x) then _extract_rack_unit (default "" (t_hostname x)) else -1,
   t_ip x).

Definition target_lt (a b : BmcTarget) : bool := key_lt (sort_key a) (sort_key b).

(** [bmc_targets.sort(key=..., reverse=True)] *)
Definition sort_targets (l : list BmcTarget) : list BmcTarget :=
  py_sorted target_lt true l.

Definition inventory_file_name (site cabinet : string) : string :=
  site +:+ "-" +:+ cabinet +:+ "-discovery.yml".

(** The dictionary that is dumped to the cabinet file. *)
Definition written_inventory (env : Env) (site cabinet : string)
    (bmc_targets : list BmcTarget) : Inventory :=
  {| bmc_targets := Some bmc_targets;
     metadata := Some {| updated_at := now env;
                         source := "kea_lease_monitor";
                         site := site;
                         cabinet := cabinet;
                         total_count := Z.of_nat (length bmc_targets);
                         leases := None |} |}.

(** [LeaseProcessor._update_cabinet_inventory] *)
Definition _update_cabinet_inventory (env : Env) (self : LeaseProcessor)
    (site cabinet : string) (leases : list DHCPLease) (w : World) : string * World :=
  let output_file := inventory_file_name site cabinet in
  let loaded := load_existing env self (files w !! output_file) in
  let s := merge_leases env self
             {| existing_bmc_map := loaded; new_lease_count := 0; new_hostnames := [];
                m_store := store w; m_calls := reservation_calls w |}
             leases in
  let bmc_targets := build_targets (existing_bmc_map s) in
  let warnings := _validate_bmc_conflicts bmc_targets site cabinet in
  let bmc_targets := sort_targets bmc_targets in
  let inventory := written_inventory env site cabinet bmc_targets in
  (output_file,
   {| files := <[output_file := YamlDoc inventory]> (files w);
      store := m_store s;
      log := log w ++ warnings;
      reservation_calls := m_calls s |}).

(** The grouping loop of [generate_batch_inventory] *)
Definition group_step (grouped : list ((string * string) * list DHCPLease))
    (lease : DHCPLease) : list ((string * string) * list DHCPLease) :=
  match _extract_site_and_cabinet lease with
  | Some key => dict_append grouped key lease
  | None => grouped
  end.

Definition group_leases (leases : list DHCPLease)
  : list ((string * string) * list DHCPLease) :=
  fold_left group_step leases [].

(** One turn of the loop over the groups: the file is appended to
    [updated_files]. *)
Definition batch_step (env : Env) (self : LeaseProcessor)
    (acc : list string * World) (entry : (string * string) * list DHCPLease)
  : list string * World :=
  let '(updated_files, w) := acc in
  let '((site, cabinet), group_leases) := entry in
  let '(output_file, w') := _update_cabinet_inventory env self site cabinet group_leases w in
  (updated_files ++ [output_file], w').

(** [LeaseProcessor.generate_batch_inventory] *)
Definition generate_batch_inventory (env : Env) (self : LeaseProcessor)
    (leases : list DHCPLease) (w : World) : option string * World :=
  match leases with
  | [] => (None, w)
  | _ =>
      let grouped_leases := group_leases leases in
      match grouped_leases with
      | [] => (None, w)
      | _ =>
          let '(updated_files, w') :=
            fold_left (batch_step env self) grouped_leases ([], w) in
          (last updated_files, w')
      end
  end.

(** [LeaseProcessor.sync_existing_leases]: the count and the new world. *)
Definition sync_existing_leases (env : Env) (self : LeaseProcessor)
    (leases : list DHCPLease) (w : World) : Z * World :=
  if negb (db_enabled self) then (0, w)
  else
    fold_left (fun '(created_count, w) lease =>
        if negb (truthy_opt (hostname lease)) then (created_count, w)
        else match _extract_site_and_cabinet lease with
             | None => (created_count, w)
             | Some _ =>
                 let '(ok, st) := create_static_reservation env self lease (store w) in
                 (if ok then created_count + 1 else created_count,
                  {| files := files w; store := st; log := log w;
                     reservation_calls := reservation_calls w ++ [lease] |})
             end)
      leases (0, w).

(** ** Poll-based lease source *)

(** The lease log as one call sees it: [stat().st_mtime] and what reading
    it with [csv.reader] gives ([None]: reading raises).  [st_mtime] is only
    compared for equality and tested for truth, so an integer stands for the
    float; 0 is the time stamp of the epoch. *)
Record LeaseLog := {
  st_mtime : Z;
  csv_rows : option (list (list string))
}.

Record FileLeaseSource := {
  subnet_filter : option (gset string);
  processed_leases : gset string;
  last_mtime : option Z
}.

(** Truthiness of [self.subnet_filter] and of [self.last_mtime] *)
Definition truthy_filter (f : option (gset string)) : bool :=
  match f with Some s => negb (bool_decide (s = ∅)) | None => false end.

Definition truthy_mtime (m : option Z) : bool :=
  match m with Some t => negb (t =? 0) | None => false end.

(** [FileLeaseSource._parse_lease_line] *)
Definition _parse_lease_line (self : FileLeaseSource) (line : list string)
  : option DHCPLease :=
  try_except
    (if (length line <? 9)%nat then inr None
     else
       let field (i : nat) := default "" (line !! i) in
       let ip_address := field 0%nat in
       let mac_address := field 1%nat in
       let subnet_id := field 5%nat in
       let hostname :=
         if (8 <? length line)%nat && truthy (field 8%nat) then Some (field 8%nat) else None in
       expire_timestamp ←
         (if truthy (field 4%nat)
          then match py_int (field 4%nat) with
               | Some n => inr n
               | None => raise ValueError
               end
          else inr 0);
       if truthy_filter (subnet_filter self)
          && negb (bool_decide (subnet_id ∈ default ∅ (subnet_filter self)))
       then inr None
       else inr (Some {| ip_address := ip_address;
                         mac_address := Some mac_address;
                         hostname := hostname;
                         subnet_id := Some subnet_id;
                         lease_timestamp := expire_timestamp |}))
    (fun _ => None).

(** Result of one call of [get_new_leases]: the batch, the source after
    the call, and whether the log was opened. *)
Record PollResult := {
  batch : list DHCPLease;
  source_after : FileLeaseSource;
  log_opened : bool
}.

(** [FileLeaseSource.get_new_leases]; [lease_file] is [None] when the file
    does not exist. *)
Definition get_new_leases (lease_file : option LeaseLog) (self : FileLeaseSource)
  : PollResult :=
  match lease_file with
  | None => {| batch := []; source_after := self; log_opened := false |}
  | Some f =>
      let current_mtime := st_mtime f in
      if truthy_mtime (last_mtime self)
         && bool_decide (Some current_mtime = last_mtime self)
      then {| batch := []; source_after := self; log_opened := false |}
      else
        let self' := {| subnet_filter := subnet_filter self;
                        processed_leases := processed_leases self;
                        last_mtime := Some current_mtime |} in
        match csv_rows f with
        | None => {| batch := []; source_after := self'; log_opened := true |}
        | Some rows =>
            let new_leases :=
              omap (fun line =>
                      match _parse_lease_line self' line with
                      | Some lease =>
                          if bool_decide (ip_address lease ∈ processed_leases self')
                          then None else Some lease
                      | None => None
                      end) rows in
            {| batch := new_leases; source_after := self'; log_opened := true |}
        end
  end.

(** [FileLeaseSource.mark_processed] *)
Definition mark_processed (self : FileLeaseSource) (lease : DHCPLease) : FileLeaseSource :=
  {| subnet_filter := subnet_filter self;
     processed_leases := {[ip_address lease]} ∪ processed_leases self;
     last_mtime := last_mtime self |}.



(** ** Notification-based lease source *)

(** The JSON object of one notification, by the keys that are read. *)
Record Notification := {
  n_hostname : option string;
  n_ipv4_address : option (Z + string);     (* an integer or a string *)
  n_dhcp_identifier : option string
}.

Record DatabaseLeaseSource := {
  db_subnet_id : option Z;
  processed_lease_ids : gset string
}.

(** [str(ipaddress.IPv4Address(n))]; outside 32 bits the constructor raises
    a [ValueError]. *)
Definition ipv4_to_string (n : Z) : exc string :=
  if (0 <=? n) && (n <? 2 ^ 32)
  then inr (join "." (map pretty [n / 2 ^ 24; (n / 2 ^ 16) mod 256;
                                   (n / 2 ^ 8) mod 256; n mod 256]))
  else raise ValueError.

Definition truthy_address (a : option (Z + string)) : bool :=
  match a with
  | Some (inl n) => negb (n =? 0)
  | Some (inr s) => truthy s
  | None => false
  end.

(** The body of the loop over [self.conn.notifies] for one payload that
    parsed as JSON: the lease it adds, if any. [clock] is [time.time()]. *)
Definition lease_of_notification (self : DatabaseLeaseSource) (clock : Z)
    (payload : Notification) : option DHCPLease :=
  try_except
    (if negb (truthy_opt (n_hostname payload)) || negb (truthy_address (n_ipv4_address payload))
     then inr None
     else
       ip_address ← match n_ipv4_address payload with
                    | Some (inl n) => ipv4_to_string n
                    | Some (inr s) => inr s
                    | None => inr ""
                    end;
       let mac_address :=
         if truthy_opt (n_dhcp_identifier payload)
         then Some (join ":" (chunks2 (or_empty (n_dhcp_identifier payload))))
         else None in
       if bool_decide (ip_address ∈ processed_lease_ids self) then inr None
       else inr (Some {| ip_address := ip_address;
                         mac_address := mac_address;
                         hostname := n_hostname payload;
                         subnet_id := match db_subnet_id self with
                                      | Some n => if negb (n =? 0) then Some (pretty n) else None
                                      | None => None
                                      end;
                         lease_timestamp := clock |}))
    (fun _ => None).

(** [DatabaseLeaseSource.get_new_leases] on the pending notifications; an
    element [None] is a payload that [json.loads] rejects. *)
Definition db_get_new_leases (clock : Z) (notifies : list (option Notification))
    (self : DatabaseLeaseSource) : list DHCPLease * DatabaseLeaseSource :=
  fold_left (fun '(new_leases, self) notify =>
      match notify with
      | None => (new_leases, self)
      | Some payload =>
          match lease_of_notification self clock payload with
          | Some lease =>
              (new_leases ++ [lease],
               {| db_subnet_id := db_subnet_id self;
                  processed_lease_ids := {[ip_address lease]} ∪ processed_lease_ids self |})
          | None => (new_leases, self)
          end
      end)
    notifies ([], self).

(** ** The rest of the poll-based source and the monitor loop *)

(** [FileLeaseSource.get_all_leases] *)
Definition get_all_leases (lease_file : option LeaseLog) (self : FileLeaseSource)
  : list DHCPLease :=
  match lease_file with
  | None => []
  | Some f =>
      match csv_rows f with
      | None => []
      | Some rows => omap (_parse_lease_line self) rows
      end
  end.

(** The loop [for lease in ...: lease_source.mark_processed(lease)] *)
Definition mark_all_processed (self : FileLeaseSource) (leases : list DHCPLease)
  : FileLeaseSource :=
  fold_left mark_processed leases self.


(** The initial synchronisation of [main] in file mode: with
    [--sync-existing] and an enabled store, all leases of the log are promoted
    and then marked as processed. *)
Definition initial_sync (env : Env) (processor : LeaseProcessor) (sync_existing : bool)
    (lease_file : option LeaseLog) (lease_source : FileLeaseSource) (w : World)
  : FileLeaseSource * World :=
  if sync_existing && db_enabled processor then
    let all_leases := get_all_leases lease_file lease_source in
    let '(created, w') := sync_existing_leases env processor all_leases w in
    (mark_all_processed lease_source all_leases, w')
  else (lease_source, w).

(** * Vocabulary of the specification *)

(** A token of shape [ru<NN>] occurs in [s]. *)
Definition has_ru_token (s : string) : Prop :=
  ∃ pre d rest, is_digit d = true ∧ s = pre +:+ "ru" +:+ String d rest.

Definition all_digits (s : string) : Prop :=
  ∀ pre c rest, s = pre +:+ String c rest → is_digit c = true.

(** [s] follows the convention [{site}-cab{number}-...]. *)
Definition site_cabinet_convention (s : string) : Prop :=
  ∃ site num rest,
    site ∈ Regex.site_codes ∧ num ≠ "" ∧ all_digits num ∧
    s = site +:+ "-cab" +:+ num +:+ "-" +:+ rest.

(** The lease passes the filter of [generate_batch_inventory]. *)
Definition matches_convention (lease : DHCPLease) : bool :=
  match _extract_site_and_cabinet lease with Some _ => true | None => false end.

(** Every lease of every group passes the filter. *)
Definition groups_match (grouped : list ((string * string) * list DHCPLease)) : Prop :=
  ∀ key g l, (key, g) ∈ grouped → l ∈ g → matches_convention l = true.

(** The target list of a cabinet file, empty when there is none. *)
Definition targets_of (w : World) (file_name : string) : list BmcTarget :=
  match files w !! file_name with
  | Some (YamlDoc inv) => default [] (bmc_targets inv)
  | _ => []
  end.

(** [a >= b] on sort keys, spelled out. *)
Definition key_ge (a b : Z * string) : Prop :=
  b.1 < a.1 ∨ (b.1 = a.1 ∧ str_lt a.2 b.2 = false).

(** What [_update_cabinet_inventory] loads and what it has after the merge. *)
Definition loaded_map (env : Env) (self : LeaseProcessor) (site cabinet : string)
    (w : World) : list (string * BmcDetails) :=
  load_existing env self (files w !! inventory_file_name site cabinet).

Definition merged_map (env : Env) (self : LeaseProcessor) (site cabinet : string)
    (leases : list DHCPLease) (w : World) : list (string * BmcDetails) :=
  existing_bmc_map
    (merge_leases env self
       {| existing_bmc_map := loaded_map env self site cabinet w;
          new_lease_count := 0; new_hostnames := [];
          m_store := store w; m_calls := reservation_calls w |}
       leases).

(** The derived fields as functions of the hostname key of a target. *)
Definition rack_unit_of_hostname (h : option string) : option string :=
  match h with
  | Some h => if truthy (_format_rack_unit h) then Some (_format_rack_unit h) else None
  | None => None
  end.

Definition manufacturer_of_hostname (h : option string) : option string :=
  _detect_manufacturer <$> h.

(** The value written for a manufacturer held in the map. *)
Definition manufacturer_field (d : BmcDetails) : option string :=
  if truthy (d_manufacturer d) then Some (d_manufacturer d) else None.

(** Both derived fields of every written target are determined by the
    hostname of the target alone. *)
Definition derived_from_hostname_alone : Prop :=
  ∃ (ru mf : option string → option string),
    ∀ env self site cabinet leases w t,
      t ∈ targets_of (_update_cabinet_inventory env self site cabinet leases w).2
                     (inventory_file_name site cabinet) →
      t_rack_unit t = ru (t_hostname t) ∧ t_manufacturer t = mf (t_hostname t).

(** The target carries the non-empty mac [m]. *)
Definition has_mac (m : string) (t : BmcTarget) : bool :=
  truthy (default "" (t_mac t)) && String.eqb (default "" (t_mac t)) m.

(** The mac-conflict warnings of a log that are about [mac]. *)
Definition is_mac_warning_for (mac : string) (r : LogRecord) : bool :=
  match r with
  | MacConflict _ _ mac' _ => String.eqb mac' mac
  | _ => false
  end.

Definition mac_warnings_for (mac : string) (l : list LogRecord) : list LogRecord :=
  List.filter (is_mac_warning_for mac) l.

(** One turn of the loop of [sync_existing_leases]. *)
Definition sync_step (env : Env) (self : LeaseProcessor)
  : Z * World → DHCPLease → Z * World :=
  fun '(created_count, w) lease =>
  if negb (truthy_opt (hostname lease)) then (created_count, w)
  else match _extract_site_and_cabinet lease with
       | None => (created_count, w)
       | Some _ =>
           let '(ok, st) := create_static_reservation env self lease (store w) in
           (if ok then created_count + 1 else created_count,
            {| files := files w; store := st; log := log w;
               reservation_calls := reservation_calls w ++ [lease] |})
       end.

(** The dotted-quad text of a 32-bit address. *)
Definition dotted_quad (n : Z) : string :=
  join "." (map pretty [n / 2 ^ 24; (n / 2 ^ 16) mod 256; (n / 2 ^ 8) mod 256; n mod 256]).

(** One turn of the loop of [DatabaseLeaseSource.get_new_leases]. *)
Definition notify_step (clock : Z)
  : list DHCPLease * DatabaseLeaseSource → option Notification →
    list DHCPLease * DatabaseLeaseSource :=
  fun '(new_leases, self) notify =>
    match notify with
    | None => (new_leases, self)
    | Some payload =>
        match lease_of_notification self clock payload with
        | Some lease =>
            (new_leases ++ [lease],
             {| db_subnet_id := db_subnet_id self;
                processed_lease_ids := {[ip_address lease]} ∪ processed_lease_ids self |})
        | None => (new_leases, self)
        end
    end.

(** The string consists of decimal digits. *)
Fixpoint digits_only (s : string) : bool :=
  match s with
  | EmptyString => true
  | String c s' => is_digit c && digits_only s'
  end.

(** The targets that share a hostname, and those that claim a rack unit. *)
Definition has_hostname (h : string) (t : BmcTarget) : bool :=
  truthy (default "" (t_hostname t)) && String.eqb (default "" (t_hostname t)) h.

Definition claims_unit (ru : Z) (t : BmcTarget) : bool :=
  bool_decide (ru ∈ _get_rack_unit_range (default "" (t_hostname t))).

Definition ips_with_mac (m : string) (targets : list BmcTarget) : list string :=
  map t_ip (List.filter (has_mac m) targets).

Definition ips_with_hostname (h : string) (targets : list BmcTarget) : list string :=
  map t_ip (List.filter (has_hostname h) targets).

Definition devices_on_unit (ru : Z) (targets : list BmcTarget) : list (string * string) :=
  map (λ t, (t_ip t, default "" (t_hostname t))) (List.filter (claims_unit ru) targets).

(** No mac, no hostname and no rack unit is held by two targets. *)
Definition conflict_free (targets : list BmcTarget) : Prop :=
  (∀ m, more_than_one (ips_with_mac m targets) = false)
  ∧ (∀ h, more_than_one (ips_with_hostname h targets) = false)
  ∧ (∀ ru, more_than_one (devices_on_unit ru targets) = false).

(** A target that carries its address only. *)
Definition bare_target (ip : string) : BmcTarget :=
  {| t_ip := ip; t_mac := None; t_hostname := None; t_rack_unit := None;
     t_manufacturer := None |}.

(** The file of a group of [grouped_leases]. *)
Definition group_file (entry : (string * string) * list DHCPLease) : string :=
  inventory_file_name entry.1.1 entry.1.2.

(** The conflict key of a reservation row. *)
Definition row_key (r : HostRow) : string * Z * Z :=
  (dhcp_identifier r, dhcp_identifier_type r, dhcp4_subnet_id r).

(** No two rows of the store have the same conflict key. *)
Definition key_unique (rows : list HostRow) : Prop := NoDup (map row_key rows).

(** [create_dns_record] goes as far as the DNS server. *)
Definition dns_active (self : LeaseProcessor) : bool :=
  enable_dns self && truthy_opt (dns_zone self) && dns_modules self.

(** The conditions under which a promotion goes through; none of them
    looks at the rows of the store. *)
Definition promotion_succeeds (env : Env) (self : LeaseProcessor) (lease : DHCPLease) : bool :=
  db_enabled self && truthy_opt (hostname lease)
  && match mac_address lease with
     | Some m =>
         db_connect_ok env
         && db_statement_ok env (upper (remove_char ":" m)) (reservation_subnet_id self)
                            (ip_address lease) (or_empty (hostname lease))
         && (negb (dns_active self)
             || sds_create_ok env
                  (or_empty (hostname lease) +:+ "." +:+ or_empty (dns_zone self))
                  (ip_address lease))
     | None => false
     end.

(** The identifier under which a mac address is stored. *)
Definition mac_hex_of (mac : string) : string := upper (remove_char ":" mac).

(** ** Scenarios *)

Module Scenario.

Definition env_up : Env :=
  {| db_connect_ok := true;
     db_statement_ok := fun _ _ _ _ => true;
     sds_create_ok := fun _ _ => true;
     lease4_row := fun _ => None;
     now := "2025-01-01T00:00:00+00:00" |}.

(** The DNS collaborator rejects every record. *)
Definition env_dns_down : Env :=
  {| db_connect_ok := true;
     db_statement_ok := fun _ _ _ _ => true;
     sds_create_ok := fun _ _ => false;
     lease4_row := fun _ => None;
     now := "2025-01-01T00:00:00+00:00" |}.

(** Inventory only: no reservation store, no DNS. *)
Definition files_only : LeaseProcessor :=
  {| db_enabled := false; reservation_subnet_id := 1; enable_dns := false;
     dns_zone := None; dns_scope := "internal"; dns_modules := false |}.

(** Reservations with DNS records in zone [site.com]. *)
Definition with_dns : LeaseProcessor :=
  {| db_enabled := true; reservation_subnet_id := 1; enable_dns := true;
     dns_zone := Some "site.com"; dns_scope := "internal"; dns_modules := true |}.

Definition no_store : Store := {| hosts := []; dns_records := [] |}.

Definition empty_world : World :=
  {| files := ∅; store := no_store; log := []; reservation_calls := [] |}.

Definition lease (ip : string) (mac : option string) (h : option string) : DHCPLease :=
  {| ip_address := ip; mac_address := mac; hostname := h;
     subnet_id := Some "1"; lease_timestamp := 1700000000 |}.

Definition target (ip : string) (mac h ru mf : option string) : BmcTarget :=
  {| t_ip := ip; t_mac := mac; t_hostname := h; t_rack_unit := ru; t_manufacturer := mf |}.

Definition ru3 : BmcTarget :=
  target "10.0.0.1" (Some "aa:bb:cc:00:00:01") (Some "us3-cab10-ru3-idrac")
         (Some "RU 3") (Some "Dell").
Definition ru9 : BmcTarget :=
  target "10.0.0.2" (Some "aa:bb:cc:00:00:02") (Some "us3-cab10-ru9-idrac")
         (Some "RU 9") (Some "Dell").
Definition unnamed : BmcTarget :=
  target "10.0.0.3" (Some "aa:bb:cc:00:00:03") None None None.

(** A world whose only file is the inventory of cabinet us3-cab10. *)
Definition cab10_world (targets : list BmcTarget) : World :=
  {| files := {[ "us3-cab10-discovery.yml" :=
                   YamlDoc {| bmc_targets := Some targets;
                              metadata := Some {| updated_at := "2024-12-31T00:00:00+00:00";
                                                  source := "kea_lease_monitor";
                                                  site := "us3"; cabinet := "cab10";
                                                  total_count := Z.of_nat (length targets);
                                                  leases := None |} |} ]};
     store := no_store; log := []; reservation_calls := [] |}.

(** The same iDRAC, once recorded as HP and once as Dell. *)
Definition ru5_as (mf : string) : BmcTarget :=
  target "10.0.0.5" (Some "aa:bb:cc:00:00:05") (Some "us3-cab10-ru5-idrac")
         (Some "RU 5") (Some mf).

Definition lease_ru7 : DHCPLease :=
  lease "10.0.0.7" (Some "aa:bb:cc:00:00:07") (Some "us3-cab10-ru7-ilo").

Definition lease_ru5 : DHCPLease :=
  lease "10.0.0.5" (Some "aa:bb:cc:00:00:55") (Some "us3-cab10-ru5-new-bmc").

Definition lease_nohyphen : DHCPLease :=
  lease "10.0.0.9" (Some "aa:bb:cc:00:00:09") (Some "rack1-nohyphen").

(** A lease of another address with the mac of [ru5_as]. *)
Definition lease_same_mac : DHCPLease :=
  lease "10.0.0.7" (Some "aa:bb:cc:00:00:05") (Some "us3-cab10-ru7-idrac").

Definition ru7_same_mac : BmcTarget :=
  target "10.0.0.7" (Some "aa:bb:cc:00:00:05") (Some "us3-cab10-ru7-idrac")
         (Some "RU 7") (Some "Dell").

(** A notification without [dhcp_identifier] for 10.0.0.1. *)
Definition notification_no_mac : Notification :=
  {| n_hostname := Some "us3-cab10-ru5-idrac";
     n_ipv4_address := Some (inl 167772161);
     n_dhcp_identifier := None |}.

Definition listener : DatabaseLeaseSource :=
  {| db_subnet_id := Some 1; processed_lease_ids := ∅ |}.

Definition lease_no_mac : DHCPLease :=
  {| ip_address := "10.0.0.1"; mac_address := None;
     hostname := Some "us3-cab10-ru5-idrac";
     subnet_id := Some "1"; lease_timestamp := 1700000000 |}.

(** A row of the lease log with an empty hardware address: address, hwaddr,
    client_id, valid_lifetime, expire, subnet_id, fqdn_fwd, fqdn_rev,
    hostname, state, user_context. *)
Definition row_no_hwaddr : list string :=
  ["10.0.0.1"; ""; ""; "3600"; "1700000000"; "1"; "0"; "0";
   "us3-cab10-ru5-idrac"; "0"; ""].

Definition lease_no_hwaddr : DHCPLease :=
  lease "10.0.0.1" (Some "") (Some "us3-cab10-ru5-idrac").

(** A lease log whose modification time is the epoch. *)
Definition log_at_epoch : LeaseLog :=
  {| st_mtime := 0; csv_rows := Some [row_no_hwaddr] |}.

Definition fresh_source : FileLeaseSource :=
  {| subnet_filter := None; processed_leases := ∅; last_mtime := None |}.

(** The same log with a later modification time. *)
Definition log_at_noon : LeaseLog :=
  {| st_mtime := 1700000000; csv_rows := Some [row_no_hwaddr] |}.

(** A notification with the hardware identifier in hexadecimal. *)
Definition notification_with_mac : Notification :=
  {| n_hostname := Some "us3-cab10-ru7-ilo";
     n_ipv4_address := Some (inl 167772167);
     n_dhcp_identifier := Some "aabbcc000007" |}.

(** The file that a pass writes for a lease without hardware address. *)
Definition world_without_mac : World :=
  cab10_world [target "10.0.0.1" None (Some "us3-cab10-ru5-idrac") (Some "RU 5") (Some "Dell")].

End Scenario.

(** * Properties *)

#[local] Arguments String.append !_ _ / : simpl nomatch.

(** ** Strings and patterns *)

Section StringFacts.

Lemma strip_prefix_Some p s r :
  Regex.strip_prefix p s = Some r ↔ s = p +:+ r.
Proof.
  revert s; induction p as [|a p IH]; intros s; simpl.
  - split; congruence.
  - destruct s as [|b s]; [split; discriminate|].
    destruct (Ascii.eqb_spec a b) as [->|Hne].
    + rewrite IH. split; [intros ->; reflexivity | intros [=]; assumption].
    + split; [discriminate | intros [=]; congruence].
Qed.

Lemma strip_prefix_None p s :
  Regex.strip_prefix p s = None ↔ ∀ r, s ≠ p +:+ r.
Proof.
  split.
  - intros H r Hr. apply strip_prefix_Some in Hr. congruence.
  - intros H. destruct (Regex.strip_prefix p s) as [r|] eqn:E; [|reflexivity].
    apply strip_prefix_Some in E. exfalso; eapply H; eassumption.
Qed.

Lemma span_digits_app s :
  s = (span_digits s).1 +:+ (span_digits s).2.
Proof.
  induction s as [|c s IH]; simpl; [reflexivity|].
  destruct (is_digit c); [|reflexivity].
  destruct (span_digits s) as [d r]; simpl in *. congruence.
Qed.

Lemma span_digits_all s : all_digits (span_digits s).1.
Proof.
  induction s as [|c s IH]; simpl.
  - intros [|? ?] ? ? ?; discriminate.
  - destruct (is_digit c) eqn:Hc.
    + destruct (span_digits s) as [d r]; simpl in *.
      intros [|a pre] x rest; simpl; intros [= -> ?]; subst; [assumption|].
      eapply IH; reflexivity.
    + intros [|? ?] ? ? ?; discriminate.
Qed.

Lemma span_digits_rest s c r :
  (span_digits s).2 = String c r → is_digit c = false.
Proof.
  induction s as [|a s IH]; simpl; [discriminate|].
  destruct (is_digit a) eqn:Ha.
  - destruct (span_digits s) as [d r']; simpl in *. assumption.
  - simpl. intros [= -> _]. assumption.
Qed.

Lemma digits1_Some s d rest :
  Regex.digits1 s = Some (d, rest) →
  s = d +:+ rest ∧ d ≠ "" ∧ all_digits d ∧ (∀ c r, rest = String c r → is_digit c = false).
Proof.
  unfold Regex.digits1.
  pose proof (span_digits_app s) as Happ.
  pose proof (span_digits_all s) as Hall.
  pose proof (span_digits_rest s) as Hrest.
  destruct (span_digits s) as [d' r']; simpl in *.
  destruct d' as [|c d']; simpl; [discriminate|].
  intros [= <- <-]. repeat split; [assumption | discriminate | assumption | assumption].
Qed.

Lemma digits1_None s :
  Regex.digits1 s = None ↔ ∀ c r, s = String c r → is_digit c = false.
Proof.
  unfold Regex.digits1. destruct s as [|a s]; simpl.
  - split; [intros _ ? ? ?; discriminate | reflexivity].
  - destruct (is_digit a) eqn:Ha.
    + destruct (span_digits s) as [d r]; simpl.
      split; [discriminate|]. intros H. specialize (H a s eq_refl). congruence.
    + simpl. split; [|reflexivity]. intros _ c r [= <- _]. assumption.
Qed.

Lemma ru_at_None s :
  Regex.ru_at s = None ↔ ∀ d rest, is_digit d = true → s ≠ "ru" +:+ String d rest.
Proof.
  unfold Regex.ru_at.
  destruct (Regex.strip_prefix "ru" s) as [r|] eqn:Hp.
  - apply strip_prefix_Some in Hp. subst s.
    destruct (Regex.digits1 r) as [[d1 r1]|] eqn:Hd.
    + split.
      * destruct (Regex.strip_prefix "-" r1) as [r2|];
          [destruct (Regex.digits1 r2) as [[? ?]|]|]; discriminate.
      * intros H. exfalso.
        apply digits1_Some in Hd as (-> & Hne & Hall & _).
        destruct d1 as [|c d1]; [congruence|].
        apply (H c (d1 +:+ r1)); [|reflexivity].
        apply (Hall "" c d1). reflexivity.
    + split; [|reflexivity]. intros _ d rest Hdig [= ->].
      rewrite digits1_None in Hd. specialize (Hd d rest eq_refl). congruence.
  - split; [|reflexivity]. intros _ d rest _ ->.
    rewrite strip_prefix_None in Hp. apply (Hp (String d rest)). reflexivity.
Qed.

Lemma search_ru_None s :
  Regex.search_ru s = None ↔ ¬ has_ru_token s.
Proof.
  induction s as [|a s IH].
  - simpl. split; [|reflexivity]. intros _ (pre & d & rest & _ & H).
    destruct pre; discriminate.
  - cbn [Regex.search_ru].
    destruct (Regex.ru_at (String a s)) as [g|] eqn:Hat.
    + split; [discriminate|]. intros Hno. exfalso.
      assert (Regex.ru_at (String a s) = None) as E; [|congruence].
      apply ru_at_None. intros d rest Hd Heq. apply Hno.
      exists "", d, rest. split; [assumption|]. exact Heq.
    + rewrite IH. rewrite ru_at_None in Hat.
      split.
      * intros Hno (pre & d & rest & Hd & Heq).
        destruct pre as [|b pre].
        -- apply (Hat d rest Hd). exact Heq.
        -- injection Heq as -> ->. apply Hno. exists pre, d, rest. split; [assumption|reflexivity].
      * intros Hno (pre & d & rest & Hd & ->). apply Hno.
        exists (String a pre), d, rest. split; [assumption|reflexivity].
Qed.

End StringFacts.

(** ** Rack-unit extraction *)

(** C6. Rack-unit extraction on [us3-cab10-ru7-9-idrac] gives the units
    {7,8,9}, the highest unit 9 and the display "RU 9-7"; on
    [us3-cab10-ru05-bmc] it gives {5}, 5 and "RU 5"; and on every hostname in
    which no [ru<NN>] token occurs the three functions return the empty set,
    0 and the empty string (they are total, so nothing is raised). *)
Theorem rack_unit_extraction :
  (_get_rack_unit_range "us3-cab10-ru7-9-idrac" = {[7; 8; 9]}
   ∧ _extract_rack_unit "us3-cab10-ru7-9-idrac" = 9
   ∧ _format_rack_unit "us3-cab10-ru7-9-idrac" = "RU 9-7")
  ∧ (_get_rack_unit_range "us3-cab10-ru05-bmc" = {[5]}
     ∧ _extract_rack_unit "us3-cab10-ru05-bmc" = 5
     ∧ _format_rack_unit "us3-cab10-ru05-bmc" = "RU 5")
  ∧ (∀ hostname : string,
       ¬ has_ru_token (lower hostname) →
       _get_rack_unit_range hostname = ∅
       ∧ _extract_rack_unit hostname = 0
       ∧ _format_rack_unit hostname = "").
Proof.
  split; [|split].
  - repeat split; vm_compute; reflexivity.
  - repeat split; vm_compute; reflexivity.
  - intros h Hno. apply search_ru_None in Hno.
    unfold _get_rack_unit_range, _extract_rack_unit, _format_rack_unit.
    rewrite Hno. destruct (negb (truthy h)); auto.
Qed.

Lemma rack_unit_extraction_witness :
  ¬ has_ru_token (lower "rack1-nohyphen")
  ∧ _get_rack_unit_range "rack1-nohyphen" = ∅
  ∧ _extract_rack_unit "rack1-nohyphen" = 0
  ∧ _format_rack_unit "rack1-nohyphen" = "".
Proof.
  assert (¬ has_ru_token (lower "rack1-nohyphen")) as H
    by (apply search_ru_None; vm_compute; reflexivity).
  split; [exact H|].
  exact (proj2 (proj2 rack_unit_extraction) "rack1-nohyphen" H).
Defined.

(** ** The naming convention *)

Section Convention.

Lemma span_digits_exact d rest :
  all_digits d → (∀ c r, rest = String c r → is_digit c = false) →
  span_digits (d +:+ rest) = (d, rest).
Proof.
  intros Hd Hrest. induction d as [|a d IH]; simpl.
  - destruct rest as [|c r]; simpl; [reflexivity|].
    rewrite (Hrest c r eq_refl). reflexivity.
  - rewrite (Hd "" a d eq_refl). rewrite IH; [reflexivity|].
    intros pre c r ->. apply (Hd (String a pre) c r). reflexivity.
Qed.

Lemma list_find_map_Some {A B} (f : A → option B) l y :
  list_find_map f l = Some y → ∃ x, x ∈ l ∧ f x = Some y.
Proof.
  induction l as [|a l IH]; simpl; [discriminate|].
  destruct (f a) as [b|] eqn:E.
  - intros [= <-]. exists a. split; [left | assumption].
  - intros H. destruct (IH H) as (x & Hx & Hf). exists x. split; [right|]; assumption.
Qed.

Lemma site_at_Some s site rest :
  Regex.site_at s = Some (site, rest) → site ∈ Regex.site_codes ∧ s = site +:+ rest.
Proof.
  unfold Regex.site_at. intros H.
  apply list_find_map_Some in H as (code & Hin & Hf).
  destruct (Regex.strip_prefix code s) as [r|] eqn:E; [|discriminate].
  injection Hf as <- <-. apply strip_prefix_Some in E. auto.
Qed.

Lemma site_at_code site rest :
  site ∈ Regex.site_codes → Regex.site_at (site +:+ rest) = Some (site, rest).
Proof.
  unfold Regex.site_codes. intros H.
  repeat (apply elem_of_cons in H as [->|H]; [reflexivity|]).
  apply elem_of_nil in H. contradiction.
Qed.

Lemma match_site_cabinet_None s :
  Regex.match_site_cabinet s = None ↔ ¬ site_cabinet_convention s.
Proof.
  unfold Regex.match_site_cabinet. split.
  - intros H (site & num & rest & Hsite & Hne & Hdig & ->).
    rewrite (site_at_code _ _ Hsite) in H.
    change (Regex.strip_prefix "-cab" ("-cab" +:+ num +:+ "-" +:+ rest))
      with (Some (num +:+ "-" +:+ rest)) in H.
    unfold Regex.digits1 in H.
    rewrite (span_digits_exact num ("-" +:+ rest)) in H; [|assumption|].
    + destruct num; [congruence|]. simpl in H. discriminate.
    + intros c r [= <- _]. reflexivity.
  - intros Hno.
    destruct (Regex.site_at s) as [[site rest]|] eqn:Hs; [|reflexivity].
    apply site_at_Some in Hs as [Hsite ->].
    destruct (Regex.strip_prefix "-cab" rest) as [r1|] eqn:H1; [|reflexivity].
    apply strip_prefix_Some in H1 as ->.
    destruct (Regex.digits1 r1) as [[num r2]|] eqn:H2; [|reflexivity].
    apply digits1_Some in H2 as (-> & Hne & Hdig & _).
    destruct (Regex.strip_prefix "-" r2) as [r3|] eqn:H3; [|reflexivity].
    apply strip_prefix_Some in H3 as ->.
    exfalso. apply Hno. exists site, num, r3. auto.
Qed.

(** Leases outside the convention are the ones [_extract_site_and_cabinet]
    answers [None] for. *)
Lemma extract_site_and_cabinet_None lease :
  _extract_site_and_cabinet lease = None ↔
  ¬ site_cabinet_convention (lower (or_empty (hostname lease))).
Proof.
  unfold _extract_site_and_cabinet.
  destruct (truthy_opt (hostname lease)) eqn:Ht; simpl.
  - rewrite <- match_site_cabinet_None.
    destruct (Regex.match_site_cabinet _) as [[? ?]|]; split; congruence.
  - split; [|reflexivity]. intros _.
    assert (or_empty (hostname lease) = "") as ->.
    { unfold or_empty. destruct (hostname lease) as [h|]; [|reflexivity].
      simpl in Ht. rewrite Ht. reflexivity. }
    intros (site & num & rest & Hsite & _ & _ & H). simpl in H.
    unfold Regex.site_codes in Hsite.
    repeat (apply elem_of_cons in Hsite as [->|Hsite]; [discriminate H|]).
    apply elem_of_nil in Hsite. contradiction.
Qed.

End Convention.

(** ** Dictionaries *)

Section DictFacts.
Context {K V : Type} `{EqDecision K}.
Implicit Types (d : list (K * V)) (k : K) (v : V).

Lemma dict_get_set_eq d k v : dict_get (dict_set d k v) k = Some v.
Proof.
  induction d as [|[k' v'] d IH]; simpl.
  - rewrite decide_True; reflexivity.
  - destruct (decide (k' = k)) as [->|Hne]; simpl.
    + rewrite decide_True; reflexivity.
    + rewrite decide_False; assumption.
Qed.

Lemma dict_get_set_ne d k k' v : k ≠ k' → dict_get (dict_set d k v) k' = dict_get d k'.
Proof.
  intros Hne. induction d as [|[k0 v0] d IH]; simpl.
  - rewrite decide_False; [reflexivity | assumption].
  - destruct (decide (k0 = k)) as [->|Hne0]; simpl.
    + rewrite !decide_False; [reflexivity | assumption | assumption].
    + destruct (decide (k0 = k')); [reflexivity | assumption].
Qed.

Lemma dict_get_elem d k v : dict_get d k = Some v → (k, v) ∈ d.
Proof.
  induction d as [|[k' v'] d IH]; simpl; [discriminate|].
  destruct (decide (k' = k)) as [->|Hne].
  - intros [= ->]. left.
  - intros H. right. auto.
Qed.

Lemma dict_get_None d k : dict_get d k = None ↔ k ∉ dict_keys d.
Proof.
  unfold dict_keys. induction d as [|[k' v'] d IH]; simpl.
  - split; [intros _; apply not_elem_of_nil | reflexivity].
  - rewrite not_elem_of_cons. destruct (decide (k' = k)) as [->|Hne].
    + split; [discriminate | intros [? _]; congruence].
    + rewrite IH. split; [intros ?; split; [congruence | assumption] | intros [_ ?]; assumption].
Qed.

Lemma dict_set_elem d k v k' v' :
  (k', v') ∈ dict_set d k v → (k', v') = (k, v) ∨ (k', v') ∈ d.
Proof.
  induction d as [|[k0 v0] d IH]; simpl.
  - intros H. apply list_elem_of_singleton in H. auto.
  - destruct (decide (k0 = k)) as [->|Hne]; intros H;
      apply elem_of_cons in H as [H|H].
    + left. assumption.
    + right. right. assumption.
    + right. rewrite H. left.
    + destruct (IH H); [auto | right; right; assumption].
Qed.

Lemma dict_set_fresh d k v : dict_get d k = None → dict_set d k v = d ++ [(k, v)].
Proof.
  induction d as [|[k' v'] d IH]; simpl; [reflexivity|].
  destruct (decide (k' = k)); [discriminate|]. intros H. rewrite IH; auto.
Qed.

Lemma dict_set_keys_present d k v :
  dict_get d k ≠ None → dict_keys (dict_set d k v) = dict_keys d.
Proof.
  unfold dict_keys. induction d as [|[k' v'] d IH]; simpl; [congruence|].
  destruct (decide (k' = k)) as [->|Hne]; simpl; [reflexivity|].
  intros H. rewrite IH; auto.
Qed.

Lemma dict_set_keys_NoDup d k v : NoDup (dict_keys d) → NoDup (dict_keys (dict_set d k v)).
Proof.
  intros Hnd. destruct (dict_get d k) as [v0|] eqn:E.
  - rewrite dict_set_keys_present; [assumption | congruence].
  - rewrite dict_set_fresh by assumption. unfold dict_keys in *.
    rewrite map_app. simpl. apply NoDup_app. split; [assumption|]. split.
    + intros x Hx Hx'. apply list_elem_of_singleton in Hx'. subst x.
      apply dict_get_None in E. exact (E Hx).
    + apply NoDup_singleton.
Qed.
End DictFacts.

(** ** Grouping by cabinet and the filter on the naming convention *)

Section Filter.
Variables (env : Env) (self : LeaseProcessor).

Lemma group_leases_filter_acc leases acc :
  fold_left group_step (List.filter matches_convention leases) acc
  = fold_left group_step leases acc.
Proof.
  revert acc. induction leases as [|l leases IH]; intros acc; simpl; [reflexivity|].
  unfold matches_convention at 1, group_step at 3.
  destruct (_extract_site_and_cabinet l) as [key|] eqn:E; simpl.
  - unfold group_step at 2. rewrite E. apply IH.
  - apply IH.
Qed.

Lemma group_leases_filter leases :
  group_leases (List.filter matches_convention leases) = group_leases leases.
Proof. apply group_leases_filter_acc. Qed.

Lemma dict_append_groups_match grouped key l :
  groups_match grouped → matches_convention l = true →
  groups_match (dict_append grouped key l).
Proof.
  intros Hg Hl key' g' l' Hin Hl'. unfold dict_append in Hin.
  destruct (dict_get grouped key) as [g0|] eqn:E;
    apply dict_set_elem in Hin as [[= -> ->]|Hin]; try (eapply Hg; eassumption).
  - apply elem_of_app in Hl' as [Hl'|Hl'].
    + apply dict_get_elem in E. eapply Hg; eassumption.
    + apply list_elem_of_singleton in Hl'. congruence.
  - apply list_elem_of_singleton in Hl'. congruence.
Qed.

Lemma group_leases_match leases : groups_match (group_leases leases).
Proof.
  unfold group_leases.
  assert (∀ acc, groups_match acc → groups_match (fold_left group_step leases acc)) as H.
  { induction leases as [|l leases IH]; intros acc Hacc; simpl; [assumption|].
    apply IH. unfold group_step.
    destruct (_extract_site_and_cabinet l) as [key|] eqn:E; [|assumption].
    apply dict_append_groups_match; [assumption|].
    unfold matches_convention. rewrite E. reflexivity. }
  apply H. intros ? ? ? Hin. apply elem_of_nil in Hin. contradiction.
Qed.

(** Reservation is attempted for leases of the group only. *)
Lemma merge_leases_calls leases s l :
  l ∈ m_calls (merge_leases env self s leases) → l ∈ m_calls s ∨ l ∈ leases.
Proof.
  revert s. induction leases as [|a leases IH]; intros s; simpl; [auto|].
  intros H. apply IH in H as [H|H]; [|right; right; assumption].
  unfold merge_lease in H.
  destruct (dict_mem _ _); [auto|].
  destruct (truthy_opt (hostname a)); [|auto].
  destruct (create_static_reservation _ _ _ _) as [ok st]. simpl in H.
  apply elem_of_app in H as [H|H]; [auto|].
  apply list_elem_of_singleton in H. subst. right. left.
Qed.

Lemma update_cabinet_calls site cabinet leases w l :
  l ∈ reservation_calls (_update_cabinet_inventory env self site cabinet leases w).2 →
  l ∈ reservation_calls w ∨ l ∈ leases.
Proof. unfold _update_cabinet_inventory. simpl. apply merge_leases_calls. Qed.

Lemma batch_calls grouped acc l :
  groups_match grouped →
  l ∈ reservation_calls (fold_left (batch_step env self) grouped acc).2 →
  l ∈ reservation_calls acc.2 ∨ matches_convention l = true.
Proof.
  revert acc. induction grouped as [|[[site cabinet] g] grouped IH]; intros acc Hg; simpl;
    [auto|].
  intros H. apply IH in H.
  - destruct H as [H|H]; [|auto].
    destruct acc as [updated w]. simpl in H.
    destruct (_update_cabinet_inventory env self site cabinet g w) as [f w'] eqn:E.
    simpl in H. replace w' with (_update_cabinet_inventory env self site cabinet g w).2 in H
      by (rewrite E; reflexivity).
    apply update_cabinet_calls in H as [H|H]; [auto|].
    right. eapply Hg; [left | eassumption].
  - intros key g' l' Hin. eapply Hg. right. eassumption.
Qed.

Lemma generate_batch_inventory_unfold leases w :
  generate_batch_inventory env self leases w =
  match leases with
  | [] => (None, w)
  | _ => match group_leases leases with
         | [] => (None, w)
         | grouped =>
             let r := fold_left (batch_step env self) grouped ([], w) in (last r.1, r.2)
         end
  end.
Proof.
  unfold generate_batch_inventory. destruct leases as [|l leases]; [reflexivity|].
  destruct (group_leases (l :: leases)) as [|e grouped] eqn:E; [reflexivity|].
  destruct (fold_left (batch_step env self) (e :: grouped) ([], w)) as [u w']. reflexivity.
Qed.

End Filter.

Section FilterTheorem.
Variables (env : Env) (self : LeaseProcessor).

Lemma generate_batch_inventory_filter leases w :
  generate_batch_inventory env self leases w
  = generate_batch_inventory env self (List.filter matches_convention leases) w.
Proof.
  rewrite !generate_batch_inventory_unfold, group_leases_filter.
  destruct leases as [|l leases]; [reflexivity|].
  destruct (List.filter matches_convention (l :: leases)) as [|l' leases'] eqn:E;
    [|reflexivity].
  rewrite <- group_leases_filter, E. reflexivity.
Qed.

Lemma generate_batch_inventory_calls leases w l :
  l ∈ reservation_calls (generate_batch_inventory env self leases w).2 →
  l ∈ reservation_calls w ∨ matches_convention l = true.
Proof.
  rewrite generate_batch_inventory_unfold.
  destruct leases as [|a leases]; [auto|].
  pose proof (group_leases_match (a :: leases)) as Hg.
  destruct (group_leases (a :: leases)) as [|e grouped]; [auto|].
  cbv zeta. cbn [snd]. intros H.
  apply (batch_calls env self _ _ _ Hg) in H. exact H.
Qed.

Lemma sync_existing_leases_calls leases w l :
  l ∈ reservation_calls (sync_existing_leases env self leases w).2 →
  l ∈ reservation_calls w ∨ matches_convention l = true.
Proof.
  unfold sync_existing_leases. destruct (negb (db_enabled self)); [auto|].
  generalize 0 as n. revert w.
  induction leases as [|a leases IH]; intros w n; simpl; [auto|].
  destruct (negb (truthy_opt (hostname a))); [apply IH|].
  destruct (_extract_site_and_cabinet a) as [key|] eqn:E; [|apply IH].
  destruct (create_static_reservation env self a (store w)) as [ok st].
  intros H. apply IH in H as [H|H]; [|auto]. simpl in H.
  apply elem_of_app in H as [H|H]; [auto|].
  apply list_elem_of_singleton in H. subst. right.
  unfold matches_convention. rewrite E. reflexivity.
Qed.
End FilterTheorem.

(** C7. A lease whose hostname does not follow [{site}-cab{number}-] (as
    [rack1-nohyphen] does not) is filtered out: the reconciliation of a batch
    gives the same files, store, log and calls as the batch without it, and
    [create_static_reservation] is called during reconciliation, or during
    the bulk synchronisation, only with leases that follow the convention. *)
Theorem convention_filter (env : Env) (self : LeaseProcessor)
    (pre post : list DHCPLease) (lease : DHCPLease) (w : World) :
  ¬ site_cabinet_convention (lower (or_empty (hostname lease))) →
  generate_batch_inventory env self (pre ++ lease :: post) w
    = generate_batch_inventory env self (pre ++ post) w
  ∧ (lease ∈ reservation_calls (generate_batch_inventory env self (pre ++ lease :: post) w).2 →
     lease ∈ reservation_calls w)
  ∧ (lease ∈ reservation_calls (sync_existing_leases env self (pre ++ lease :: post) w).2 →
     lease ∈ reservation_calls w)
  ∧ ¬ site_cabinet_convention (lower "rack1-nohyphen").
Proof.
  intros Hno. apply extract_site_and_cabinet_None in Hno.
  assert (matches_convention lease = false) as Hm
    by (unfold matches_convention; rewrite Hno; reflexivity).
  split; [|split; [|split]].
  - rewrite generate_batch_inventory_filter.
    rewrite (generate_batch_inventory_filter env self (pre ++ post)).
    rewrite !List.filter_app. simpl. rewrite Hm. reflexivity.
  - intros H. apply generate_batch_inventory_calls in H as [H|H]; [assumption | congruence].
  - intros H. apply sync_existing_leases_calls in H as [H|H]; [assumption | congruence].
  - apply match_site_cabinet_None. vm_compute. reflexivity.
Qed.

(** ** Order of strings and of sort keys *)

Section Order.

Lemma str_compare_refl s : String.compare s s = Eq.
Proof.
  induction s as [|a s IH]; simpl; [reflexivity|].
  unfold Ascii.compare. rewrite N.compare_refl. assumption.
Qed.

Lemma str_lt_irrefl s : str_lt s s = false.
Proof. unfold str_lt, String.ltb. rewrite str_compare_refl. reflexivity. Qed.

Lemma str_lt_asym a b : str_lt a b = true → str_lt b a = false.
Proof.
  unfold str_lt, String.ltb. rewrite (String.compare_antisym b a).
  destruct (String.compare a b); simpl; congruence.
Qed.

Lemma str_ge_antisym a b : str_lt a b = false → str_lt b a = false → a = b.
Proof.
  unfold str_lt, String.ltb. rewrite (String.compare_antisym b a).
  destruct (String.compare a b) eqn:E; simpl; try congruence.
  intros _ _. apply String.compare_eq_iff in E. congruence.
Qed.

Lemma str_compare_not_Lt_trans a b c :
  String.compare a b ≠ Lt → String.compare b c ≠ Lt → String.compare a c ≠ Lt.
Proof.
  revert b c. induction a as [|x a IH]; intros [|y b] [|z c]; simpl; try congruence.
  unfold Ascii.compare.
  destruct (N.compare_spec (N_of_ascii x) (N_of_ascii y)) as [Exy|Exy|Exy];
    destruct (N.compare_spec (N_of_ascii y) (N_of_ascii z)) as [Eyz|Eyz|Eyz];
    destruct (N.compare_spec (N_of_ascii x) (N_of_ascii z)) as [Exz|Exz|Exz];
    try congruence; try lia.
  apply IH.
Qed.

Lemma str_ge_trans a b c :
  str_lt a b = false → str_lt b c = false → str_lt a c = false.
Proof.
  unfold str_lt, String.ltb. intros H1 H2.
  pose proof (str_compare_not_Lt_trans a b c) as H.
  destruct (String.compare a b), (String.compare b c), (String.compare a c);
    try reflexivity; try discriminate; exfalso; apply H; congruence.
Qed.

Lemma key_lt_ge a b : key_lt a b = false ↔ key_ge a b.
Proof.
  unfold key_lt, key_ge. destruct a as [a1 a2], b as [b1 b2]; simpl.
  destruct (Z.ltb_spec a1 b1) as [Hlt|Hge]; simpl.
  - split; [discriminate|]. intros [H|[H _]]; lia.
  - destruct (Z.eqb_spec a1 b1) as [->|Hne]; simpl.
    + split; [intros H; right; auto | intros [H|[_ H]]; [lia | assumption]].
    + split; [intros _; left; lia | reflexivity].
Qed.

Lemma key_lt_asym a b : key_lt a b = true → key_lt b a = false.
Proof.
  unfold key_lt. destruct a as [a1 a2], b as [b1 b2]; simpl.
  destruct (Z.ltb_spec a1 b1), (Z.eqb_spec a1 b1), (Z.ltb_spec b1 a1), (Z.eqb_spec b1 a1);
    simpl; try lia; try congruence.
  apply str_lt_asym.
Qed.

Lemma key_ge_trans a b c :
  key_lt a b = false → key_lt b c = false → key_lt a c = false.
Proof.
  rewrite !key_lt_ge. unfold key_ge.
  intros [H1|[H1 H1']] [H2|[H2 H2']]; try (left; lia).
  right. split; [lia|]. eapply str_ge_trans; eassumption.
Qed.

Lemma key_ge_antisym a b : key_lt a b = false → key_lt b a = false → a = b.
Proof.
  rewrite !key_lt_ge. unfold key_ge. destruct a as [a1 a2], b as [b1 b2]; simpl.
  intros [H1|[H1 H1']] [H2|[H2 H2']]; try lia.
  f_equal; [lia|]. apply str_ge_antisym; assumption.
Qed.

End Order.

(** ** Sorting *)

Section SortFacts.
Context {A : Type} (lt : A → A → bool).

Lemma insert_stable_perm x l : insert_stable lt x l ≡ₚ x :: l.
Proof.
  induction l as [|y l IH]; simpl; [reflexivity|].
  destruct (lt y x); [|reflexivity].
  rewrite IH. apply Permutation_swap.
Qed.

Lemma sort_stable_perm l : sort_stable lt l ≡ₚ l.
Proof.
  induction l as [|x l IH]; simpl; [reflexivity|].
  rewrite insert_stable_perm, IH. reflexivity.
Qed.

Lemma py_sorted_perm reverse l : py_sorted lt reverse l ≡ₚ l.
Proof.
  unfold py_sorted. destruct reverse.
  - rewrite <- Permutation_rev, sort_stable_perm, <- Permutation_rev. reflexivity.
  - apply sort_stable_perm.
Qed.

Hypothesis lt_asym : ∀ a b, lt a b = true → lt b a = false.
Hypothesis ge_trans : ∀ a b c, lt a b = false → lt b c = false → lt a c = false.

(** [a] is not above [b] *)
Let le (a b : A) : Prop := lt b a = false.

Lemma insert_stable_sorted x l :
  StronglySorted le l → StronglySorted le (insert_stable lt x l).
Proof.
  induction l as [|y l IH]; simpl; intros Hs.
  - repeat constructor.
  - apply StronglySorted_inv in Hs as [Hs Hy].
    destruct (lt y x) eqn:E.
    + constructor; [auto|].
      rewrite (insert_stable_perm x l). constructor; [|assumption].
      apply lt_asym. assumption.
    + constructor; [constructor; assumption|].
      constructor; [assumption|].
      eapply Forall_impl; [exact Hy|]. intros z Hz. unfold le in *.
      eapply ge_trans; eassumption.
Qed.

Lemma sort_stable_sorted l : StronglySorted le (sort_stable lt l).
Proof.
  induction l as [|x l IH]; simpl; [constructor|].
  apply insert_stable_sorted. assumption.
Qed.

Lemma StronglySorted_rev (R : relation A) l :
  StronglySorted R l → StronglySorted (flip R) (rev l).
Proof.
  induction 1 as [|x l Hs IH Hx]; simpl; [constructor|].
  apply StronglySorted_app_2; [| assumption | repeat constructor].
  intros a b Ha Hb. apply list_elem_of_singleton in Hb. subst b.
  apply list_elem_of_In in Ha. apply in_rev in Ha.
  rewrite List.Forall_forall in Hx. unfold flip. apply Hx. assumption.
Qed.

(** With [reverse=True] no element is below a later one. *)
Lemma py_sorted_reverse_sorted l :
  StronglySorted (λ a b, lt a b = false) (py_sorted lt true l).
Proof.
  unfold py_sorted. apply (StronglySorted_rev le). apply sort_stable_sorted.
Qed.
End SortFacts.

(** ** The written cabinet file *)

Section Written.
Variables (env : Env) (self : LeaseProcessor) (site cabinet : string).

Lemma update_cabinet_targets leases w :
  targets_of (_update_cabinet_inventory env self site cabinet leases w).2
             (inventory_file_name site cabinet)
  = sort_targets (build_targets (merged_map env self site cabinet leases w)).
Proof.
  unfold _update_cabinet_inventory, targets_of, merged_map, loaded_map. simpl.
  rewrite lookup_insert_eq. reflexivity.
Qed.

Lemma sort_targets_perm l : sort_targets l ≡ₚ l.
Proof. apply py_sorted_perm. Qed.

Lemma sort_targets_sorted l :
  StronglySorted (λ a b, key_ge (sort_key a) (sort_key b)) (sort_targets l).
Proof.
  pose proof (py_sorted_reverse_sorted target_lt
                (λ a b, key_lt_asym (sort_key a) (sort_key b))
                (λ a b c, key_ge_trans (sort_key a) (sort_key b) (sort_key c)) l) as H.
  unfold sort_targets. induction H as [|x l' Hs IH Hx]; constructor; [assumption|].
  eapply Forall_impl; [exact Hx|]. intros b Hb. apply key_lt_ge. exact Hb.
Qed.

Lemma int_digits_acc_nonneg s acc : 0 ≤ acc → 0 ≤ int_digits_acc acc s.
Proof.
  revert acc. induction s as [|c s IH]; intros acc Hacc; simpl; [assumption|].
  apply IH. unfold digit_val. lia.
Qed.

Lemma extract_rack_unit_nonneg h : 0 ≤ _extract_rack_unit h.
Proof.
  unfold _extract_rack_unit. destruct (negb (truthy h)); [lia|].
  destruct (Regex.search_ru (lower h)) as [[g1 g2]|]; [|lia].
  pose proof (int_digits_acc_nonneg g1 0 ltac:(lia)). unfold int_of_digits. lia.
Qed.
End Written.

(** C4. The target list written to a cabinet file is in descending order of
    the key (rack unit extracted from the hostname, ip): a target never has
    a smaller rack unit than a later one, and among equal rack units never a
    smaller ip (strings compared as Python does); a target without hostname
    has the key -1 and is followed only by targets without hostname.  The
    three targets ru3 / 10.0.0.1, ru9 / 10.0.0.2 and no hostname / 10.0.0.3
    sort as ru9, ru3, 10.0.0.3. *)
Theorem written_targets_sorted (env : Env) (self : LeaseProcessor)
    (site cabinet : string) (leases : list DHCPLease) (w : World) :
  let written := targets_of (_update_cabinet_inventory env self site cabinet leases w).2
                            (inventory_file_name site cabinet) in
  StronglySorted (λ a b, key_ge (sort_key a) (sort_key b)) written
  ∧ (∀ (i j : nat) (a b : BmcTarget),
       (i < j)%nat → written !! i = Some a → written !! j = Some b →
       (_extract_rack_unit (default "" (t_hostname b))
          ≤ _extract_rack_unit (default "" (t_hostname a))
        ∨ truthy_opt (t_hostname b) = false)
       ∧ (truthy_opt (t_hostname a) = false → truthy_opt (t_hostname b) = false))
  ∧ sort_targets [Scenario.ru3; Scenario.ru9; Scenario.unnamed]
    = [Scenario.ru9; Scenario.ru3; Scenario.unnamed].
Proof.
  cbv zeta. rewrite update_cabinet_targets.
  pose proof (sort_targets_sorted
                (build_targets (merged_map env self site cabinet leases w))) as Hs.
  split; [exact Hs|]. split; [|vm_compute; reflexivity].
  intros i j a b Hij Ha Hb.
  assert (key_ge (sort_key a) (sort_key b)) as Hge.
  { apply list_elem_of_split_length in Ha as (l1 & l2 & Hl & Hlen).
    rewrite Hl in Hs, Hb.
    apply StronglySorted_app_1_r in Hs. apply StronglySorted_inv in Hs as [_ Hall].
    rewrite lookup_app_r in Hb by lia.
    destruct (j - length l1)%nat as [|k] eqn:Ek; [lia|]. simpl in Hb.
    rewrite List.Forall_forall in Hall. apply Hall.
    apply list_elem_of_In. eapply list_elem_of_lookup_2. exact Hb. }
  pose proof (extract_rack_unit_nonneg (default "" (t_hostname a))) as Hna.
  pose proof (extract_rack_unit_nonneg (default "" (t_hostname b))) as Hnb.
  unfold key_ge, sort_key in Hge. simpl in Hge.
  destruct (truthy_opt (t_hostname a)), (truthy_opt (t_hostname b));
    split; auto; try (left; lia); intros _; lia.
Qed.

(** ** The merge step *)

Section Merge.
Variables (env : Env) (self : LeaseProcessor).

Lemma merge_lease_map s lease :
  existing_bmc_map (merge_lease env self s lease)
  = if dict_mem (existing_bmc_map s) (ip_address lease) then existing_bmc_map s
    else dict_set (existing_bmc_map s) (ip_address lease) (lease_details lease).
Proof.
  unfold merge_lease. destruct (dict_mem _ _); [reflexivity|].
  destruct (truthy_opt (hostname lease)); [|reflexivity].
  destruct (create_static_reservation _ _ _ _). reflexivity.
Qed.

(** What the map holds for an address is never overwritten. *)
Lemma merge_leases_keeps leases s ip d :
  dict_get (existing_bmc_map s) ip = Some d →
  dict_get (existing_bmc_map (merge_leases env self s leases)) ip = Some d.
Proof.
  revert s. induction leases as [|l leases IH]; intros s H; simpl; [assumption|].
  apply IH. rewrite merge_lease_map. unfold dict_mem.
  destruct (dict_get (existing_bmc_map s) (ip_address l)) eqn:E; [assumption|].
  rewrite dict_get_set_ne; [assumption|]. congruence.
Qed.

(** An address that was not in the map is bound by the first lease of the
    batch that carries it. *)
Lemma merge_leases_new leases s ip d :
  dict_get (existing_bmc_map s) ip = None →
  dict_get (existing_bmc_map (merge_leases env self s leases)) ip = Some d →
  ∃ pre lease post,
    leases = pre ++ lease :: post ∧ ip_address lease = ip
    ∧ d = lease_details lease ∧ (∀ l, l ∈ pre → ip_address l ≠ ip).
Proof.
  unfold merge_leases.
  revert s. induction leases as [|l leases IH]; intros s Hnone H; simpl in H.
  - congruence.
  - destruct (decide (ip_address l = ip)) as [Heq|Hne].
    + exists [], l, leases. split; [reflexivity|]. split; [assumption|].
      split; [|intros ? Hin; apply elem_of_nil in Hin; contradiction].
      assert (dict_get (existing_bmc_map (merge_lease env self s l)) ip
              = Some (lease_details l)) as Hl.
      { rewrite merge_lease_map. unfold dict_mem. rewrite Heq, Hnone.
        apply dict_get_set_eq. }
      apply (merge_leases_keeps leases) in Hl. unfold merge_leases in Hl. congruence.
    + destruct (IH (merge_lease env self s l)) as (pre & lease & post & -> & ? & ? & Hpre).
      * rewrite merge_lease_map. destruct (dict_mem _ _); [assumption|].
        rewrite dict_get_set_ne; assumption.
      * assumption.
      * exists (l :: pre), lease, post. repeat split; try assumption.
        intros l' Hin. apply elem_of_cons in Hin as [->|Hin]; auto.
Qed.

Lemma merge_leases_keys_NoDup leases s :
  NoDup (dict_keys (existing_bmc_map s)) →
  NoDup (dict_keys (existing_bmc_map (merge_leases env self s leases))).
Proof.
  revert s. induction leases as [|l leases IH]; intros s H; simpl; [assumption|].
  apply IH. rewrite merge_lease_map. destruct (dict_mem _ _); [assumption|].
  apply dict_set_keys_NoDup. assumption.
Qed.

Lemma build_targets_elem m t :
  t ∈ build_targets m ↔ ∃ ip d, (ip, d) ∈ m ∧ t = build_target ip d.
Proof.
  unfold build_targets. rewrite list_elem_of_fmap. split.
  - intros ([ip d] & -> & Hin). eauto.
  - intros (ip & d & Hin & ->). exists (ip, d). auto.
Qed.

Lemma dict_elem_get {V} (m : list (string * V)) ip d :
  NoDup (dict_keys m) → (ip, d) ∈ m → dict_get m ip = Some d.
Proof.
  unfold dict_keys. induction m as [|[k v] m IH]; simpl; intros Hnd Hin.
  - apply elem_of_nil in Hin. contradiction.
  - apply NoDup_cons in Hnd as [Hk Hnd].
    apply elem_of_cons in Hin as [[= -> ->]|Hin].
    + rewrite decide_True; reflexivity.
    + destruct (decide (k = ip)) as [->|Hne]; [|auto].
      exfalso. apply Hk. apply list_elem_of_fmap. exists (ip, d). auto.
Qed.
End Merge.

Section Loaded.
Variables (env : Env) (self : LeaseProcessor).

Lemma fold_dict_set_NoDup {X V} (k : X → string) (v : X → V) (l : list X) m :
  NoDup (dict_keys m) →
  NoDup (dict_keys (fold_left (λ m x, dict_set m (k x) (v x)) l m)).
Proof.
  revert m. induction l as [|x l IH]; intros m H; simpl; [assumption|].
  apply IH. apply dict_set_keys_NoDup. assumption.
Qed.

Lemma load_existing_NoDup file : NoDup (dict_keys (load_existing env self file)).
Proof.
  unfold load_existing.
  destruct file as [[| |inv]|]; try apply NoDup_nil_2.
  destruct (bmc_targets inv) as [targets|]; [|apply NoDup_nil_2].
  match goal with |- context [if ?b then _ else _] => destruct b end.
  - apply (fold_dict_set_NoDup t_ip details_of_target). apply NoDup_nil_2.
  - match goal with
    | |- context [_query_lease_details env self _ ?c] =>
        apply (fold_dict_set_NoDup id (λ ip, _query_lease_details env self ip c))
    end.
    apply NoDup_nil_2.
Qed.

Lemma merged_map_NoDup site cabinet leases w :
  NoDup (dict_keys (merged_map env self site cabinet leases w)).
Proof. apply merge_leases_keys_NoDup. apply load_existing_NoDup. Qed.

(** A written target is built from the entry of its address. *)
Lemma written_target site cabinet leases w t :
  t ∈ targets_of (_update_cabinet_inventory env self site cabinet leases w).2
                 (inventory_file_name site cabinet)
  ↔ ∃ d, dict_get (merged_map env self site cabinet leases w) (t_ip t) = Some d
         ∧ t = build_target (t_ip t) d.
Proof.
  rewrite update_cabinet_targets, sort_targets_perm, build_targets_elem. split.
  - intros (ip & d & Hin & ->). exists d. split; [|reflexivity].
    apply dict_elem_get; [apply merged_map_NoDup | exact Hin].
  - intros (d & Hget & Ht). exists (t_ip t), d. split; [|assumption].
    apply dict_get_elem. assumption.
Qed.
End Loaded.

(** C5. In a reconciliation pass, a lease whose ip is already in the loaded
    cabinet inventory changes nothing for that ip: the merged map keeps the
    loaded mac, hostname and manufacturer, and the target written for the ip
    is the one built from them.  A written target whose ip was not loaded
    comes from a lease of the batch with that ip. *)
Theorem merge_first_write_wins (env : Env) (self : LeaseProcessor)
    (site cabinet : string) (leases : list DHCPLease) (w : World) :
  let loaded := loaded_map env self site cabinet w in
  let merged := merged_map env self site cabinet leases w in
  let written := targets_of (_update_cabinet_inventory env self site cabinet leases w).2
                            (inventory_file_name site cabinet) in
  (∀ lease d,
      lease ∈ leases → dict_get loaded (ip_address lease) = Some d →
      dict_get merged (ip_address lease) = Some d
      ∧ build_target (ip_address lease) d ∈ written
      ∧ (∀ t, t ∈ written → t_ip t = ip_address lease →
              t = build_target (ip_address lease) d))
  ∧ (∀ t, t ∈ written → dict_get loaded (t_ip t) = None →
          ∃ lease, lease ∈ leases ∧ ip_address lease = t_ip t
                   ∧ t = build_target (t_ip t) (lease_details lease)).
Proof.
  cbv zeta. split.
  - intros lease d _ Hloaded.
    assert (dict_get (merged_map env self site cabinet leases w) (ip_address lease) = Some d)
      as Hm by (apply merge_leases_keeps; exact Hloaded).
    split; [exact Hm|]. split.
    + apply written_target. exists d. auto.
    + intros t Ht Hip. apply written_target in Ht as (d' & Hd' & ->).
      simpl in Hip. rewrite Hip in Hd'. simpl. congruence.
  - intros t Ht Hnone. apply written_target in Ht as (d & Hd & Ht).
    apply merge_leases_new in Hd as (pre & lease & post & -> & Hip & -> & _);
      [|exact Hnone].
    exists lease. split; [|auto].
    apply elem_of_app. right. left.
Qed.

Lemma merge_first_write_wins_witness :
  let w := Scenario.cab10_world [Scenario.ru5_as "HP"] in
  let d := {| d_mac := Some "aa:bb:cc:00:00:05"; d_hostname := "us3-cab10-ru5-idrac";
              d_manufacturer := "HP" |} in
  Scenario.lease_ru5 ∈ [Scenario.lease_ru5; Scenario.lease_ru7]
  ∧ dict_get (loaded_map Scenario.env_up Scenario.files_only "us3" "cab10" w)
             (ip_address Scenario.lease_ru5) = Some d
  ∧ build_target "10.0.0.5" d
      ∈ targets_of (_update_cabinet_inventory Scenario.env_up Scenario.files_only
                      "us3" "cab10" [Scenario.lease_ru5; Scenario.lease_ru7] w).2
                   (inventory_file_name "us3" "cab10").
Proof.
  cbv zeta.
  assert (Scenario.lease_ru5 ∈ [Scenario.lease_ru5; Scenario.lease_ru7]) as Hin by left.
  assert (dict_get (loaded_map Scenario.env_up Scenario.files_only "us3" "cab10"
                      (Scenario.cab10_world [Scenario.ru5_as "HP"]))
                   (ip_address Scenario.lease_ru5)
          = Some {| d_mac := Some "aa:bb:cc:00:00:05"; d_hostname := "us3-cab10-ru5-idrac";
                    d_manufacturer := "HP" |}) as Hget by (vm_compute; reflexivity).
  split; [exact Hin|]. split; [exact Hget|].
  exact (proj1 (proj2 (proj1 (merge_first_write_wins Scenario.env_up Scenario.files_only
                                "us3" "cab10" [Scenario.lease_ru5; Scenario.lease_ru7]
                                (Scenario.cab10_world [Scenario.ru5_as "HP"]))
                             Scenario.lease_ru5 _ Hin Hget))).
Defined.

(** ** Derived fields *)

Lemma detect_manufacturer_truthy h : truthy (_detect_manufacturer h) = true.
Proof.
  unfold _detect_manufacturer.
  repeat match goal with |- context [if ?b then _ else _] => destruct b end; reflexivity.
Qed.

Lemma build_target_rack_unit ip d :
  t_rack_unit (build_target ip d) = rack_unit_of_hostname (t_hostname (build_target ip d)).
Proof. simpl. destruct (truthy (d_hostname d)); reflexivity. Qed.

Lemma lease_target_manufacturer ip lease :
  t_manufacturer (build_target ip (lease_details lease))
  = manufacturer_of_hostname (t_hostname (build_target ip (lease_details lease))).
Proof.
  unfold manufacturer_of_hostname. simpl.
  destruct (hostname lease) as [h|]; simpl; [|reflexivity].
  destruct (truthy h) eqn:Hh; simpl; [|reflexivity].
  rewrite detect_manufacturer_truthy, Hh. reflexivity.
Qed.

(** C1 (as the code has it). For every target written by a reconciliation
    pass the rack-unit display is a function of the target's hostname alone.
    The manufacturer is a function of the hostname for the targets admitted in
    this pass; for a target whose ip was loaded from the existing file it is
    the manufacturer held in the loaded entry, whatever the hostname says. *)
Theorem derived_fields (env : Env) (self : LeaseProcessor)
    (site cabinet : string) (leases : list DHCPLease) (w : World) (t : BmcTarget) :
  t ∈ targets_of (_update_cabinet_inventory env self site cabinet leases w).2
                 (inventory_file_name site cabinet) →
  t_rack_unit t = rack_unit_of_hostname (t_hostname t)
  ∧ (dict_get (loaded_map env self site cabinet w) (t_ip t) = None →
     t_manufacturer t = manufacturer_of_hostname (t_hostname t))
  ∧ (∀ d, dict_get (loaded_map env self site cabinet w) (t_ip t) = Some d →
          t_manufacturer t = manufacturer_field d).
Proof.
  intros Ht. apply written_target in Ht as (d0 & Hd0 & Hbuild).
  split; [|split].
  - rewrite Hbuild. apply build_target_rack_unit.
  - intros Hnone.
    apply merge_leases_new in Hd0 as (pre & lease & post & _ & _ & -> & _); [|exact Hnone].
    rewrite Hbuild. apply lease_target_manufacturer.
  - intros d Hd.
    assert (dict_get (merged_map env self site cabinet leases w) (t_ip t) = Some d) as Hm
      by (apply merge_leases_keeps; exact Hd).
    rewrite Hbuild. simpl. replace d0 with d by congruence. reflexivity.
Qed.

Lemma derived_fields_witness :
  let w := Scenario.cab10_world [Scenario.ru5_as "HP"] in
  let written := targets_of (_update_cabinet_inventory Scenario.env_up Scenario.files_only
                               "us3" "cab10" [Scenario.lease_ru7] w).2
                            (inventory_file_name "us3" "cab10") in
  Scenario.ru5_as "HP" ∈ written
  ∧ t_rack_unit (Scenario.ru5_as "HP") = Some "RU 5"
  ∧ t_rack_unit (Scenario.ru5_as "HP")
    = rack_unit_of_hostname (t_hostname (Scenario.ru5_as "HP")).
Proof.
  cbv zeta.
  assert (Scenario.ru5_as "HP"
          ∈ targets_of (_update_cabinet_inventory Scenario.env_up Scenario.files_only
                          "us3" "cab10" [Scenario.lease_ru7]
                          (Scenario.cab10_world [Scenario.ru5_as "HP"])).2
                       (inventory_file_name "us3" "cab10")) as Hin
    by (vm_compute; right; left).
  split; [exact Hin|]. split; [reflexivity|].
  exact (proj1 (derived_fields _ _ _ _ _ _ _ Hin)).
Defined.

(** C1 as the specification states it fails: the same hostname is written with the
    manufacturer HP or Dell, according to what the existing file held. *)
Lemma manufacturer_follows_persisted_value : ¬ derived_from_hostname_alone.
Proof.
  intros (ru & mf & H).
  assert (Scenario.ru5_as "HP"
          ∈ targets_of (_update_cabinet_inventory Scenario.env_up Scenario.files_only
                          "us3" "cab10" [Scenario.lease_ru7]
                          (Scenario.cab10_world [Scenario.ru5_as "HP"])).2
                       (inventory_file_name "us3" "cab10")) as Hhp
    by (vm_compute; right; left).
  assert (Scenario.ru5_as "Dell"
          ∈ targets_of (_update_cabinet_inventory Scenario.env_up Scenario.files_only
                          "us3" "cab10" [Scenario.lease_ru7]
                          (Scenario.cab10_world [Scenario.ru5_as "Dell"])).2
                       (inventory_file_name "us3" "cab10")) as Hdell
    by (vm_compute; right; left).
  apply H in Hhp as [_ Hhp]. apply H in Hdell as [_ Hdell].
  simpl in Hhp, Hdell. congruence.
Qed.

(** ** Conflict detection *)

Section Conflicts.

Lemma dict_append_get {K V} `{EqDecision K} (d : list (K * list V)) k x k' :
  default [] (dict_get (dict_append d k x) k')
  = default [] (dict_get d k') ++ (if decide (k = k') then [x] else []).
Proof.
  unfold dict_append. destruct (decide (k = k')) as [<-|Hne].
  - destruct (dict_get d k) as [l|] eqn:E; rewrite dict_get_set_eq; reflexivity.
  - destruct (dict_get d k) as [l|] eqn:E; rewrite dict_get_set_ne by assumption;
      rewrite app_nil_r; reflexivity.
Qed.

Lemma dict_append_keys_NoDup {K V} `{EqDecision K} (d : list (K * list V)) k x :
  NoDup (dict_keys d) → NoDup (dict_keys (dict_append d k x)).
Proof. unfold dict_append. destruct (dict_get d k); apply dict_set_keys_NoDup. Qed.

Lemma mac_to_ips_fold targets acc m :
  default [] (dict_get
     (fold_left (λ acc target,
          let mac := default "" (t_mac target) in
          if truthy mac then dict_append acc mac (t_ip target) else acc) targets acc) m)
  = default [] (dict_get acc m) ++ map t_ip (List.filter (has_mac m) targets).
Proof.
  revert acc. induction targets as [|t targets IH]; intros acc; simpl.
  - rewrite app_nil_r. reflexivity.
  - rewrite IH. unfold has_mac at 2.
    destruct (truthy (default "" (t_mac t))) eqn:Ht; simpl; [|reflexivity].
    rewrite dict_append_get.
    destruct (decide (default "" (t_mac t) = m)) as [->|Hne].
    + rewrite String.eqb_refl. simpl. rewrite <- app_assoc. reflexivity.
    + apply String.eqb_neq in Hne. rewrite Hne, app_nil_r. reflexivity.
Qed.

Lemma mac_to_ips_NoDup targets : NoDup (dict_keys (mac_to_ips_of targets)).
Proof.
  unfold mac_to_ips_of.
  assert (∀ acc : list (string * list string), NoDup (dict_keys acc) →
            NoDup (dict_keys (fold_left (λ acc target,
                let mac := default "" (t_mac target) in
                if truthy mac then dict_append acc mac (t_ip target) else acc)
              targets acc))) as H.
  { induction targets as [|t targets IH]; intros acc Hacc; simpl; [assumption|].
    apply IH. destruct (truthy _); [apply dict_append_keys_NoDup|]; assumption. }
  apply H. apply NoDup_nil_2.
Qed.

Lemma mac_to_ips_get targets m :
  default [] (dict_get (mac_to_ips_of targets) m)
  = map t_ip (List.filter (has_mac m) targets).
Proof. unfold mac_to_ips_of. rewrite mac_to_ips_fold. reflexivity. Qed.

Lemma mac_warnings_absent site cabinet (d : list (string * list string)) m :
  m ∉ dict_keys d → mac_warnings_for m (omap (mac_warning site cabinet) d) = [].
Proof.
  unfold dict_keys. induction d as [|[k ips] d IH]; simpl; intros Hm; [reflexivity|].
  apply not_elem_of_cons in Hm as [Hne Hm].
  destruct (more_than_one ips); simpl; [|auto].
  apply not_eq_sym, String.eqb_neq in Hne. rewrite Hne. auto.
Qed.

Lemma mac_warnings_present site cabinet (d : list (string * list string)) m ips :
  NoDup (dict_keys d) → dict_get d m = Some ips → more_than_one ips = true →
  mac_warnings_for m (omap (mac_warning site cabinet) d)
  = [MacConflict (upper site) (upper cabinet) m (py_sorted str_lt false ips)].
Proof.
  unfold dict_keys. induction d as [|[k v] d IH]; simpl; intros Hnd Hget Hmore;
    [discriminate|].
  apply NoDup_cons in Hnd as [Hk Hnd].
  destruct (decide (k = m)) as [->|Hne].
  - injection Hget as ->. rewrite Hmore. simpl. rewrite String.eqb_refl.
    f_equal. apply mac_warnings_absent. exact Hk.
  - destruct (more_than_one v); simpl; [|auto].
    apply String.eqb_neq in Hne. rewrite Hne. auto.
Qed.

Lemma mac_warnings_of_validate targets site cabinet m :
  mac_warnings_for m (_validate_bmc_conflicts targets site cabinet)
  = mac_warnings_for m (mac_conflicts site cabinet targets).
Proof.
  unfold _validate_bmc_conflicts, mac_warnings_for.
  assert (∀ l, Forall (λ r, is_mac_warning_for m r = false) l →
               List.filter (is_mac_warning_for m) l = []) as Hnone.
  { induction 1 as [|r l Hr _ IH]; simpl; [reflexivity|]. rewrite Hr. assumption. }
  assert (List.filter (is_mac_warning_for m) (hostname_conflicts site cabinet targets) = [])
    as Hh.
  { apply Hnone. unfold hostname_conflicts. apply List.Forall_forall. intros r Hr.
    apply list_elem_of_In, list_elem_of_omap in Hr as ([h ips] & _ & Hr).
    destruct (more_than_one ips); [|discriminate]. injection Hr as <-. reflexivity. }
  assert (List.filter (is_mac_warning_for m) (rack_unit_conflicts site cabinet targets) = [])
    as Hr.
  { apply Hnone. unfold rack_unit_conflicts. apply List.Forall_forall. intros r Hr.
    apply list_elem_of_In, list_elem_of_omap in Hr as ([ru devs] & _ & Hr).
    destruct (more_than_one devs); [|discriminate]. injection Hr as <-. reflexivity. }
  destruct (mac_conflicts site cabinet targets ++ hostname_conflicts site cabinet targets
            ++ rack_unit_conflicts site cabinet targets) as [|r0 rest] eqn:E.
  - apply app_eq_nil in E as [-> _]. reflexivity.
  - rewrite <- E. rewrite !List.filter_app, Hh, Hr. simpl. rewrite !app_nil_r. reflexivity.
Qed.

Lemma two_distinct_members {X} (x y : X) l : x ∈ l → y ∈ l → x ≠ y → more_than_one l = true.
Proof.
  intros Hx Hy Hne. unfold more_than_one. apply Nat.ltb_lt.
  destruct l as [|a [|b l]]; simpl; [| |lia].
  - apply elem_of_nil in Hx. contradiction.
  - apply list_elem_of_singleton in Hx, Hy. congruence.
Qed.

(** One warning for a mac held by two targets with different addresses. *)
Lemma validate_mac_conflict targets site cabinet t1 t2 m :
  t1 ∈ targets → t2 ∈ targets →
  t_mac t1 = Some m → t_mac t2 = Some m → m ≠ "" → t_ip t1 ≠ t_ip t2 →
  ∃ ips,
    mac_warnings_for m (_validate_bmc_conflicts targets site cabinet)
    = [MacConflict (upper site) (upper cabinet) m ips]
    ∧ t_ip t1 ∈ ips ∧ t_ip t2 ∈ ips.
Proof.
  intros H1 H2 Hm1 Hm2 Hm Hip.
  set (ips := map t_ip (List.filter (has_mac m) targets)).
  assert (∀ t, t ∈ targets → t_mac t = Some m → t_ip t ∈ ips) as Hmem.
  { intros t Ht Hmac. unfold ips. apply list_elem_of_fmap. exists t. split; [reflexivity|].
    apply list_elem_of_In, List.filter_In. split; [apply list_elem_of_In; assumption|].
    unfold has_mac. rewrite Hmac. simpl. rewrite String.eqb_refl.
    destruct m; [congruence | reflexivity]. }
  assert (more_than_one ips = true) as Hmore
    by (eapply two_distinct_members; [apply (Hmem t1) | apply (Hmem t2) | ]; assumption).
  pose proof (mac_to_ips_get targets m) as Hget. fold ips in Hget.
  destruct (dict_get (mac_to_ips_of targets) m) as [ips'|] eqn:E; simpl in Hget.
  - subst ips'. exists (py_sorted str_lt false ips).
    rewrite mac_warnings_of_validate. unfold mac_conflicts.
    split; [|split].
    + apply (mac_warnings_present site cabinet _ _ _ (mac_to_ips_NoDup targets) E Hmore).
    + rewrite py_sorted_perm. apply Hmem; assumption.
    + rewrite py_sorted_perm. apply Hmem; assumption.
  - rewrite <- Hget in Hmore. discriminate.
Qed.

End Conflicts.

(** C8. Two targets of one cabinet with the same non-empty mac and different
    ips give exactly one mac-conflict warning for that mac in the pass, and
    the warning lists both ips.  The file is written whatever was reported:
    it holds the targets the check was run on, the two in conflict
    included. *)
Theorem mac_conflict_reported (env : Env) (self : LeaseProcessor)
    (site cabinet : string) (leases : list DHCPLease) (w : World)
    (t1 t2 : BmcTarget) (m : string) :
  let r := _update_cabinet_inventory env self site cabinet leases w in
  let checked := build_targets (merged_map env self site cabinet leases w) in
  t1 ∈ checked → t2 ∈ checked →
  t_mac t1 = Some m → t_mac t2 = Some m → m ≠ "" → t_ip t1 ≠ t_ip t2 →
  ∃ ips,
    log r.2 = log w ++ _validate_bmc_conflicts checked site cabinet
    ∧ mac_warnings_for m (_validate_bmc_conflicts checked site cabinet)
      = [MacConflict (upper site) (upper cabinet) m ips]
    ∧ t_ip t1 ∈ ips ∧ t_ip t2 ∈ ips
    ∧ targets_of r.2 (inventory_file_name site cabinet) ≡ₚ checked
    ∧ t1 ∈ targets_of r.2 (inventory_file_name site cabinet)
    ∧ t2 ∈ targets_of r.2 (inventory_file_name site cabinet).
Proof.
  cbv zeta. intros H1 H2 Hm1 Hm2 Hm Hip.
  destruct (validate_mac_conflict _ site cabinet t1 t2 m H1 H2 Hm1 Hm2 Hm Hip)
    as (ips & Hw & Hi1 & Hi2).
  exists ips. rewrite update_cabinet_targets, sort_targets_perm.
  repeat split; try assumption. reflexivity.
Qed.

(** ** Reservation and DNS as one transaction *)

Section Reservation.
Variables (env : Env) (self : LeaseProcessor).

Lemma create_dns_record_failed h ip dns :
  (create_dns_record env self h ip dns).1 = false →
  create_dns_record env self h ip dns = (false, dns).
Proof.
  unfold create_dns_record.
  destruct (negb (enable_dns self)); [discriminate|].
  destruct (negb (truthy_opt (dns_zone self))); [discriminate|].
  destruct (negb (dns_modules self)); [discriminate|].
  destruct (sds_create_ok env _ ip); simpl; [discriminate | reflexivity].
Qed.

(** A failed promotion leaves the rows of the store as they were. *)
Lemma failed_reservation_keeps_hosts lease st :
  (create_static_reservation env self lease st).1 = false →
  hosts (create_static_reservation env self lease st).2 = hosts st.
Proof.
  unfold create_static_reservation.
  destruct (negb (db_enabled self)); [reflexivity|].
  destruct (negb (truthy_opt (hostname lease))); [reflexivity|].
  unfold reservation_body.
  destruct (mac_address lease) as [m|]; simpl; [|reflexivity].
  destruct (db_connect_ok env); simpl; [|reflexivity].
  destruct (db_statement_ok env _ _ _ _); simpl; [|reflexivity].
  destruct (upsert _ _ _ _ _ _) as [rows [hid inserted]].
  destruct (enable_dns self); simpl; [|discriminate].
  destruct (create_dns_record env self _ _ _) as [ok dns].
  destruct ok; simpl; [discriminate | reflexivity].
Qed.
End Reservation.

(** C2. When the store accepts the upsert and the DNS record cannot be
    created while DNS is enabled, [create_static_reservation] rolls the
    transaction back and returns false; the reservation store and the DNS
    records are what they were before the call. *)
Theorem dns_failure_rolls_back (env : Env) (self : LeaseProcessor)
    (lease : DHCPLease) (st : Store) (m h : string) :
  db_enabled self = true →
  hostname lease = Some h → truthy h = true →
  mac_address lease = Some m →
  db_connect_ok env = true →
  db_statement_ok env (upper (remove_char ":" m)) (reservation_subnet_id self)
                  (ip_address lease) h = true →
  enable_dns self = true →
  (create_dns_record env self h (ip_address lease) (dns_records st)).1 = false →
  create_static_reservation env self lease st = (false, st)
  ∧ hosts (create_static_reservation env self lease st).2 = hosts st.
Proof.
  intros Hdb Hh Ht Hm Hconn Hstmt Hdns Hfail.
  assert (create_static_reservation env self lease st = (false, st)) as E.
  { unfold create_static_reservation, reservation_body.
    rewrite Hdb, Hh, Hm. simpl. rewrite Ht. simpl. rewrite Hconn. simpl.
    rewrite Hstmt.
    destruct (upsert _ _ _ _ _ _) as [rows [hid inserted]].
    rewrite Hdns. rewrite (create_dns_record_failed env self _ _ _ Hfail). simpl.
    destruct st; reflexivity. }
  rewrite E. split; reflexivity.
Qed.

(** C10. A lease with a hostname and no mac address makes the body of
    [create_static_reservation] raise [AttributeError] before the store is
    contacted (when the store is enabled); the handler turns it into the
    result false, and the store is left as it was. *)
Theorem reservation_without_mac (env : Env) (self : LeaseProcessor)
    (lease : DHCPLease) (st : Store) :
  mac_address lease = None →
  truthy_opt (hostname lease) = true →
  reservation_body env self lease st = raise AttributeError
  ∧ create_static_reservation env self lease st = (false, st).
Proof.
  intros Hmac Hh. unfold create_static_reservation, reservation_body.
  rewrite Hmac, Hh. simpl. split; [reflexivity|].
  destruct (negb (db_enabled self)); reflexivity.
Qed.

Lemma dns_failure_rolls_back_witness :
  create_static_reservation Scenario.env_dns_down Scenario.with_dns
    Scenario.lease_ru7 Scenario.no_store = (false, Scenario.no_store)
  ∧ (create_static_reservation Scenario.env_up Scenario.with_dns
       Scenario.lease_ru7 Scenario.no_store).1 = true.
Proof.
  split; [|vm_compute; reflexivity].
  apply (proj1 (dns_failure_rolls_back Scenario.env_dns_down Scenario.with_dns
                  Scenario.lease_ru7 Scenario.no_store
                  "aa:bb:cc:00:00:07" "us3-cab10-ru7-ilo"
                  eq_refl eq_refl eq_refl eq_refl eq_refl eq_refl eq_refl eq_refl)).
Defined.

Lemma reservation_without_mac_witness :
  lease_of_notification Scenario.listener 1700000000 Scenario.notification_no_mac
    = Some Scenario.lease_no_mac
  ∧ create_static_reservation Scenario.env_up Scenario.with_dns
      Scenario.lease_no_mac Scenario.no_store = (false, Scenario.no_store).
Proof.
  split; [vm_compute; reflexivity|].
  apply (proj2 (reservation_without_mac Scenario.env_up Scenario.with_dns
                  Scenario.lease_no_mac Scenario.no_store eq_refl eq_refl)).
Defined.

Lemma convention_filter_witness :
  ¬ site_cabinet_convention (lower (or_empty (hostname Scenario.lease_nohyphen)))
  ∧ generate_batch_inventory Scenario.env_up Scenario.with_dns
      [Scenario.lease_ru7; Scenario.lease_nohyphen] Scenario.empty_world
    = generate_batch_inventory Scenario.env_up Scenario.with_dns
        [Scenario.lease_ru7] Scenario.empty_world.
Proof.
  assert (¬ site_cabinet_convention (lower (or_empty (hostname Scenario.lease_nohyphen))))
    as H by (apply match_site_cabinet_None; vm_compute; reflexivity).
  split; [exact H|].
  exact (proj1 (convention_filter Scenario.env_up Scenario.with_dns
                  [Scenario.lease_ru7] [] Scenario.lease_nohyphen Scenario.empty_world H)).
Defined.

Lemma written_targets_sorted_witness :
  let written :=
    targets_of (_update_cabinet_inventory Scenario.env_up Scenario.files_only "us3" "cab10"
                  [Scenario.lease_ru7]
                  (Scenario.cab10_world [Scenario.ru3; Scenario.unnamed; Scenario.ru9])).2
               (inventory_file_name "us3" "cab10") in
  let ru7 := build_target "10.0.0.7" (lease_details Scenario.lease_ru7) in
  (1 < 3)%nat
  ∧ written = [Scenario.ru9; ru7; Scenario.ru3; Scenario.unnamed]
  ∧ (_extract_rack_unit (default "" (t_hostname Scenario.unnamed))
       ≤ _extract_rack_unit (default "" (t_hostname ru7))
     ∨ truthy_opt (t_hostname Scenario.unnamed) = false).
Proof.
  cbv zeta.
  assert ((1 < 3)%nat) as Hlt by lia.
  split; [exact Hlt|]. split; [vm_compute; reflexivity|].
  exact (proj1 (proj1 (proj2 (written_targets_sorted Scenario.env_up Scenario.files_only
                                "us3" "cab10" [Scenario.lease_ru7]
                                (Scenario.cab10_world
                                   [Scenario.ru3; Scenario.unnamed; Scenario.ru9])))
                  1%nat 3%nat _ Scenario.unnamed Hlt
                  ltac:(vm_compute; reflexivity) ltac:(vm_compute; reflexivity))).
Defined.

Lemma mac_conflict_reported_witness :
  let w := Scenario.cab10_world [Scenario.ru5_as "Dell"] in
  let r := _update_cabinet_inventory Scenario.env_up Scenario.files_only "us3" "cab10"
             [Scenario.lease_same_mac] w in
  ∃ ips,
    mac_warnings_for "aa:bb:cc:00:00:05" (log r.2)
    = [MacConflict "US3" "CAB10" "aa:bb:cc:00:00:05" ips]
    ∧ "10.0.0.5" ∈ ips ∧ "10.0.0.7" ∈ ips
    ∧ Scenario.ru5_as "Dell" ∈ targets_of r.2 (inventory_file_name "us3" "cab10")
    ∧ Scenario.ru7_same_mac ∈ targets_of r.2 (inventory_file_name "us3" "cab10").
Proof.
  cbv zeta.
  destruct (mac_conflict_reported Scenario.env_up Scenario.files_only "us3" "cab10"
              [Scenario.lease_same_mac] (Scenario.cab10_world [Scenario.ru5_as "Dell"])
              (Scenario.ru5_as "Dell") Scenario.ru7_same_mac "aa:bb:cc:00:00:05"
              ltac:(vm_compute; left) ltac:(vm_compute; right; left)
              eq_refl eq_refl ltac:(discriminate) ltac:(discriminate))
    as (ips & Hlog & Hw & H5 & H7 & _ & Ht5 & Ht7).
  exists ips. rewrite Hlog. simpl (log _). rewrite app_nil_l.
  split; [exact Hw|]. auto.
Defined.

(** ** Poll-based source and the modification time *)

(** After a call that saw the log, the source remembers its time stamp. *)
Lemma get_new_leases_remembers_mtime (f : LeaseLog) (self : FileLeaseSource) :
  last_mtime (source_after (get_new_leases (Some f) self)) = Some (st_mtime f).
Proof.
  unfold get_new_leases.
  destruct (truthy_mtime (last_mtime self)
            && bool_decide (Some (st_mtime f) = last_mtime self)) eqn:E.
  - apply andb_true_iff in E as [_ E]. apply bool_decide_eq_true in E. simpl. congruence.
  - destruct (csv_rows f); reflexivity.
Qed.

(** X1. With a time stamp other than 0, the second of two calls of
    [get_new_leases] that see the same time stamp returns an empty batch,
    does not open the log and leaves the source as it was. *)
Lemma poll_skips_unchanged_log (f1 f2 : LeaseLog) (self : FileLeaseSource) :
  st_mtime f1 ≠ 0 → st_mtime f2 = st_mtime f1 →
  let r1 := get_new_leases (Some f1) self in
  let r2 := get_new_leases (Some f2) (source_after r1) in
  batch r2 = [] ∧ log_opened r2 = false ∧ source_after r2 = source_after r1.
Proof.
  intros Hnz Heq. cbv zeta.
  pose proof (get_new_leases_remembers_mtime f1 self) as Hlast.
  unfold get_new_leases at 1 3 5. rewrite Hlast, Heq. simpl.
  apply Z.eqb_neq in Hnz. rewrite Hnz. simpl.
  rewrite bool_decide_eq_true_2 by reflexivity. auto.
Qed.

Lemma poll_skips_unchanged_log_witness :
  let r1 := get_new_leases (Some Scenario.log_at_noon) Scenario.fresh_source in
  let r2 := get_new_leases (Some Scenario.log_at_noon) (source_after r1) in
  batch r1 = [Scenario.lease_no_hwaddr]
  ∧ batch r2 = [] ∧ log_opened r2 = false ∧ source_after r2 = source_after r1.
Proof.
  cbv zeta. split; [vm_compute; reflexivity|].
  refine (poll_skips_unchanged_log Scenario.log_at_noon Scenario.log_at_noon
            Scenario.fresh_source _ eq_refl).
  vm_compute. discriminate.
Defined.

(** C9 (the code at a log stamped with the epoch). The stored time stamp 0
    is falsy, so the test for an unchanged log is skipped: the second call
    opens the log again and returns the same lease once more. *)
Theorem poll_rereads_log_stamped_epoch :
  let r1 := get_new_leases (Some Scenario.log_at_epoch) Scenario.fresh_source in
  let r2 := get_new_leases (Some Scenario.log_at_epoch) (source_after r1) in
  last_mtime (source_after r1) = Some (st_mtime Scenario.log_at_epoch)
  ∧ log_opened r2 = true
  ∧ batch r2 = [Scenario.lease_no_hwaddr]
  ∧ batch r2 = batch r1.
Proof. vm_compute. repeat split; reflexivity. Qed.

(** ** Running the reconciliation twice *)

(** C3 (the code on a lease without hardware address). The first pass
    writes the target without a [mac] key; the second pass takes the file for
    the older shape, rebuilds the entry from the lease database (not
    configured here) and writes the target without hostname, rack unit and
    manufacturer: the two inventories differ.  The same happens for the lease
    of a notification without hardware identifier. *)
Theorem reconcile_twice_loses_fields :
  let reconcile lease := generate_batch_inventory Scenario.env_up Scenario.files_only [lease] in
  let w1 := (reconcile Scenario.lease_no_hwaddr Scenario.empty_world).2 in
  let w2 := (reconcile Scenario.lease_no_hwaddr w1).2 in
  let v1 := (reconcile Scenario.lease_no_mac Scenario.empty_world).2 in
  let v2 := (reconcile Scenario.lease_no_mac v1).2 in
  targets_of w1 "us3-cab10-discovery.yml"
    = [Scenario.target "10.0.0.1" None (Some "us3-cab10-ru5-idrac") (Some "RU 5") (Some "Dell")]
  ∧ targets_of w2 "us3-cab10-discovery.yml"
    = [Scenario.target "10.0.0.1" None None None None]
  ∧ files w2 ≠ files w1
  ∧ targets_of v1 "us3-cab10-discovery.yml" = targets_of w1 "us3-cab10-discovery.yml"
  ∧ targets_of v2 "us3-cab10-discovery.yml" = targets_of w2 "us3-cab10-discovery.yml".
Proof.
  cbv zeta. split; [vm_compute; reflexivity|]. split; [vm_compute; reflexivity|].
  split; [|split; vm_compute; reflexivity].
  intros H.
  assert (targets_of
            (generate_batch_inventory Scenario.env_up Scenario.files_only
               [Scenario.lease_no_hwaddr]
               (generate_batch_inventory Scenario.env_up Scenario.files_only
                  [Scenario.lease_no_hwaddr] Scenario.empty_world).2).2
            "us3-cab10-discovery.yml"
          = targets_of
              (generate_batch_inventory Scenario.env_up Scenario.files_only
                 [Scenario.lease_no_hwaddr] Scenario.empty_world).2
              "us3-cab10-discovery.yml") as E
    by (unfold targets_of; rewrite H; reflexivity).
  vm_compute in E. discriminate E.
Qed.

(** When the second pass recognises the file of the first, it changes
    nothing. *)

Section SecondPass.
Variables (env : Env) (self : LeaseProcessor) (site cabinet : string).

Lemma fold_dict_set_fresh {X V} (k : X → string) (v : X → V) (l : list X) acc :
  NoDup (dict_keys acc ++ map k l) →
  fold_left (λ m x, dict_set m (k x) (v x)) l acc = acc ++ map (λ x, (k x, v x)) l.
Proof.
  revert acc. induction l as [|x l IH]; intros acc Hnd; simpl.
  - rewrite app_nil_r. reflexivity.
  - simpl in Hnd. rewrite dict_set_fresh.
    + rewrite IH.
      * rewrite <- app_assoc. reflexivity.
      * unfold dict_keys in *. rewrite map_app, <- app_assoc. exact Hnd.
    + apply dict_get_None. apply NoDup_app in Hnd as (_ & Hdisj & _).
      intros Hin. apply (Hdisj _ Hin). left.
Qed.

Lemma build_targets_ips m : map t_ip (build_targets m) = dict_keys m.
Proof.
  unfold build_targets, dict_keys. rewrite map_map.
  apply map_ext. intros [ip d]. reflexivity.
Qed.

Lemma rebuild_target ip d :
  build_target (t_ip (build_target ip d)) (details_of_target (build_target ip d))
  = build_target ip d.
Proof.
  destruct d as [[mac|] h mf]; unfold build_target, details_of_target; simpl;
    try destruct (truthy mac) eqn:Hm; simpl; try rewrite Hm;
    destruct (truthy h) eqn:Hh; simpl; try rewrite Hh;
    destruct (truthy mf) eqn:Hf; simpl; try rewrite Hf; reflexivity.
Qed.

Lemma merge_leases_all_known s leases :
  (∀ l, l ∈ leases → dict_mem (existing_bmc_map s) (ip_address l) = true) →
  merge_leases env self s leases = s.
Proof.
  unfold merge_leases. induction leases as [|l leases IH]; intros H; simpl; [reflexivity|].
  assert (merge_lease env self s l = s) as ->.
  { unfold merge_lease. rewrite (H l); [reflexivity | left]. }
  apply IH. intros l' Hl'. apply H. right. assumption.
Qed.

Lemma merge_leases_covers leases s l :
  l ∈ leases →
  dict_mem (existing_bmc_map (merge_leases env self s leases)) (ip_address l) = true.
Proof.
  unfold merge_leases. revert s. induction leases as [|a leases IH]; intros s Hl; simpl.
  - apply elem_of_nil in Hl. contradiction.
  - apply elem_of_cons in Hl as [->|Hl]; [|apply IH; assumption].
    assert (∃ d, dict_get (existing_bmc_map (merge_lease env self s a)) (ip_address a) = Some d)
      as [d Hd].
    { rewrite merge_lease_map. unfold dict_mem.
      destruct (dict_get (existing_bmc_map s) (ip_address a)) as [d|] eqn:E.
      - exists d. assumption.
      - exists (lease_details a). apply dict_get_set_eq. }
    apply (merge_leases_keeps env self leases) in Hd. unfold merge_leases in Hd.
    unfold dict_mem. rewrite Hd. reflexivity.
Qed.

Lemma update_cabinet_file leases w :
  files (_update_cabinet_inventory env self site cabinet leases w).2
    !! inventory_file_name site cabinet
  = Some (YamlDoc (written_inventory env site cabinet
            (sort_targets (build_targets (merged_map env self site cabinet leases w))))).
Proof.
  unfold _update_cabinet_inventory, merged_map, loaded_map. simpl.
  rewrite lookup_insert_eq. reflexivity.
Qed.

Lemma load_existing_current_shape inv t ts m :
  bmc_targets inv = Some (t :: ts) → t_mac t = Some m →
  load_existing env self (Some (YamlDoc inv))
  = fold_left (λ acc target, dict_set acc (t_ip target) (details_of_target target))
              (t :: ts) [].
Proof. intros Hb Hm. unfold load_existing. rewrite Hb, Hm. reflexivity. Qed.

Lemma sorted_targets_fixed l :
  NoDup (map t_ip l) →
  StronglySorted (λ a b, key_ge (sort_key a) (sort_key b)) l →
  sort_targets l = l.
Proof.
  intros Hnd Hs.
  apply (StronglySorted_unique_strong (λ a b, key_ge (sort_key a) (sort_key b)));
    [| apply sort_targets_sorted | assumption | apply sort_targets_perm].
  intros x1 x2 H1 H2 H12 H21.
  rewrite sort_targets_perm in H1.
  apply key_lt_ge in H12, H21.
  pose proof (key_ge_antisym _ _ H12 H21) as Hk.
  assert (t_ip x1 = t_ip x2) as Hip by (unfold sort_key in Hk; congruence).
  apply list_elem_of_lookup in H1 as [i Hi], H2 as [j Hj].
  assert (i = j) as ->.
  { eapply NoDup_lookup; [exact Hnd | |]; rewrite list_lookup_fmap.
    - rewrite Hi. reflexivity.
    - rewrite Hj. simpl. congruence. }
  congruence.
Qed.

(** X2. A second pass of [_update_cabinet_inventory] over the same leases,
    when the loader takes the written file for the current shape (its first
    target carries a mac), writes the same file, leaves the store alone and
    promotes nothing (the clock reading for [updated_at] being the same). *)
Lemma second_pass_changes_nothing (leases : list DHCPLease) (w : World) :
  let name := inventory_file_name site cabinet in
  let w1 := (_update_cabinet_inventory env self site cabinet leases w).2 in
  let w2 := (_update_cabinet_inventory env self site cabinet leases w1).2 in
  (∃ t ts m, targets_of w1 name = t :: ts ∧ t_mac t = Some m) →
  files w2 = files w1 ∧ store w2 = store w1
  ∧ reservation_calls w2 = reservation_calls w1.
Proof.
  cbv zeta. intros (t0 & ts & m0 & Hhead & Hmac).
  rewrite update_cabinet_targets in Hhead.
  set (T := sort_targets (build_targets (merged_map env self site cabinet leases w))) in *.
  assert (T ≡ₚ build_targets (merged_map env self site cabinet leases w)) as Hperm
    by apply sort_targets_perm.
  assert (NoDup (map t_ip T)) as Hnd.
  { rewrite Hperm, build_targets_ips. apply merged_map_NoDup. }
  set (w1 := (_update_cabinet_inventory env self site cabinet leases w).2).
  assert (loaded_map env self site cabinet w1
          = map (λ t, (t_ip t, details_of_target t)) T) as Hload.
  { unfold loaded_map, w1. rewrite update_cabinet_file. fold T.
    rewrite (load_existing_current_shape _ t0 ts m0); [|rewrite <- Hhead; reflexivity|exact Hmac].
    rewrite <- Hhead.
    apply (fold_dict_set_fresh t_ip details_of_target T []). exact Hnd. }
  assert (∀ l, l ∈ leases →
               dict_mem (loaded_map env self site cabinet w1) (ip_address l) = true) as Hknown.
  { intros l Hl.
    pose proof (merge_leases_covers leases
                  {| existing_bmc_map := loaded_map env self site cabinet w;
                     new_lease_count := 0; new_hostnames := [];
                     m_store := store w; m_calls := reservation_calls w |} l Hl) as Hc.
    fold (merged_map env self site cabinet leases w) in Hc.
    unfold dict_mem in *.
    destruct (dict_get (merged_map env self site cabinet leases w) (ip_address l))
      as [d|] eqn:E; [|discriminate].
    destruct (dict_get (loaded_map env self site cabinet w1) (ip_address l)) eqn:E';
      [reflexivity|].
    exfalso. apply dict_get_None in E'. apply E'.
    rewrite Hload. unfold dict_keys. rewrite map_map. simpl.
    rewrite Hperm, build_targets_ips.
    apply dict_get_elem in E. apply list_elem_of_fmap. exists (ip_address l, d). auto. }
  unfold _update_cabinet_inventory. cbv zeta.
  fold (loaded_map env self site cabinet w1).
  rewrite (merge_leases_all_known
             {| existing_bmc_map := loaded_map env self site cabinet w1;
                new_lease_count := 0; new_hostnames := [];
                m_store := store w1; m_calls := reservation_calls w1 |}
             leases Hknown).
  simpl.
  split; [|split; reflexivity].
  rewrite Hload.
  assert (build_targets (map (λ t, (t_ip t, details_of_target t)) T) = T) as Hbuild.
  { unfold build_targets. rewrite map_map. simpl.
    rewrite <- (map_id T) at 2. apply map_ext_in. intros t Ht.
    apply list_elem_of_In in Ht. rewrite Hperm in Ht.
    apply build_targets_elem in Ht as (ip & d & _ & ->). apply rebuild_target. }
  rewrite Hbuild, (sorted_targets_fixed T Hnd (sort_targets_sorted _)).
  unfold w1, _update_cabinet_inventory. simpl.
  fold (merged_map env self site cabinet leases w). fold T.
  apply insert_insert_eq.
Qed.

End SecondPass.

Lemma second_pass_changes_nothing_witness :
  let pass := _update_cabinet_inventory Scenario.env_up Scenario.with_dns "us3" "cab10"
                [Scenario.lease_ru7] in
  let w1 := (pass Scenario.empty_world).2 in
  let w2 := (pass w1).2 in
  files w2 = files w1 ∧ store w2 = store w1
  ∧ reservation_calls w2 = reservation_calls w1.
Proof.
  cbv zeta.
  refine (second_pass_changes_nothing Scenario.env_up Scenario.with_dns "us3" "cab10"
            [Scenario.lease_ru7] Scenario.empty_world _).
  eexists _, _, _. split; [vm_compute; reflexivity | reflexivity].
Defined.

(** * Further properties of the code *)

(** ** The upsert *)

Section Upsert.
Variables (fresh_id : Z) (mac_hex : string) (subnet : Z) (ip hostname : string).

Lemma same_key_row_key r :
  same_key mac_hex subnet r = true ↔ row_key r = (mac_hex, 0, subnet).
Proof.
  unfold same_key, row_key. rewrite !andb_true_iff, String.eqb_eq, !Z.eqb_eq.
  split; [intros [[-> ->] ->]; reflexivity | intros [= -> -> ->]; auto].
Qed.

Lemma find_same_key_None rows :
  List.find (same_key mac_hex subnet) rows = None →
  (mac_hex, 0, subnet) ∉ map row_key rows.
Proof.
  intros Hfind Hin. apply list_elem_of_fmap in Hin as (r & Hk & Hr).
  apply list_elem_of_In in Hr.
  pose proof (List.find_none _ _ Hfind r Hr) as Hf.
  symmetry in Hk. apply same_key_row_key in Hk. congruence.
Qed.

Lemma upsert_keys rows :
  map row_key (upsert fresh_id mac_hex subnet ip hostname rows).1
  = match List.find (same_key mac_hex subnet) rows with
    | Some _ => map row_key rows
    | None => map row_key rows ++ [(mac_hex, 0, subnet)]
    end.
Proof.
  unfold upsert. destruct (List.find _ rows) as [old|]; simpl.
  - rewrite map_map. apply map_ext. intros r.
    destruct (same_key mac_hex subnet r); reflexivity.
  - rewrite map_app. reflexivity.
Qed.

Lemma upsert_key_unique rows :
  key_unique rows → key_unique (upsert fresh_id mac_hex subnet ip hostname rows).1.
Proof.
  unfold key_unique. rewrite upsert_keys.
  destruct (List.find _ rows) as [old|] eqn:E; [auto|]. intros Hnd.
  apply NoDup_app. split; [assumption|]. split; [|apply NoDup_singleton].
  intros k Hk Hk'. apply list_elem_of_singleton in Hk'. subst k.
  exact (find_same_key_None rows E Hk).
Qed.

(** The rows under other keys are what they were. *)
Lemma upsert_frame rows :
  List.filter (λ r, negb (same_key mac_hex subnet r))
              (upsert fresh_id mac_hex subnet ip hostname rows).1
  = List.filter (λ r, negb (same_key mac_hex subnet r)) rows.
Proof.
  unfold upsert. destruct (List.find _ rows) as [old|]; simpl.
  - induction rows as [|r rows IH]; simpl; [reflexivity|].
    destruct (same_key mac_hex subnet r) eqn:Er; simpl.
    + assert (same_key mac_hex subnet
                {| host_id := host_id r; dhcp_identifier := dhcp_identifier r;
                   dhcp_identifier_type := dhcp_identifier_type r;
                   dhcp4_subnet_id := dhcp4_subnet_id r;
                   ipv4_address := ip; host_hostname := hostname |} = true) as ->
        by exact Er.
      simpl. exact IH.
    + rewrite Er. simpl. rewrite IH. reflexivity.
  - rewrite List.filter_app. simpl.
    unfold same_key at 2. simpl. rewrite String.eqb_refl, !Z.eqb_refl. simpl.
    apply app_nil_r.
Qed.

(** A row under the key holds the address and the hostname. *)
Lemma upsert_row rows :
  ∃ row, row ∈ (upsert fresh_id mac_hex subnet ip hostname rows).1
         ∧ row_key row = (mac_hex, 0, subnet)
         ∧ ipv4_address row = ip ∧ host_hostname row = hostname.
Proof.
  unfold upsert. destruct (List.find _ rows) as [old|] eqn:E; simpl.
  - apply List.find_some in E as [Hin Hk].
    exists {| host_id := host_id old; dhcp_identifier := dhcp_identifier old;
              dhcp_identifier_type := dhcp_identifier_type old;
              dhcp4_subnet_id := dhcp4_subnet_id old;
              ipv4_address := ip; host_hostname := hostname |}.
    split; [|split; [apply same_key_row_key; exact Hk | auto]].
    apply list_elem_of_fmap. exists old. rewrite Hk.
    split; [reflexivity | apply list_elem_of_In; assumption].
  - eexists. split; [apply elem_of_app; right; left|]. auto.
Qed.

(** Every row under the key holds the address and the hostname. *)
Lemma upsert_rows_bound rows row :
  row ∈ (upsert fresh_id mac_hex subnet ip hostname rows).1 →
  same_key mac_hex subnet row = true →
  ipv4_address row = ip ∧ host_hostname row = hostname.
Proof.
  unfold upsert. destruct (List.find _ rows) as [old|] eqn:E; simpl; intros Hin Hk.
  - apply list_elem_of_fmap in Hin as (r & -> & Hr).
    destruct (same_key mac_hex subnet r) eqn:Er; [auto | congruence].
  - apply elem_of_app in Hin as [Hin|Hin].
    + apply list_elem_of_In in Hin.
      pose proof (List.find_none _ _ E row Hin). congruence.
    + apply list_elem_of_singleton in Hin. subst row. auto.
Qed.

(** A second upsert with the same values changes no row and reports an
    update, whatever id the server would have given. *)
Lemma upsert_again fresh_id' rows :
  let rows' := (upsert fresh_id mac_hex subnet ip hostname rows).1 in
  (upsert fresh_id' mac_hex subnet ip hostname rows').1 = rows'
  ∧ (upsert fresh_id' mac_hex subnet ip hostname rows').2.2 = false.
Proof.
  cbv zeta.
  destruct (upsert_row rows) as (row & Hrow & Hk & _).
  apply same_key_row_key in Hk.
  set (rows' := (upsert fresh_id mac_hex subnet ip hostname rows).1) in *.
  unfold upsert.
  destruct (List.find (same_key mac_hex subnet) rows') as [old|] eqn:E.
  - simpl. split; [|reflexivity].
    rewrite <- (map_id rows') at 2. apply map_ext_in. intros r Hr.
    destruct (same_key mac_hex subnet r) eqn:Er; [|reflexivity].
    apply list_elem_of_In in Hr.
    destruct (upsert_rows_bound rows r Hr Er) as [Hip Hh].
    destruct r; simpl in *. congruence.
  - exfalso. apply list_elem_of_In in Hrow.
    pose proof (List.find_none _ _ E row Hrow). congruence.
Qed.

End Upsert.

(** ** Outcomes of a promotion *)

Section Promotion.
Variables (env : Env) (self : LeaseProcessor).

(** Either nothing happened and the result is false, or the upsert was
    committed, together with the DNS record when DNS goes to the server. *)
Lemma create_static_reservation_cases lease st :
  create_static_reservation env self lease st = (false, st)
  ∨ ∃ m dns,
      mac_address lease = Some m
      ∧ truthy_opt (hostname lease) = true
      ∧ create_static_reservation env self lease st
        = (true,
           {| hosts := (upsert (fresh_host_id (hosts st)) (mac_hex_of m)
                               (reservation_subnet_id self) (ip_address lease)
                               (or_empty (hostname lease)) (hosts st)).1;
              dns_records := dns |})
      ∧ (dns_active self = false ∧ dns = dns_records st
         ∨ dns_active self = true
           ∧ dns = dns_records st
                   ++ [(or_empty (hostname lease) +:+ "." +:+ or_empty (dns_zone self),
                        ip_address lease)]).
Proof.
  unfold create_static_reservation.
  destruct (db_enabled self); simpl; [|auto].
  destruct (truthy_opt (hostname lease)) eqn:Hh; simpl; [|auto].
  unfold reservation_body.
  destruct (mac_address lease) as [m|]; simpl; [|auto].
  destruct (db_connect_ok env); simpl; [|auto].
  destruct (db_statement_ok env _ _ _ _); simpl; [|auto].
  fold (mac_hex_of m).
  destruct (upsert _ _ _ _ _ _) as [rows [hid inserted]] eqn:Eu.
  unfold dns_active, create_dns_record.
  destruct (enable_dns self); simpl.
  - destruct (truthy_opt (dns_zone self)); simpl.
    + destruct (dns_modules self); simpl.
      * destruct (sds_create_ok env _ _); simpl.
        -- right. exists m. eexists. rewrite Eu.
           split; [reflexivity|]. split; [reflexivity|]. split; [reflexivity|].
           right. auto.
        -- left. destruct st; reflexivity.
      * right. exists m. eexists. rewrite Eu.
        split; [reflexivity|]. split; [reflexivity|]. split; [reflexivity|]. left. auto.
    + right. exists m. eexists. rewrite Eu.
      split; [reflexivity|]. split; [reflexivity|]. split; [reflexivity|]. left. auto.
  - right. exists m. eexists. rewrite Eu.
    split; [reflexivity|]. split; [reflexivity|]. split; [reflexivity|]. left. auto.
Qed.

End Promotion.



(** X4. Whenever [create_static_reservation] returns true, the store holds
    a row under the key (mac without colons in upper case, type 0, subnet of
    the processor) with the address and hostname of the lease; and when DNS
    is enabled with a zone and the modules loaded, the record
    hostname.zone -> address is among the DNS records. *)
Theorem successful_promotion_binds (env : Env) (self : LeaseProcessor)
    (lease : DHCPLease) (st : Store) :
  (create_static_reservation env self lease st).1 = true →
  ∃ m row,
    mac_address lease = Some m
    ∧ row ∈ hosts (create_static_reservation env self lease st).2
    ∧ row_key row = (mac_hex_of m, 0, reservation_subnet_id self)
    ∧ ipv4_address row = ip_address lease
    ∧ host_hostname row = or_empty (hostname lease)
    ∧ host_hostname row ≠ ""
    ∧ (dns_active self = true →
       (host_hostname row +:+ "." +:+ or_empty (dns_zone self), ip_address lease)
         ∈ dns_records (create_static_reservation env self lease st).2).
Proof.
  destruct (create_static_reservation_cases env self lease st)
    as [->|(m & dns & Hm & Hh & -> & Hdns)]; [discriminate|]. intros _.
  destruct (upsert_row (fresh_host_id (hosts st)) (mac_hex_of m)
              (reservation_subnet_id self) (ip_address lease)
              (or_empty (hostname lease)) (hosts st)) as (row & Hin & Hk & Hip & Hhost).
  exists m, row. simpl. rewrite Hhost.
  repeat split; try assumption.
  - destruct (hostname lease) as [[|c h]|]; simpl in *; congruence.
  - intros Hact. destruct Hdns as [[Hoff _]|[_ ->]]; [congruence|].
    apply elem_of_app. right. left.
Qed.

Lemma successful_promotion_binds_witness :
  (create_static_reservation Scenario.env_up Scenario.with_dns
     Scenario.lease_ru7 Scenario.no_store).1 = true
  ∧ ∃ m row,
      mac_address Scenario.lease_ru7 = Some m
      ∧ row ∈ hosts (create_static_reservation Scenario.env_up Scenario.with_dns
                       Scenario.lease_ru7 Scenario.no_store).2
      ∧ row_key row = (mac_hex_of m, 0, 1).
Proof.
  assert ((create_static_reservation Scenario.env_up Scenario.with_dns
             Scenario.lease_ru7 Scenario.no_store).1 = true) as H
    by (vm_compute; reflexivity).
  split; [exact H|].
  destruct (successful_promotion_binds _ _ _ _ H) as (m & row & Hm & Hin & Hk & _).
  exists m, row. auto.
Defined.

(** X5. [create_static_reservation] keeps the conflict key unique in the
    store and touches no row under another key: the rows whose key differs
    from the one of the lease are the same before and after. *)
Theorem promotion_keeps_other_reservations (env : Env) (self : LeaseProcessor)
    (lease : DHCPLease) (st : Store) :
  let st' := (create_static_reservation env self lease st).2 in
  (key_unique (hosts st) → key_unique (hosts st'))
  ∧ ∀ m, mac_address lease = Some m →
         List.filter (λ r, negb (same_key (mac_hex_of m) (reservation_subnet_id self) r))
                     (hosts st')
         = List.filter (λ r, negb (same_key (mac_hex_of m) (reservation_subnet_id self) r))
                       (hosts st).
Proof.
  cbv zeta.
  destruct (create_static_reservation_cases env self lease st)
    as [->|(m & dns & Hm & _ & -> & _)]; [auto|]. simpl. split.
  - apply upsert_key_unique.
  - intros m' Hm'. replace m' with m by congruence. apply upsert_frame.
Qed.

Lemma promotion_keeps_other_reservations_witness :
  let st := (create_static_reservation Scenario.env_up Scenario.with_dns
               Scenario.lease_ru7 Scenario.no_store).2 in
  key_unique (hosts st)
  ∧ key_unique (hosts (create_static_reservation Scenario.env_up Scenario.with_dns
                         Scenario.lease_ru5 st).2).
Proof.
  cbv zeta.
  assert (key_unique (hosts (create_static_reservation Scenario.env_up Scenario.with_dns
                               Scenario.lease_ru7 Scenario.no_store).2)) as H.
  { vm_compute. apply NoDup_singleton. }
  split; [exact H|].
  exact (proj1 (promotion_keeps_other_reservations _ _ Scenario.lease_ru5 _) H).
Defined.

Lemma create_static_reservation_result env self lease st :
  (create_static_reservation env self lease st).1 = promotion_succeeds env self lease.
Proof.
  unfold create_static_reservation, promotion_succeeds, reservation_body, dns_active,
    create_dns_record.
  destruct (db_enabled self); simpl; [|reflexivity].
  destruct (truthy_opt (hostname lease)); simpl; [|reflexivity].
  destruct (mac_address lease) as [m|]; simpl; [|reflexivity].
  destruct (db_connect_ok env); simpl; [|reflexivity].
  destruct (db_statement_ok env _ _ _ _); simpl; [|reflexivity].
  destruct (upsert _ _ _ _ _ _) as [rows [hid inserted]].
  destruct (enable_dns self); simpl; [|reflexivity].
  destruct (truthy_opt (dns_zone self)); simpl; [|reflexivity].
  destruct (dns_modules self); simpl; [|reflexivity].
  destruct (sds_create_ok env _ _); reflexivity.
Qed.

(** X6. Promoting the same lease a second time, with the collaborators
    behaving as the first time, gives the same result and leaves the
    reservation rows as the first call left them (the upsert updates the row
    it made). *)
Theorem promotion_twice_same_rows (env : Env) (self : LeaseProcessor)
    (lease : DHCPLease) (st : Store) :
  let st1 := (create_static_reservation env self lease st).2 in
  let st2 := (create_static_reservation env self lease st1).2 in
  hosts st2 = hosts st1
  ∧ (create_static_reservation env self lease st1).1
    = (create_static_reservation env self lease st).1.
Proof.
  cbv zeta. split; [|rewrite !create_static_reservation_result; reflexivity].
  destruct (create_static_reservation_cases env self lease st)
    as [E|(m & dns & Hm & Hh & E & Hdns)].
  - rewrite E. simpl. rewrite E. reflexivity.
  - rewrite E. cbn [fst snd].
    set (st1 := {| hosts := _; dns_records := dns |}).
    destruct (create_static_reservation_cases env self lease st1)
      as [E2|(m2 & dns2 & Hm2 & _ & E2 & _)]; rewrite E2; [reflexivity|].
    simpl. replace m2 with m by congruence.
    apply (upsert_again (fresh_host_id (hosts st)) (mac_hex_of m)
             (reservation_subnet_id self) (ip_address lease)
             (or_empty (hostname lease)) (fresh_host_id (hosts st1)) (hosts st)).
Qed.

(** ** The poll-based source *)

Section Poll.

Lemma parse_lease_line_filter_only self self' line :
  subnet_filter self = subnet_filter self' →
  _parse_lease_line self line = _parse_lease_line self' line.
Proof. intros H. unfold _parse_lease_line. rewrite H. reflexivity. Qed.

Lemma parse_lease_line_Some self line l :
  _parse_lease_line self line = Some l →
  (9 ≤ length line)%nat
  ∧ line !! 0%nat = Some (ip_address l)
  ∧ (∃ mac, line !! 1%nat = Some mac ∧ mac_address l = Some mac)
  ∧ hostname l ≠ Some ""
  ∧ (∀ s, subnet_filter self = Some s → s ≠ ∅ →
          ∃ sid, subnet_id l = Some sid ∧ sid ∈ s).
Proof.
  unfold _parse_lease_line.
  destruct (Nat.ltb_spec (length line) 9) as [Hlt|Hge]; simpl; [discriminate|].
  destruct (truthy (default "" (line !! 4%nat))); simpl;
    [destruct (py_int (default "" (line !! 4%nat))) as [n|]; simpl; [|discriminate]|];
    (destruct (truthy_filter (subnet_filter self)
               && negb (bool_decide (default "" (line !! 5%nat)
                                       ∈ default ∅ (subnet_filter self)))) eqn:Ef;
     simpl; [discriminate|]; intros [= <-]; simpl;
     (split; [exact Hge|]);
     (split; [destruct (line !! 0%nat) eqn:E0; [reflexivity|];
              apply lookup_ge_None in E0; lia|]);
     (split; [destruct (line !! 1%nat) as [mac|] eqn:E1;
              [exists mac; auto | apply lookup_ge_None in E1; lia]|]);
     (split; [destruct (8 <? length line)%nat; simpl; [|discriminate];
              destruct (default "" (line !! 8%nat)); simpl; discriminate|]);
     intros s Hs Hne; eexists; split; [reflexivity|];
     rewrite Hs in Ef; simpl in Ef;
     rewrite bool_decide_eq_false_2 in Ef by assumption; simpl in Ef;
     apply negb_false_iff, bool_decide_eq_true in Ef; exact Ef).
Qed.

Lemma omap_filter_post {A B} (f : A → option B) (p : B → bool) (l : list A) :
  omap (λ x, match f x with Some y => if p y then None else Some y | None => None end) l
  = List.filter (λ y, negb (p y)) (omap f l).
Proof.
  induction l as [|x l IH]; csimpl; [reflexivity|].
  destruct (f x) as [y|]; csimpl; [|exact IH].
  destruct (p y); csimpl; [exact IH | rewrite IH; reflexivity].
Qed.


(** What a call returns when it reads the log. *)
Lemma get_new_leases_batch f self :
  batch (get_new_leases f self) = []
  ∨ batch (get_new_leases f self)
    = List.filter (λ l, negb (bool_decide (ip_address l ∈ processed_leases self)))
                  (get_all_leases f self).
Proof.
  unfold get_new_leases, get_all_leases. destruct f as [f|]; [|auto].
  destruct (_ && _); [auto|]. destruct (csv_rows f) as [rows|]; [|auto].
  right. simpl.
  rewrite <- (omap_filter_post (_parse_lease_line self)
                (λ l, bool_decide (ip_address l ∈ processed_leases self)) rows).
  reflexivity.
Qed.

Lemma mark_all_processed_spec leases self :
  subnet_filter (mark_all_processed self leases) = subnet_filter self
  ∧ last_mtime (mark_all_processed self leases) = last_mtime self
  ∧ ∀ ip, ip ∈ processed_leases (mark_all_processed self leases)
          ↔ ip ∈ processed_leases self ∨ ip ∈ map ip_address leases.
Proof.
  unfold mark_all_processed. revert self.
  induction leases as [|l leases IH]; intros self; simpl.
  - split; [reflexivity|]. split; [reflexivity|]. intros ip. split; [auto|].
    intros [H|H]; [assumption | apply elem_of_nil in H; contradiction].
  - destruct (IH (mark_processed self l)) as (Hf & Hm & Hp).
    split; [exact Hf|]. split; [exact Hm|]. intros ip. rewrite Hp. simpl.
    rewrite elem_of_union, elem_of_singleton, elem_of_cons. tauto.
Qed.


End Poll.

(** X7. Every lease of a batch returned by the poll-based source comes from
    a row of at least nine fields, has an address that is not yet marked as
    processed, never has the empty string as hostname (a missing hostname is
    [None]), and, when a subnet filter is set, has a subnet of the filter. *)
Theorem poll_batch_invariants (f : option LeaseLog) (self : FileLeaseSource) (l : DHCPLease) :
  l ∈ batch (get_new_leases f self) →
  l ∈ get_all_leases f self
  ∧ (ip_address l ∉ processed_leases self)
  ∧ hostname l ≠ Some ""
  ∧ (∀ s, subnet_filter self = Some s → s ≠ ∅ → ∃ sid, subnet_id l = Some sid ∧ sid ∈ s).
Proof.
  intros Hl. destruct (get_new_leases_batch f self) as [E|E]; rewrite E in Hl.
  - apply elem_of_nil in Hl. contradiction.
  - apply list_elem_of_In, List.filter_In in Hl as [Hall Hp].
    apply list_elem_of_In in Hall.
    split; [exact Hall|]. split.
    + apply negb_true_iff, bool_decide_eq_false in Hp. exact Hp.
    + unfold get_all_leases in Hall. destruct f as [f|]; [|apply elem_of_nil in Hall; contradiction].
      destruct (csv_rows f) as [rows|]; [|apply elem_of_nil in Hall; contradiction].
      apply list_elem_of_omap in Hall as (line & _ & Hparse).
      apply parse_lease_line_Some in Hparse as (_ & _ & _ & Hh & Hs). auto.
Qed.

Lemma poll_batch_invariants_witness :
  Scenario.lease_no_hwaddr
    ∈ batch (get_new_leases (Some Scenario.log_at_epoch) Scenario.fresh_source)
  ∧ hostname Scenario.lease_no_hwaddr ≠ Some "".
Proof.
  assert (Scenario.lease_no_hwaddr
            ∈ batch (get_new_leases (Some Scenario.log_at_epoch) Scenario.fresh_source)) as H
    by (vm_compute; left).
  split; [exact H|].
  exact (proj1 (proj2 (proj2 (poll_batch_invariants _ _ _ H)))).
Defined.



(** ** Bulk synchronisation at start-up *)

Section Sync.
Variables (env : Env) (self : LeaseProcessor).

Lemma matches_convention_hostname l :
  matches_convention l = true → truthy_opt (hostname l) = true.
Proof.
  unfold matches_convention, _extract_site_and_cabinet.
  destruct (truthy_opt (hostname l)); [reflexivity | discriminate].
Qed.

Lemma sync_step_spec n w l :
  let r := sync_step env self (n, w) l in
  files r.2 = files w ∧ log r.2 = log w
  ∧ reservation_calls r.2
    = reservation_calls w ++ (if matches_convention l then [l] else [])
  ∧ n ≤ r.1 ≤ n + (if matches_convention l then 1 else 0).
Proof.
  cbv zeta. unfold sync_step.
  destruct (truthy_opt (hostname l)) eqn:Hh; cbn [negb].
  - unfold matches_convention.
    destruct (_extract_site_and_cabinet l) as [key|].
    + destruct (create_static_reservation env self l (store w)) as [ok st]. simpl.
      repeat split; destruct ok; lia.
    + simpl. rewrite app_nil_r. repeat split; lia.
  - assert (matches_convention l = false) as ->.
    { destruct (matches_convention l) eqn:E; [|reflexivity].
      apply matches_convention_hostname in E. congruence. }
    simpl. rewrite app_nil_r. repeat split; lia.
Qed.

Lemma sync_fold leases n w :
  let r := fold_left (sync_step env self) leases (n, w) in
  files r.2 = files w ∧ log r.2 = log w
  ∧ reservation_calls r.2
    = reservation_calls w ++ List.filter matches_convention leases
  ∧ n ≤ r.1 ≤ n + Z.of_nat (length (List.filter matches_convention leases)).
Proof.
  cbv zeta. revert n w. induction leases as [|l leases IH]; intros n w.
  - simpl. rewrite app_nil_r. repeat split; lia.
  - cbn [fold_left List.filter].
    pose proof (sync_step_spec n w l) as Hstep. cbv zeta in Hstep.
    destruct (sync_step env self (n, w) l) as [n' w'].
    destruct Hstep as (Hf & Hl & Hc & Hn). simpl in Hf, Hl, Hc, Hn.
    destruct (IH n' w') as (Hf' & Hl' & Hc' & Hn').
    rewrite Hf', Hl', Hc', Hf, Hl, Hc.
    destruct (matches_convention l); simpl length in *.
    + rewrite <- app_assoc. repeat split; lia.
    + rewrite app_nil_r. repeat split; lia.
Qed.

Lemma sync_existing_leases_fold leases w :
  sync_existing_leases env self leases w
  = if negb (db_enabled self) then (0, w)
    else fold_left (sync_step env self) leases (0, w).
Proof. reflexivity. Qed.

End Sync.

Lemma get_all_leases_filter_only f self self' :
  subnet_filter self = subnet_filter self' →
  get_all_leases f self = get_all_leases f self'.
Proof.
  destruct self, self'. simpl. intros <-. reflexivity.
Qed.

Lemma filter_none {A} (p : A → bool) (l : list A) :
  (∀ x, x ∈ l → p x = false) → List.filter p l = [].
Proof.
  induction l as [|x l IH]; intros H; simpl; [reflexivity|].
  rewrite (H x) by left. apply IH. intros y Hy. apply H. right. assumption.
Qed.

Lemma sync_existing_leases_enabled (env : Env) (self : LeaseProcessor)
    (leases : list DHCPLease) (w : World) :
  db_enabled self = true →
  let r := sync_existing_leases env self leases w in
  files r.2 = files w
  ∧ reservation_calls r.2 = reservation_calls w ++ List.filter matches_convention leases.
Proof.
  intros Hdb. cbv zeta. rewrite sync_existing_leases_fold.
  pose proof (sync_fold env self leases 0 w) as H. cbv zeta in H.
  rewrite Hdb. simpl. destruct H as (Hf & _ & Hc & _). auto.
Qed.



(** X10. After the initial synchronisation ([--sync-existing] with an
    enabled store) every lease of the log is marked as processed: a poll of
    the same log returns an empty batch, so the leases present at start-up
    are promoted to reservations but are not written to a cabinet inventory,
    and no inventory file was touched. *)
Theorem initial_sync_hides_existing_leases (env : Env) (processor : LeaseProcessor)
    (f : option LeaseLog) (src : FileLeaseSource) (w : World) :
  db_enabled processor = true →
  let r := initial_sync env processor true f src w in
  batch (get_new_leases f r.1) = []
  ∧ files r.2 = files w
  ∧ reservation_calls r.2
    = reservation_calls w ++ List.filter matches_convention (get_all_leases f src).
Proof.
  intros Hdb. cbv zeta. unfold initial_sync. rewrite Hdb. cbn [andb].
  pose proof (sync_existing_leases_enabled env processor (get_all_leases f src) w Hdb) as H.
  cbv zeta in H. destruct H as (Hf & Hc).
  destruct (sync_existing_leases env processor (get_all_leases f src) w) as [n w'].
  cbn [fst snd] in *. split; [|split; [exact Hf | exact Hc]].
  destruct (mark_all_processed_spec (get_all_leases f src) src) as (Hfilter & _ & Hmark).
  destruct (get_new_leases_batch f (mark_all_processed src (get_all_leases f src)))
    as [E|E]; [exact E|]. rewrite E.
  rewrite (get_all_leases_filter_only f _ src Hfilter).
  apply filter_none. intros l Hl. apply negb_false_iff, bool_decide_eq_true.
  apply Hmark. right. apply list_elem_of_fmap. exists l. auto.
Qed.

Lemma initial_sync_hides_existing_leases_witness :
  let r := initial_sync Scenario.env_up Scenario.with_dns true
             (Some Scenario.log_at_epoch) Scenario.fresh_source Scenario.empty_world in
  db_enabled Scenario.with_dns = true
  ∧ get_all_leases (Some Scenario.log_at_epoch) Scenario.fresh_source
    = [Scenario.lease_no_hwaddr]
  ∧ batch (get_new_leases (Some Scenario.log_at_epoch) r.1) = [].
Proof.
  cbv zeta. split; [reflexivity|]. split; [vm_compute; reflexivity|].
  exact (proj1 (initial_sync_hides_existing_leases Scenario.env_up Scenario.with_dns
                  (Some Scenario.log_at_epoch) Scenario.fresh_source Scenario.empty_world
                  eq_refl)).
Defined.

(** X11. Whenever a poll opens the log, its batch is the list of all
    leases of the log, in the order of the rows, without those whose address
    is marked as processed. *)
Theorem poll_returns_unprocessed_rows (f : option LeaseLog) (self : FileLeaseSource) :
  log_opened (get_new_leases f self) = true →
  batch (get_new_leases f self)
  = List.filter (λ l, negb (bool_decide (ip_address l ∈ processed_leases self)))
                (get_all_leases f self).
Proof.
  unfold get_new_leases, get_all_leases. destruct f as [f|]; [|discriminate].
  destruct (_ && _); [discriminate|]. destruct (csv_rows f) as [rows|]; [|reflexivity].
  intros _. simpl.
  rewrite <- (omap_filter_post (_parse_lease_line self)
                (λ l, bool_decide (ip_address l ∈ processed_leases self)) rows).
  reflexivity.
Qed.

Lemma poll_returns_unprocessed_rows_witness :
  log_opened (get_new_leases (Some Scenario.log_at_epoch) Scenario.fresh_source) = true
  ∧ batch (get_new_leases (Some Scenario.log_at_epoch) Scenario.fresh_source)
    = List.filter (λ l, negb (bool_decide
                               (ip_address l ∈ processed_leases Scenario.fresh_source)))
                  (get_all_leases (Some Scenario.log_at_epoch) Scenario.fresh_source).
Proof.
  assert (log_opened (get_new_leases (Some Scenario.log_at_epoch) Scenario.fresh_source)
          = true) as H by (vm_compute; reflexivity).
  split; [exact H|].
  exact (poll_returns_unprocessed_rows _ _ H).
Defined.

(** ** The notification-based source *)

Section Notifications.
Variable clock : Z.

Lemma lease_of_notification_Some self p l :
  lease_of_notification self clock p = Some l →
  truthy_opt (hostname l) = true
  ∧ hostname l = n_hostname p
  ∧ (ip_address l ∉ processed_lease_ids self)
  ∧ (mac_address l = None ↔ truthy_opt (n_dhcp_identifier p) = false)
  ∧ (∀ n, n_ipv4_address p = Some (inl n) →
          0 < n < 2 ^ 32 ∧ ip_address l = dotted_quad n).
Proof.
  unfold lease_of_notification.
  destruct (truthy_opt (n_hostname p)) eqn:Hh; simpl; [|discriminate].
  destruct (truthy_address (n_ipv4_address p)) eqn:Ha; simpl; [|discriminate].
  assert (∀ ip,
    try_except
      (if bool_decide (ip ∈ processed_lease_ids self) then inr None
       else inr (Some {| ip_address := ip;
                         mac_address :=
                           if truthy_opt (n_dhcp_identifier p)
                           then Some (join ":" (chunks2 (or_empty (n_dhcp_identifier p))))
                           else None;
                         hostname := n_hostname p;
                         subnet_id := match db_subnet_id self with
                                      | Some n => if negb (n =? 0) then Some (pretty n) else None
                                      | None => None
                                      end;
                         lease_timestamp := clock |}))
      (λ _, None) = Some l →
    truthy_opt (hostname l) = true ∧ hostname l = n_hostname p
    ∧ (ip_address l ∉ processed_lease_ids self)
    ∧ (mac_address l = None ↔ truthy_opt (n_dhcp_identifier p) = false)
    ∧ ip_address l = ip) as Hbody.
  { intros ip. destruct (bool_decide (ip ∈ processed_lease_ids self)) eqn:Ep; simpl;
      [discriminate|].
    intros [= <-]. simpl. apply bool_decide_eq_false in Ep.
    repeat split; try assumption.
    - destruct (truthy_opt (n_dhcp_identifier p)); [discriminate | reflexivity].
    - intros ->. reflexivity. }
  destruct (n_ipv4_address p) as [[n|str]|]; simpl in *.
  - unfold ipv4_to_string.
    destruct ((0 <=? n) && (n <? 2 ^ 32)) eqn:Er; simpl; [|discriminate].
    intros H. apply Hbody in H as (H1 & H2 & H3 & H4 & H5).
    split; [exact H1|]. split; [exact H2|]. split; [exact H3|]. split; [exact H4|].
    intros m [= <-]. apply andb_true_iff in Er as [E1 E2].
    apply negb_true_iff, Z.eqb_neq in Ha. split; [lia | exact H5].
  - intros H. apply Hbody in H as (H1 & H2 & H3 & H4 & H5).
    split; [exact H1|]. split; [exact H2|]. split; [exact H3|]. split; [exact H4|].
    intros m; discriminate.
  - discriminate.
Qed.

Lemma notify_fold notifies acc self :
  let r := fold_left (notify_step clock) notifies (acc, self) in
  ∃ new,
    r.1 = acc ++ new
    ∧ NoDup (map ip_address new)
    ∧ (∀ l, l ∈ new → ip_address l ∉ processed_lease_ids self)
    ∧ (∀ l, l ∈ new → truthy_opt (hostname l) = true)
    ∧ (∀ ip, ip ∈ processed_lease_ids r.2
             ↔ ip ∈ processed_lease_ids self ∨ ip ∈ map ip_address new)
    ∧ db_subnet_id r.2 = db_subnet_id self.
Proof.
  cbv zeta. revert acc self. induction notifies as [|x notifies IH]; intros acc self.
  - exists []. simpl. rewrite app_nil_r.
    split; [reflexivity|]. split; [apply NoDup_nil_2|].
    split; [intros l Hl; apply elem_of_nil in Hl; contradiction|].
    split; [intros l Hl; apply elem_of_nil in Hl; contradiction|].
    split; [|reflexivity]. intros ip. split; [auto|].
    intros [H|H]; [assumption | apply elem_of_nil in H; contradiction].
  - cbn [fold_left]. unfold notify_step at 2 4 6.
    destruct x as [payload|]; [|apply IH].
    destruct (lease_of_notification self clock payload) as [lease|] eqn:E; [|apply IH].
    apply lease_of_notification_Some in E as (Hh & _ & Hnew & _).
    destruct (IH (acc ++ [lease])
                 {| db_subnet_id := db_subnet_id self;
                    processed_lease_ids := {[ip_address lease]} ∪ processed_lease_ids self |})
      as (new & Hr & Hnd & Hnot & Hhost & Hproc & Hsub).
    simpl in Hnot, Hproc, Hsub.
    exists (lease :: new). rewrite Hr, <- app_assoc. simpl.
    split; [reflexivity|]. split; [|split; [|split; [|split]]].
    + apply NoDup_cons. split; [|assumption].
      intros Hin. apply list_elem_of_fmap in Hin as (l & Hip & Hl).
      apply (Hnot l Hl). rewrite <- Hip.
      apply elem_of_union. left. apply elem_of_singleton. reflexivity.
    + intros l Hl. apply elem_of_cons in Hl as [->|Hl]; [assumption|].
      intros Hin. apply (Hnot l Hl). apply elem_of_union. right. exact Hin.
    + intros l Hl. apply elem_of_cons in Hl as [->|Hl]; auto.
    + intros ip. rewrite Hproc, elem_of_union, elem_of_singleton, elem_of_cons. tauto.
    + assumption.
Qed.

End Notifications.

(** X12. A batch of the notification-based source holds no two leases with
    the same address, none whose address was already handed out, and only
    leases with a hostname; all its addresses are recorded in the source, so
    a later call never returns a lease with one of them again. *)
Theorem notification_batch_has_no_duplicates (clock clock' : Z)
    (notifies notifies' : list (option Notification)) (self : DatabaseLeaseSource) :
  let r := db_get_new_leases clock notifies self in
  let r' := db_get_new_leases clock' notifies' r.2 in
  NoDup (map ip_address r.1)
  ∧ (∀ l, l ∈ r.1 →
          (ip_address l ∉ processed_lease_ids self)
          ∧ ip_address l ∈ processed_lease_ids r.2
          ∧ truthy_opt (hostname l) = true)
  ∧ (∀ l l', l ∈ r.1 → l' ∈ r'.1 → ip_address l' ≠ ip_address l).
Proof.
  cbv zeta.
  change (db_get_new_leases clock notifies self)
    with (fold_left (notify_step clock) notifies ([], self)).
  destruct (notify_fold clock notifies [] self) as (new & Hr & Hnd & Hnot & Hh & Hproc & _).
  cbv zeta in *. simpl in Hr.
  set (r := fold_left (notify_step clock) notifies ([], self)) in *.
  change (db_get_new_leases clock' notifies' r.2)
    with (fold_left (notify_step clock') notifies' ([], r.2)).
  destruct (notify_fold clock' notifies' [] r.2) as (new' & Hr' & _ & Hnot' & _).
  cbv zeta in *. simpl in Hr'. rewrite Hr, Hr'.
  split; [exact Hnd|]. split.
  - intros l Hl. split; [auto|]. split; [|auto].
    apply Hproc. right. apply list_elem_of_fmap. exists l. auto.
  - intros l l' Hl Hl' Heq. apply (Hnot' l' Hl'). rewrite Heq.
    apply Hproc. right. apply list_elem_of_fmap. exists l. auto.
Qed.

Lemma notification_batch_has_no_duplicates_witness :
  let r := db_get_new_leases 1700000000
             [Some Scenario.notification_no_mac; None; Some Scenario.notification_no_mac]
             Scenario.listener in
  r.1 = [Scenario.lease_no_mac]
  ∧ ip_address Scenario.lease_no_mac ∈ processed_lease_ids r.2.
Proof.
  cbv zeta. split; [vm_compute; reflexivity|].
  refine (proj1 (proj2 (proj1 (proj2
            (notification_batch_has_no_duplicates 1700000000 0
               [Some Scenario.notification_no_mac; None; Some Scenario.notification_no_mac]
               [] Scenario.listener)) Scenario.lease_no_mac _))).
  vm_compute. left.
Defined.

(** ** Decimal text of numbers and dotted-quad addresses *)

Section Decimal.

Lemma string_app_assoc (a b c : string) : (a +:+ b) +:+ c = a +:+ (b +:+ c).
Proof. induction a as [|x a IH]; simpl; [reflexivity | rewrite IH; reflexivity]. Qed.

Lemma string_app_length (a b : string) :
  String.length (a +:+ b) = (String.length a + String.length b)%nat.
Proof. induction a as [|x a IH]; simpl; [reflexivity | rewrite IH; reflexivity]. Qed.

Lemma digits_only_app a b : digits_only (a +:+ b) = digits_only a && digits_only b.
Proof.
  induction a as [|x a IH]; simpl; [reflexivity|]. rewrite IH, andb_assoc. reflexivity.
Qed.

Lemma int_digits_acc_app a b acc :
  int_digits_acc acc (a +:+ b) = int_digits_acc (int_digits_acc acc a) b.
Proof. revert acc. induction a as [|x a IH]; intros acc; simpl; [reflexivity | apply IH]. Qed.

Lemma pretty_N_char_digit x :
  (x < 10)%N → is_digit (pretty_N_char x) = true ∧ digit_val (pretty_N_char x) = Z.of_N x.
Proof.
  intros H.
  assert (x = 0 ∨ x = 1 ∨ x = 2 ∨ x = 3 ∨ x = 4 ∨ x = 5 ∨ x = 6 ∨ x = 7 ∨ x = 8 ∨ x = 9)%N
    as Hx by lia.
  repeat (destruct Hx as [->|Hx]; [split; reflexivity|]). subst. split; reflexivity.
Qed.

(** The digits that [pretty_N_go] puts in front of [s]. *)
Lemma pretty_N_go_digits x s :
  ∃ d, pretty_N_go x s = d +:+ s
       ∧ digits_only d = true
       ∧ ((0 < x)%N → d ≠ "")
       ∧ ∀ acc, int_digits_acc acc d
                = acc * 10 ^ Z.of_nat (String.length d) + Z.of_N x.
Proof.
  revert s. induction (N.lt_wf_0 x) as [x _ IH]. intros s.
  destruct (N.eq_dec x 0%N) as [->|Hx].
  - exists "". rewrite pretty_N_go_0. simpl.
    repeat split; [lia | intros acc; lia].
  - assert (0 < x)%N as Hpos by lia.
    rewrite pretty_N_go_step by assumption.
    destruct (IH (x `div` 10)%N (N.div_lt x 10 Hpos eq_refl)
                 (String (pretty_N_char (x `mod` 10)) s))
      as (d & Hd & Hdig & _ & Hval).
    destruct (pretty_N_char_digit (x `mod` 10)%N) as [Hc Hv];
      [apply N.mod_lt; lia|].
    exists (d +:+ String (pretty_N_char (x `mod` 10)) "").
    rewrite string_app_assoc. simpl. split; [exact Hd|]. split; [|split].
    + rewrite digits_only_app, Hdig. simpl. rewrite Hc. reflexivity.
    + intros _. destruct d; discriminate.
    + intros acc. rewrite int_digits_acc_app, Hval. simpl. rewrite Hv.
      rewrite string_app_length. simpl String.length.
      rewrite Nat2Z.inj_add, Z.pow_add_r by lia. simpl (Z.of_nat 1).
      rewrite (N.div_mod x 10) at 3 by lia.
      rewrite N2Z.inj_add, N2Z.inj_mul. simpl (Z.of_N 10).
      change (10 ^ Z.of_nat 1) with 10.
      generalize (10 ^ Z.of_nat (String.length d)). intros k. ring.
Qed.

(** The text of a natural number is its decimal digits. *)
Lemma pretty_digits (z : Z) :
  0 ≤ z →
  digits_only (pretty z) = true ∧ pretty z ≠ "" ∧ int_digits_acc 0 (pretty z) = z.
Proof.
  intros Hz. destruct z as [|p|p]; [repeat split; discriminate | | lia].
  unfold pretty, pretty_Z, pretty, pretty_positive, pretty, pretty_N.
  rewrite decide_False by discriminate.
  destruct (pretty_N_go_digits (N.pos p) "") as (d & -> & Hd & Hne & Hval).
  assert (∀ t : string, t +:+ "" = t) as Hnil
    by (induction t as [|c t IH]; simpl; [reflexivity | rewrite IH; reflexivity]).
  rewrite Hnil. split; [exact Hd|]. split; [apply Hne; lia|].
  rewrite Hval. simpl. reflexivity.
Qed.

Lemma digits_us_digits s b acc :
  digits_only s = true → s ≠ "" → digits_us b acc s = Some (int_digits_acc acc s).
Proof.
  revert b acc. induction s as [|c s IH]; intros b acc Hd Hne; [congruence|].
  simpl in *. apply andb_true_iff in Hd as [Hc Hs]. rewrite Hc.
  destruct s as [|c' s]; [reflexivity|]. apply IH; [assumption | discriminate].
Qed.

Lemma digit_not_space c : is_digit c = true → is_space c = false.
Proof.
  unfold is_digit, is_space. intros H. apply andb_true_iff in H as [H1 H2].
  apply N.leb_le in H1, H2.
  apply orb_false_iff. split; apply andb_false_iff; right; apply N.leb_gt; lia.
Qed.

Lemma rstrip_digits s : digits_only s = true → rstrip s = s.
Proof.
  induction s as [|c s IH]; simpl; [reflexivity|]. intros H.
  apply andb_true_iff in H as [Hc Hs]. rewrite (IH Hs).
  destruct s; [rewrite (digit_not_space c Hc)|]; reflexivity.
Qed.

(** [int] reads back the decimal digits. *)
Lemma py_int_digits s :
  digits_only s = true → s ≠ "" → py_int s = Some (int_digits_acc 0 s).
Proof.
  intros Hd Hne. unfold py_int.
  assert (lstrip s = s) as ->.
  { destruct s as [|c s]; [reflexivity|]. simpl in *.
    apply andb_true_iff in Hd as [Hc _]. rewrite (digit_not_space c Hc). reflexivity. }
  rewrite (rstrip_digits s Hd).
  destruct s as [|c s]; [congruence|].
  rewrite <- (digits_us_digits (String c s) false 0 Hd Hne).
  simpl in Hd. apply andb_true_iff in Hd as [Hc _].
  destruct c as [[] [] [] [] [] [] [] []]; try discriminate Hc; reflexivity.
Qed.

Lemma py_int_pretty z : 0 ≤ z → py_int (pretty z) = Some z.
Proof.
  intros Hz. destruct (pretty_digits z Hz) as (Hd & Hne & Hv).
  rewrite py_int_digits by assumption. congruence.
Qed.

End Decimal.

Section DottedQuad.

Lemma split_char_digits_dot a b :
  digits_only a = true →
  split_char "." (a +:+ String "." b) = a :: split_char "." b.
Proof.
  induction a as [|c a IH]; simpl; intros Hd; [reflexivity|].
  apply andb_true_iff in Hd as [Hc Ha].
  assert (Ascii.eqb c "." = false) as ->.
  { apply Ascii.eqb_neq. intros ->. discriminate Hc. }
  rewrite (IH Ha). reflexivity.
Qed.

Lemma split_char_digits a : digits_only a = true → split_char "." a = [a].
Proof.
  induction a as [|c a IH]; simpl; intros Hd; [reflexivity|].
  apply andb_true_iff in Hd as [Hc Ha].
  assert (Ascii.eqb c "." = false) as ->.
  { apply Ascii.eqb_neq. intros ->. discriminate Hc. }
  rewrite (IH Ha). reflexivity.
Qed.

Lemma split_dotted a b c d :
  digits_only a = true → digits_only b = true → digits_only c = true →
  digits_only d = true →
  split_char "." (join "." [a; b; c; d]) = [a; b; c; d].
Proof.
  intros Ha Hb Hc Hd. simpl.
  rewrite (split_char_digits_dot a _ Ha), (split_char_digits_dot b _ Hb),
    (split_char_digits_dot c _ Hc), (split_char_digits d Hd).
  reflexivity.
Qed.

Lemma ip_to_bigint_dotted_quad n :
  0 ≤ n < 2 ^ 32 → ip_to_bigint (dotted_quad n) = inr n.
Proof.
  intros Hn.
  assert (0 ≤ n / 2 ^ 24) as Ha by (apply Z.div_pos; lia).
  assert (0 ≤ (n / 2 ^ 16) mod 256) as Hb by (apply Z.mod_pos_bound; lia).
  assert (0 ≤ (n / 2 ^ 8) mod 256) as Hc by (apply Z.mod_pos_bound; lia).
  assert (0 ≤ n mod 256) as Hd by (apply Z.mod_pos_bound; lia).
  unfold ip_to_bigint, dotted_quad. cbn [map].
  rewrite split_dotted by (apply pretty_digits; assumption).
  cbn [lookup list_lookup]. simpl.
  rewrite !py_int_pretty by assumption. simpl. f_equal.
  change (2 ^ 24) with (16777216). change (2 ^ 16) with 65536. change (2 ^ 8) with 256.
  pose proof (Z.div_mod n 16777216 ltac:(lia)).
  pose proof (Z.div_mod (n / 65536) 256 ltac:(lia)).
  pose proof (Z.div_mod (n / 256) 256 ltac:(lia)).
  pose proof (Z.div_mod n 256 ltac:(lia)).
  assert (n / 65536 / 256 = n / 16777216) by (rewrite Z.div_div by lia; reflexivity).
  assert (n / 256 / 256 = n / 65536) by (rewrite Z.div_div by lia; reflexivity).
  lia.
Qed.

End DottedQuad.

(** X13. A notification whose address is an integer gives a lease exactly
    when it has a hostname, the integer is between 1 and 2^32 - 1 and the
    dotted-quad text of the integer was not handed out before; an integer 0,
    a negative one or one beyond 32 bits drops the payload without an
    error. *)
Theorem notification_with_integer_address (self : DatabaseLeaseSource) (clock : Z)
    (p : Notification) (n : Z) :
  n_ipv4_address p = Some (inl n) →
  lease_of_notification self clock p = None
  ↔ truthy_opt (n_hostname p) = false ∨ n ≤ 0 ∨ 2 ^ 32 ≤ n
    ∨ dotted_quad n ∈ processed_lease_ids self.
Proof.
  intros Hn. unfold lease_of_notification. rewrite Hn. simpl.
  destruct (truthy_opt (n_hostname p)); simpl; [|tauto].
  destruct (Z.eqb_spec n 0) as [->|Hnz]; simpl; [split; [intros _; right; left; lia | reflexivity]|].
  unfold ipv4_to_string. fold (dotted_quad n).
  destruct (Z.leb_spec 0 n) as [Hlo|Hlo], (Z.ltb_spec n (2 ^ 32)) as [Hhi|Hhi]; simpl;
    try (split; [intros _; lia | reflexivity]).
  destruct (bool_decide (dotted_quad n ∈ processed_lease_ids self)) eqn:E; simpl.
  - apply bool_decide_eq_true in E. tauto.
  - apply bool_decide_eq_false in E. split; [discriminate|].
    intros [H|[H|[H|H]]]; try discriminate; try lia. contradiction.
Qed.

Lemma notification_with_integer_address_witness :
  n_ipv4_address Scenario.notification_no_mac = Some (inl 167772161)
  ∧ dotted_quad 167772161 = "10.0.0.1"
  ∧ (lease_of_notification Scenario.listener 0 Scenario.notification_no_mac = None
     ↔ truthy_opt (n_hostname Scenario.notification_no_mac) = false
       ∨ 167772161 ≤ 0 ∨ 2 ^ 32 ≤ 167772161
       ∨ dotted_quad 167772161 ∈ processed_lease_ids Scenario.listener).
Proof.
  split; [reflexivity|]. split; [vm_compute; reflexivity|].
  exact (notification_with_integer_address Scenario.listener 0
           Scenario.notification_no_mac 167772161 eq_refl).
Defined.

(** X14. The address text of a lease decoded from an integer notification
    address converts back, in [_query_lease_details], to the same integer:
    the octet arithmetic on the dotted-quad text inverts the formatting. *)
Theorem notification_address_round_trip (self : DatabaseLeaseSource) (clock : Z)
    (p : Notification) (l : DHCPLease) (n : Z) :
  lease_of_notification self clock p = Some l →
  n_ipv4_address p = Some (inl n) →
  ip_to_bigint (ip_address l) = inr n.
Proof.
  intros Hl Hn.
  apply lease_of_notification_Some in Hl as (_ & _ & _ & _ & Haddr).
  destruct (Haddr n Hn) as [Hrange ->].
  apply ip_to_bigint_dotted_quad. lia.
Qed.

Lemma notification_address_round_trip_witness :
  lease_of_notification Scenario.listener 1700000000 Scenario.notification_no_mac
    = Some Scenario.lease_no_mac
  ∧ ip_to_bigint (ip_address Scenario.lease_no_mac) = inr 167772161.
Proof.
  assert (lease_of_notification Scenario.listener 1700000000 Scenario.notification_no_mac
          = Some Scenario.lease_no_mac) as H by (vm_compute; reflexivity).
  split; [exact H|].
  exact (notification_address_round_trip _ _ _ _ _ H eq_refl).
Defined.

(** ** Hostname functions *)

Section Hostnames.

Lemma int_of_digits_nonneg s : 0 ≤ int_of_digits s.
Proof. unfold int_of_digits. apply int_digits_acc_nonneg. lia. Qed.

Lemma elem_of_py_range_set u lo hi : u ∈ py_range_set lo hi ↔ lo ≤ u < hi.
Proof.
  unfold py_range_set. rewrite elem_of_list_to_set, elem_of_seqZ. lia.
Qed.




Lemma endswith_refl s : endswith s s = true.
Proof. destruct s; simpl; [reflexivity|]. rewrite Ascii.eqb_refl, String.eqb_refl. reflexivity. Qed.

Lemma endswith_tail c suf s : endswith (String c suf) s = true → endswith suf s = true.
Proof.
  induction s as [|a s IH].
  - simpl. discriminate.
  - cbn [endswith]. destruct (String.eqb_spec (String c suf) (String a s)) as [E|_].
    + injection E as <- <-. intros _.
      destruct (String.eqb suf (String c suf)); [reflexivity | apply endswith_refl].
    + intros H. rewrite (IH H). destruct (String.eqb suf (String a s)); reflexivity.
Qed.

Lemma startswith_refl s : startswith s s = true.
Proof. induction s as [|c s IH]; simpl; [reflexivity|]. rewrite Ascii.eqb_refl. exact IH. Qed.

Lemma endswith_contains suf s : endswith suf s = true → contains suf s = true.
Proof.
  induction s as [|a s IH].
  - simpl. destruct (String.eqb_spec suf "") as [->|_]; [reflexivity | discriminate].
  - cbn [endswith contains]. destruct (String.eqb_spec suf (String a s)) as [->|_].
    + intros _. rewrite startswith_refl. reflexivity.
    + intros H. rewrite (IH H). destruct (startswith suf (String a s)); reflexivity.
Qed.

End Hostnames.

(** X15. The three rack-unit functions agree on every hostname: the display
    string is empty exactly when the set of units is empty; every unit of
    the set lies between 0 and the value used as sort key, and that value is
    itself a unit of the set whenever the set is not empty. *)
Theorem rack_unit_functions_agree (h : string) :
  (_get_rack_unit_range h = ∅ ↔ _format_rack_unit h = "")
  ∧ (∀ u, u ∈ _get_rack_unit_range h → 0 ≤ u ≤ _extract_rack_unit h)
  ∧ (_get_rack_unit_range h ≠ ∅ → _extract_rack_unit h ∈ _get_rack_unit_range h).
Proof.
  unfold _get_rack_unit_range, _format_rack_unit, _extract_rack_unit. cbv zeta.
  destruct (negb (truthy h)).
  { split; [tauto|]. split; [intros u Hu; apply not_elem_of_empty in Hu; contradiction|].
    congruence. }
  destruct (Regex.search_ru (lower h)) as [[g1 g2]|].
  2:{ split; [tauto|]. split; [intros u Hu; apply not_elem_of_empty in Hu; contradiction|].
      congruence. }
  pose proof (int_of_digits_nonneg g1) as H1.
  assert (0 ≤ match g2 with Some d => int_of_digits d | None => int_of_digits g1 end) as H2
    by (destruct g2; [apply int_of_digits_nonneg | assumption]).
  set (a := int_of_digits g1) in *.
  set (b := match g2 with Some d => int_of_digits d | None => a end) in *.
  assert (Z.max a b ∈ py_range_set (Z.min a b) (Z.max a b + 1)) as Hmax
    by (apply elem_of_py_range_set; generalize a b; intros; lia).
  split; [|split].
  - split.
    + intros E. rewrite E in Hmax. apply not_elem_of_empty in Hmax. contradiction.
    + intros E. exfalso. destruct g2 as [d|]; simpl in E;
        [destruct (negb (int_of_digits d =? 0))|]; discriminate E.
  - intros u Hu. apply elem_of_py_range_set in Hu. clearbody b. clearbody a. lia.
  - intros _. exact Hmax.
Qed.

Lemma rack_unit_functions_agree_witness :
  _get_rack_unit_range "us3-cab10-ru7-9-idrac" ≠ ∅
  ∧ _extract_rack_unit "us3-cab10-ru7-9-idrac" ∈ _get_rack_unit_range "us3-cab10-ru7-9-idrac".
Proof.
  assert (_get_rack_unit_range "us3-cab10-ru7-9-idrac" ≠ ∅) as H.
  { intros E. assert (9 ∈ _get_rack_unit_range "us3-cab10-ru7-9-idrac") as H9
      by (vm_compute; reflexivity).
    rewrite E in H9. apply not_elem_of_empty in H9. exact H9. }
  split; [exact H|].
  exact (proj2 (proj2 (rack_unit_functions_agree "us3-cab10-ru7-9-idrac")) H).
Defined.


(** X17. The manufacturer is decided by three tests on the lower-case
    hostname, in this order: it contains "idrac" (Dell), it contains "ilo"
    (HP), it ends with "bmc" (Supermicro); otherwise, and for an empty
    hostname, it is Unknown.  So a hostname ending in -bmc that contains
    "ilo" is HP. *)
Theorem detect_manufacturer_order (h : string) :
  _detect_manufacturer h =
    (if negb (truthy h) then "Unknown"
     else if contains "idrac" (lower h) then "Dell"
     else if contains "ilo" (lower h) then "HP"
     else if endswith "bmc" (lower h) then "Supermicro"
     else "Unknown")
  ∧ _detect_manufacturer "us3-cab10-ru5-silo-bmc" = "HP".
Proof.
  split; [|vm_compute; reflexivity].
  unfold _detect_manufacturer. destruct (negb (truthy h)); [reflexivity|].
  assert (∀ x s, endswith (String "-" x) s = true → contains x s = true) as Hsub.
  { intros x s H. apply endswith_contains, (endswith_tail "-"). exact H. }
  destruct (contains "idrac" (lower h)) eqn:E1.
  - rewrite orb_true_r. reflexivity.
  - destruct (endswith "-idrac" (lower h)) eqn:E1'; [apply Hsub in E1'; congruence|].
    simpl. destruct (contains "ilo" (lower h)) eqn:E2.
    + rewrite orb_true_r. reflexivity.
    + destruct (endswith "-ilo" (lower h)) eqn:E2'; [apply Hsub in E2'; congruence|].
      simpl. destruct (endswith "bmc" (lower h)) eqn:E3.
      * rewrite orb_true_r. reflexivity.
      * destruct (endswith "-bmc" (lower h)) eqn:E3';
          [apply (endswith_tail "-") in E3'; congruence | reflexivity].
Qed.

(** ** Cabinet keys, groups and files *)

(** X18. When [_extract_site_and_cabinet] answers (site, cabinet), the site
    is one of us1..us4 and dv, the cabinet is "cab" followed by a non-empty
    run of digits taken as they are written, and the lower-case hostname
    starts with site-cabinet-. *)
Theorem cabinet_key_sound (lease : DHCPLease) (site cabinet : string) :
  _extract_site_and_cabinet lease = Some (site, cabinet) →
  site ∈ Regex.site_codes
  ∧ ∃ num rest,
      cabinet = "cab" +:+ num ∧ num ≠ "" ∧ digits_only num = true
      ∧ lower (or_empty (hostname lease)) = site +:+ "-" +:+ cabinet +:+ "-" +:+ rest.
Proof.
  unfold _extract_site_and_cabinet.
  destruct (negb (truthy_opt (hostname lease))); [discriminate|].
  unfold Regex.match_site_cabinet.
  destruct (Regex.site_at _) as [[s rest]|] eqn:Hs; [|discriminate].
  apply site_at_Some in Hs as [Hsite Heq].
  destruct (Regex.strip_prefix "-cab" rest) as [r1|] eqn:H1; [|discriminate].
  apply strip_prefix_Some in H1 as ->.
  destruct (Regex.digits1 r1) as [[num r2]|] eqn:H2; [|discriminate].
  assert (digits_only num = true) as Hdig.
  { unfold Regex.digits1 in H2.
    assert (∀ t, digits_only (span_digits t).1 = true) as Hspan.
    { induction t as [|c t IH]; simpl; [reflexivity|].
      destruct (is_digit c) eqn:Hc; [|reflexivity].
      destruct (span_digits t) as [d r]. simpl in *. rewrite Hc. exact IH. }
    specialize (Hspan r1). destruct (span_digits r1) as [d r]. simpl in Hspan.
    destruct (truthy d); [|discriminate]. injection H2 as <- _. exact Hspan. }
  apply digits1_Some in H2 as (-> & Hne & _ & _).
  destruct (Regex.strip_prefix "-" r2) as [r3|] eqn:H3; [|discriminate].
  apply strip_prefix_Some in H3 as ->.
  intros [= <- <-]. split; [exact Hsite|].
  exists num, r3. split; [reflexivity|]. split; [exact Hne|]. split; [exact Hdig|].
  rewrite Heq. simpl. rewrite ?string_app_assoc. reflexivity.
Qed.

Lemma cabinet_key_sound_witness :
  _extract_site_and_cabinet Scenario.lease_ru7 = Some ("us3", "cab10")
  ∧ "us3" ∈ Regex.site_codes.
Proof.
  assert (_extract_site_and_cabinet Scenario.lease_ru7 = Some ("us3", "cab10")) as H
    by (vm_compute; reflexivity).
  split; [exact H|].
  exact (proj1 (cabinet_key_sound _ _ _ H)).
Defined.

Section Groups.

Lemma group_fold_get leases acc key :
  default [] (dict_get (fold_left group_step leases acc) key)
  = default [] (dict_get acc key)
    ++ List.filter (λ l, bool_decide (_extract_site_and_cabinet l = Some key)) leases.
Proof.
  revert acc. induction leases as [|l leases IH]; intros acc; simpl.
  - rewrite app_nil_r. reflexivity.
  - rewrite IH. unfold group_step.
    destruct (_extract_site_and_cabinet l) as [k|] eqn:E.
    + rewrite dict_append_get. destruct (decide (k = key)) as [->|Hne].
      * rewrite bool_decide_eq_true_2 by reflexivity. rewrite <- app_assoc. reflexivity.
      * rewrite bool_decide_eq_false_2 by congruence. rewrite app_nil_r. reflexivity.
    + rewrite bool_decide_eq_false_2 by discriminate. reflexivity.
Qed.

Lemma group_fold_keys leases acc :
  NoDup (dict_keys acc) → (∀ k g, (k, g) ∈ acc → g ≠ []) →
  NoDup (dict_keys (fold_left group_step leases acc))
  ∧ ∀ k g, (k, g) ∈ fold_left group_step leases acc → g ≠ [].
Proof.
  revert acc. induction leases as [|l leases IH]; intros acc Hnd Hne; simpl; [auto|].
  apply IH; unfold group_step; destruct (_extract_site_and_cabinet l) as [k|]; try assumption.
  - apply dict_append_keys_NoDup. assumption.
  - intros k' g Hin. unfold dict_append in Hin.
    destruct (dict_get acc k) as [g0|];
      apply dict_set_elem in Hin as [[= -> ->]|Hin]; try (eapply Hne; eassumption).
    + destruct g0; discriminate.
    + discriminate.
Qed.

Lemma dict_elem_get_key {K V} `{EqDecision K} (m : list (K * V)) k v :
  NoDup (dict_keys m) → (k, v) ∈ m → dict_get m k = Some v.
Proof.
  unfold dict_keys. induction m as [|[k0 v0] m IH]; simpl; intros Hnd Hin.
  - apply elem_of_nil in Hin. contradiction.
  - apply NoDup_cons in Hnd as [Hk Hnd].
    apply elem_of_cons in Hin as [[= -> ->]|Hin].
    + rewrite decide_True; reflexivity.
    + destruct (decide (k0 = k)) as [->|Hne]; [|auto].
      exfalso. apply Hk. apply list_elem_of_fmap. exists (k, v). auto.
Qed.

Lemma group_leases_keys leases :
  NoDup (dict_keys (group_leases leases))
  ∧ ∀ k g, (k, g) ∈ group_leases leases → g ≠ [].
Proof.
  apply group_fold_keys; [apply NoDup_nil_2|].
  intros k g H. apply elem_of_nil in H. contradiction.
Qed.

Lemma group_leases_elem leases key group :
  (key, group) ∈ group_leases leases →
  group = List.filter (λ l, bool_decide (_extract_site_and_cabinet l = Some key)) leases.
Proof.
  intros Hin. pose proof (group_fold_get leases [] key) as Hget.
  fold (group_leases leases) in Hget.
  rewrite (dict_elem_get_key _ _ _ (proj1 (group_leases_keys leases)) Hin) in Hget.
  exact Hget.
Qed.

Lemma group_leases_covers leases l key :
  l ∈ leases → _extract_site_and_cabinet l = Some key →
  ∃ group, (key, group) ∈ group_leases leases ∧ l ∈ group.
Proof.
  intros Hl Hkey. pose proof (group_fold_get leases [] key) as Hget.
  fold (group_leases leases) in Hget. simpl in Hget.
  assert (l ∈ List.filter (λ l, bool_decide (_extract_site_and_cabinet l = Some key)) leases)
    as Hf.
  { apply list_elem_of_In, filter_In. split; [apply list_elem_of_In; exact Hl|].
    apply bool_decide_eq_true_2. exact Hkey. }
  rewrite <- Hget in Hf.
  destruct (dict_get (group_leases leases) key) as [g|] eqn:E.
  - exists g. split; [apply dict_get_elem; exact E | exact Hf].
  - apply elem_of_nil in Hf. contradiction.
Qed.

End Groups.

(** X19. The grouping loop of [generate_batch_inventory] partitions the
    leases that match the convention: there is one group per (site, cabinet)
    key, no group is empty, the group of a key is the list of the leases
    with that key in the order of the batch, and every matching lease is in
    the group of its key. *)
Theorem group_leases_partition (leases : list DHCPLease) :
  NoDup (dict_keys (group_leases leases))
  ∧ (∀ key group, (key, group) ∈ group_leases leases →
       group ≠ []
       ∧ group = List.filter
                   (λ l, bool_decide (_extract_site_and_cabinet l = Some key)) leases)
  ∧ (∀ l key, l ∈ leases → _extract_site_and_cabinet l = Some key →
       ∃ group, (key, group) ∈ group_leases leases ∧ l ∈ group).
Proof.
  split; [apply group_leases_keys|]. split.
  - intros key group Hin. split.
    + eapply (proj2 (group_leases_keys leases)). exact Hin.
    + apply group_leases_elem. exact Hin.
  - intros l key. apply group_leases_covers.
Qed.

Section Coverage.
Variables (env : Env) (self : LeaseProcessor).

Lemma dict_set_keys_elem {V} (d : list (string * V)) k v x :
  x ∈ dict_keys (dict_set d k v) ↔ x = k ∨ x ∈ dict_keys d.
Proof.
  unfold dict_keys. induction d as [|[k0 v0] d IH]; simpl.
  - rewrite list_elem_of_singleton. split; [auto|]. intros [H|H]; [exact H|].
    apply elem_of_nil in H. contradiction.
  - destruct (decide (k0 = k)) as [->|Hne]; simpl; rewrite !elem_of_cons.
    + tauto.
    + rewrite IH. tauto.
Qed.

Lemma fold_dict_set_keys {X V} (k : X → string) (v : X → V) (l : list X) m x :
  x ∈ dict_keys (fold_left (λ m y, dict_set m (k y) (v y)) l m)
  ↔ x ∈ dict_keys m ∨ x ∈ map k l.
Proof.
  revert m. induction l as [|y l IH]; intros m; simpl.
  - split; [auto|]. intros [H|H]; [exact H|]. apply elem_of_nil in H. contradiction.
  - rewrite IH, dict_set_keys_elem, elem_of_cons. tauto.
Qed.

Lemma load_existing_keys file ip :
  ip ∈ dict_keys (load_existing env self file)
  ↔ ip ∈ map t_ip match file with
                  | Some (YamlDoc inv) => default [] (bmc_targets inv)
                  | _ => []
                  end.
Proof.
  unfold load_existing. destruct file as [[| |inv]|]; try reflexivity.
  destruct (bmc_targets inv) as [targets|]; [|reflexivity]. simpl.
  match goal with |- context [if ?b then _ else _] => destruct b end.
  - rewrite (fold_dict_set_keys t_ip details_of_target). split; [|auto].
    intros [H|H]; [|exact H]. apply elem_of_nil in H. contradiction.
  - match goal with
    | |- context [_query_lease_details env self _ ?c] =>
        rewrite (fold_dict_set_keys id (λ ip, _query_lease_details env self ip c))
    end.
    rewrite map_id. split; [|auto].
    intros [H|H]; [|exact H]. apply elem_of_nil in H. contradiction.
Qed.

Lemma merge_leases_keys leases s ip :
  ip ∈ dict_keys (existing_bmc_map (merge_leases env self s leases))
  ↔ ip ∈ dict_keys (existing_bmc_map s) ∨ ip ∈ map ip_address leases.
Proof.
  unfold merge_leases. revert s. induction leases as [|l leases IH]; intros s; simpl.
  - split; [auto|]. intros [H|H]; [exact H|]. apply elem_of_nil in H. contradiction.
  - rewrite IH, merge_lease_map, elem_of_cons. unfold dict_mem.
    destruct (dict_get (existing_bmc_map s) (ip_address l)) as [d|] eqn:E.
    + split; [tauto|]. intros [H|[->|H]]; auto.
      left. apply dict_get_elem in E. apply list_elem_of_fmap.
      exists (ip_address l, d). auto.
    + rewrite dict_set_keys_elem. tauto.
Qed.

Lemma update_cabinet_ips site cabinet leases w f ip :
  ip ∈ map t_ip (targets_of (_update_cabinet_inventory env self site cabinet leases w).2 f)
  ↔ ip ∈ map t_ip (targets_of w f)
    ∨ (f = inventory_file_name site cabinet ∧ ip ∈ map ip_address leases).
Proof.
  destruct (decide (f = inventory_file_name site cabinet)) as [->|Hne].
  - rewrite update_cabinet_targets, sort_targets_perm, build_targets_ips.
    unfold merged_map. rewrite merge_leases_keys. simpl.
    unfold loaded_map. rewrite load_existing_keys. unfold targets_of. tauto.
  - unfold targets_of, _update_cabinet_inventory. simpl.
    rewrite lookup_insert_ne by congruence. tauto.
Qed.

Lemma batch_step_eq upd w site cabinet g :
  batch_step env self (upd, w) ((site, cabinet), g)
  = (upd ++ [inventory_file_name site cabinet],
     (_update_cabinet_inventory env self site cabinet g w).2).
Proof. reflexivity. Qed.


Lemma batch_fold_ips grouped upd w f ip :
  ip ∈ map t_ip (targets_of (fold_left (batch_step env self) grouped (upd, w)).2 f)
  ↔ ip ∈ map t_ip (targets_of w f)
    ∨ ∃ key g, (key, g) ∈ grouped ∧ f = group_file (key, g) ∧ ip ∈ map ip_address g.
Proof.
  revert upd w. induction grouped as [|[[site cabinet] g] grouped IH]; intros upd w.
  - simpl. split; [auto|]. intros [H|(key & g & H & _)]; [exact H|].
    apply elem_of_nil in H. contradiction.
  - cbn [fold_left]. rewrite (batch_step_eq upd w site cabinet g).
    rewrite IH, update_cabinet_ips. split.
    + intros [[H|[-> H]]|(key & g' & Hin & Hf & H)].
      * left. exact H.
      * right. exists (site, cabinet), g. split; [left|]. auto.
      * right. exists key, g'. split; [right; exact Hin|]. auto.
    + intros [H|(key & g' & Hin & Hf & H)]; [auto|].
      apply elem_of_cons in Hin as [[= -> ->]|Hin].
      * left. right. auto.
      * right. exists key, g'. auto.
Qed.


Lemma generate_batch_inventory_empty leases w :
  group_leases leases = [] → generate_batch_inventory env self leases w = (None, w).
Proof.
  intros E. rewrite generate_batch_inventory_unfold.
  destruct leases; [reflexivity|]. rewrite E. reflexivity.
Qed.

Lemma generate_batch_inventory_nonempty leases w :
  group_leases leases ≠ [] →
  generate_batch_inventory env self leases w
  = let r := fold_left (batch_step env self) (group_leases leases) ([], w) in
    (last r.1, r.2).
Proof.
  intros Hne. rewrite generate_batch_inventory_unfold.
  destruct leases as [|l leases]; [contradiction Hne; reflexivity|].
  destruct (group_leases (l :: leases)); [contradiction Hne; reflexivity | reflexivity].
Qed.

End Coverage.


(** X21. The file written by [_update_cabinet_inventory] lists every
    address once: the addresses of its targets are those of the targets of
    the file that was there together with those of the leases handed in,
    without repetition, and [total_count] is their number. *)
Theorem cabinet_file_lists_each_address_once (env : Env) (self : LeaseProcessor)
    (site cabinet : string) (leases : list DHCPLease) (w : World) :
  let name := inventory_file_name site cabinet in
  let w' := (_update_cabinet_inventory env self site cabinet leases w).2 in
  NoDup (map t_ip (targets_of w' name))
  ∧ (∀ ip, ip ∈ map t_ip (targets_of w' name)
           ↔ ip ∈ map t_ip (targets_of w name) ∨ ip ∈ map ip_address leases)
  ∧ ∃ inv md, files w' !! name = Some (YamlDoc inv) ∧ metadata inv = Some md
              ∧ total_count md = Z.of_nat (length (targets_of w' name)).
Proof.
  cbv zeta. split; [|split].
  - rewrite update_cabinet_targets, sort_targets_perm, build_targets_ips.
    apply merged_map_NoDup.
  - intros ip. rewrite update_cabinet_ips. split.
    + intros [H|[_ H]]; auto.
    + intros [H|H]; auto.
  - rewrite update_cabinet_targets, update_cabinet_file.
    eexists. eexists. split; [reflexivity|]. split; reflexivity.
Qed.

(** X22. After [generate_batch_inventory], the targets of any inventory
    file carry the addresses that the file had before and the addresses of
    the leases of the batch whose hostname names that cabinet, and no
    others: no address is ever dropped from a file, and a lease is recorded
    in the file of its own cabinet only. *)
Theorem batch_inventory_addresses (env : Env) (self : LeaseProcessor)
    (leases : list DHCPLease) (w : World) (f ip : string) :
  ip ∈ map t_ip (targets_of (generate_batch_inventory env self leases w).2 f)
  ↔ ip ∈ map t_ip (targets_of w f)
    ∨ ∃ l site cabinet,
        l ∈ leases ∧ _extract_site_and_cabinet l = Some (site, cabinet)
        ∧ f = inventory_file_name site cabinet ∧ ip_address l = ip.
Proof.
  assert ((∃ l site cabinet,
             l ∈ leases ∧ _extract_site_and_cabinet l = Some (site, cabinet)
             ∧ f = inventory_file_name site cabinet ∧ ip_address l = ip)
          ↔ ∃ key g, (key, g) ∈ group_leases leases ∧ f = group_file (key, g)
                     ∧ ip ∈ map ip_address g) as Hgroups.
  { split.
    - intros (l & site & cabinet & Hl & Hk & -> & <-).
      destruct (group_leases_covers leases l _ Hl Hk) as (g & Hin & Hlg).
      exists (site, cabinet), g. split; [exact Hin|]. split; [reflexivity|].
      apply list_elem_of_fmap. exists l. auto.
    - intros ([site cabinet] & g & Hin & -> & Hip).
      apply list_elem_of_fmap in Hip as (l & -> & Hl).
      apply group_leases_elem in Hin. rewrite Hin in Hl.
      apply list_elem_of_In, filter_In in Hl as [Hl Hk].
      apply bool_decide_eq_true in Hk. apply list_elem_of_In in Hl.
      exists l, site, cabinet. auto. }
  rewrite Hgroups.
  destruct (decide (group_leases leases = [])) as [E|Hne].
  - rewrite (generate_batch_inventory_empty env self leases w E), E. simpl.
    split; [auto|]. intros [H|(key & g & H & _)]; [exact H|].
    apply elem_of_nil in H. contradiction.
  - rewrite (generate_batch_inventory_nonempty env self leases w Hne).
    cbv zeta. simpl snd. apply batch_fold_ips.
Qed.

(** ** The three conflict tables *)

Section Tables.

Lemma hostname_to_ips_fold targets acc h :
  default [] (dict_get
     (fold_left (λ acc target,
          let h := default "" (t_hostname target) in
          if truthy h then dict_append acc h (t_ip target) else acc) targets acc) h)
  = default [] (dict_get acc h) ++ ips_with_hostname h targets.
Proof.
  unfold ips_with_hostname.
  revert acc. induction targets as [|t targets IH]; intros acc; simpl.
  - rewrite app_nil_r. reflexivity.
  - rewrite IH. unfold has_hostname at 2.
    destruct (truthy (default "" (t_hostname t))) eqn:Ht; simpl; [|reflexivity].
    rewrite dict_append_get.
    destruct (decide (default "" (t_hostname t) = h)) as [->|Hne].
    + rewrite String.eqb_refl. simpl. rewrite <- app_assoc. reflexivity.
    + apply String.eqb_neq in Hne. rewrite Hne, app_nil_r. reflexivity.
Qed.

Lemma hostname_to_ips_NoDup targets : NoDup (dict_keys (hostname_to_ips_of targets)).
Proof.
  unfold hostname_to_ips_of.
  assert (∀ acc : list (string * list string), NoDup (dict_keys acc) →
            NoDup (dict_keys (fold_left (λ acc target,
                let h := default "" (t_hostname target) in
                if truthy h then dict_append acc h (t_ip target) else acc)
              targets acc))) as H.
  { induction targets as [|t targets IH]; intros acc Hacc; simpl; [assumption|].
    apply IH. destruct (truthy _); [apply dict_append_keys_NoDup|]; assumption. }
  apply H. apply NoDup_nil_2.
Qed.

Lemma multi_append_get {K V} `{EqDecision K} (ks : list K) (v : V)
    (acc : list (K * list V)) k :
  NoDup ks →
  default [] (dict_get (fold_left (λ acc' k', dict_append acc' k' v) ks acc) k)
  = default [] (dict_get acc k) ++ (if bool_decide (k ∈ ks) then [v] else []).
Proof.
  revert acc. induction ks as [|a ks IH]; intros acc Hnd; simpl.
  - rewrite app_nil_r. reflexivity.
  - apply NoDup_cons in Hnd as [Ha Hnd]. rewrite (IH _ Hnd), dict_append_get.
    destruct (decide (a = k)) as [->|Hne].
    + rewrite (bool_decide_eq_false_2 (k ∈ ks)) by assumption.
      rewrite bool_decide_eq_true_2 by left. rewrite app_nil_r. reflexivity.
    + rewrite app_nil_r. destruct (decide (k ∈ ks)) as [Hin|Hin].
      * rewrite !bool_decide_eq_true_2; [reflexivity | right; exact Hin | exact Hin].
      * rewrite !bool_decide_eq_false_2; [reflexivity | | exact Hin].
        intros H'. apply elem_of_cons in H' as [->|H']; [congruence | contradiction].
Qed.

Lemma multi_append_keys_NoDup {K V} `{EqDecision K} (ks : list K) (v : V)
    (acc : list (K * list V)) :
  NoDup (dict_keys acc) →
  NoDup (dict_keys (fold_left (λ acc' k', dict_append acc' k' v) ks acc)).
Proof.
  revert acc. induction ks as [|a ks IH]; intros acc Hnd; simpl; [assumption|].
  apply IH. apply dict_append_keys_NoDup. assumption.
Qed.

Lemma rack_unit_range_falsy h : truthy h = false → _get_rack_unit_range h = ∅.
Proof. intros H. unfold _get_rack_unit_range. rewrite H. reflexivity. Qed.

Lemma ru_usage_fold targets acc ru :
  default [] (dict_get
     (fold_left (λ acc target,
          let h := default "" (t_hostname target) in
          if truthy h then
            fold_left (λ acc' ru, dict_append acc' ru (t_ip target, h))
                      (elements (_get_rack_unit_range h)) acc
          else acc) targets acc) ru)
  = default [] (dict_get acc ru) ++ devices_on_unit ru targets.
Proof.
  unfold devices_on_unit.
  revert acc. induction targets as [|t targets IH]; intros acc; simpl.
  - rewrite app_nil_r. reflexivity.
  - rewrite IH. unfold claims_unit at 2.
    destruct (truthy (default "" (t_hostname t))) eqn:Ht.
    + rewrite multi_append_get by apply NoDup_elements.
      destruct (decide (ru ∈ _get_rack_unit_range (default "" (t_hostname t)))) as [Hin|Hin].
      * rewrite !bool_decide_eq_true_2;
          [| exact Hin | apply elem_of_elements; exact Hin].
        simpl. rewrite <- app_assoc. reflexivity.
      * rewrite !bool_decide_eq_false_2;
          [| exact Hin | rewrite elem_of_elements; exact Hin].
        rewrite app_nil_r. reflexivity.
    + rewrite (rack_unit_range_falsy _ Ht).
      rewrite bool_decide_eq_false_2 by apply not_elem_of_empty. reflexivity.
Qed.

Lemma ru_usage_NoDup targets : NoDup (dict_keys (ru_usage_of targets)).
Proof.
  unfold ru_usage_of.
  assert (∀ acc : list (Z * list (string * string)), NoDup (dict_keys acc) →
            NoDup (dict_keys (fold_left (λ acc target,
                let h := default "" (t_hostname target) in
                if truthy h then
                  fold_left (λ acc' ru, dict_append acc' ru (t_ip target, h))
                            (elements (_get_rack_unit_range h)) acc
                else acc)
              targets acc))) as H.
  { induction targets as [|t targets IH]; intros acc Hacc; simpl; [assumption|].
    apply IH. destruct (truthy _); [apply multi_append_keys_NoDup|]; assumption. }
  apply H. apply NoDup_nil_2.
Qed.

(** The warnings of one table: one for each key with several entries. *)
Lemma table_warnings {K V} `{EqDecision K} (mk : K → list V → LogRecord)
    (g : K * list V → option LogRecord) (d : list (K * list V)) (content : K → list V) :
  (∀ k vs, g (k, vs) = if more_than_one vs then Some (mk k vs) else None) →
  NoDup (dict_keys d) → (∀ k, default [] (dict_get d k) = content k) →
  ∀ r, r ∈ omap g d
       ↔ ∃ k, more_than_one (content k) = true ∧ r = mk k (content k).
Proof.
  intros Hg Hnd Hc r. rewrite list_elem_of_omap. split.
  - intros ([k vs] & Hin & Hr). rewrite Hg in Hr.
    destruct (more_than_one vs) eqn:Hm; [|discriminate]. injection Hr as <-.
    apply (dict_elem_get_key _ _ _ Hnd) in Hin.
    specialize (Hc k). rewrite Hin in Hc. simpl in Hc. subst vs. eauto.
  - intros (k & Hm & ->). specialize (Hc k).
    destruct (dict_get d k) as [vs|] eqn:E; simpl in Hc.
    + exists (k, vs). split; [apply dict_get_elem; exact E|].
      rewrite Hg. subst vs. rewrite Hm. reflexivity.
    + rewrite <- Hc in Hm. discriminate.
Qed.

Lemma mac_conflicts_elem site cabinet targets r :
  r ∈ mac_conflicts site cabinet targets
  ↔ ∃ m, more_than_one (ips_with_mac m targets) = true
         ∧ r = MacConflict (upper site) (upper cabinet) m
                 (py_sorted str_lt false (ips_with_mac m targets)).
Proof.
  unfold mac_conflicts.
  apply (table_warnings
           (λ m ips, MacConflict (upper site) (upper cabinet) m (py_sorted str_lt false ips))).
  - intros k vs. reflexivity.
  - apply mac_to_ips_NoDup.
  - intros m. apply mac_to_ips_get.
Qed.

Lemma hostname_conflicts_elem site cabinet targets r :
  r ∈ hostname_conflicts site cabinet targets
  ↔ ∃ h, more_than_one (ips_with_hostname h targets) = true
         ∧ r = HostnameConflict (upper site) (upper cabinet) h
                 (py_sorted str_lt false (ips_with_hostname h targets)).
Proof.
  unfold hostname_conflicts.
  apply (table_warnings
           (λ h ips, HostnameConflict (upper site) (upper cabinet) h
                       (py_sorted str_lt false ips))).
  - intros k vs. reflexivity.
  - apply hostname_to_ips_NoDup.
  - intros h. unfold hostname_to_ips_of. rewrite hostname_to_ips_fold. reflexivity.
Qed.

Lemma rack_unit_conflicts_elem site cabinet targets r :
  r ∈ rack_unit_conflicts site cabinet targets
  ↔ ∃ ru, more_than_one (devices_on_unit ru targets) = true
          ∧ r = RackUnitConflict (upper site) (upper cabinet) ru
                  (py_sorted pair_lt false (devices_on_unit ru targets)).
Proof.
  unfold rack_unit_conflicts.
  apply (table_warnings
           (λ ru devices, RackUnitConflict (upper site) (upper cabinet) ru
                            (py_sorted pair_lt false devices))).
  - intros k vs. reflexivity.
  - apply ru_usage_NoDup.
  - intros ru. unfold ru_usage_of. rewrite ru_usage_fold. reflexivity.
Qed.

Lemma list_nil_iff {X} (l : list X) : l = [] ↔ ∀ x, x ∉ l.
Proof.
  split; [intros -> x; apply not_elem_of_nil|].
  destruct l as [|x l]; [reflexivity|]. intros H. exfalso. apply (H x). left.
Qed.

Lemma conflict_tables_nil site cabinet targets :
  mac_conflicts site cabinet targets ++ hostname_conflicts site cabinet targets
    ++ rack_unit_conflicts site cabinet targets = []
  ↔ conflict_free targets.
Proof.
  unfold conflict_free. split.
  - intros H. apply app_eq_nil in H as [Hm H]. apply app_eq_nil in H as [Hh Hr].
    split; [|split].
    + intros m. destruct (more_than_one (ips_with_mac m targets)) eqn:E; [|reflexivity].
      exfalso. eapply (proj1 (list_nil_iff _) Hm).
      apply mac_conflicts_elem. eauto.
    + intros h. destruct (more_than_one (ips_with_hostname h targets)) eqn:E; [|reflexivity].
      exfalso. eapply (proj1 (list_nil_iff _) Hh).
      apply hostname_conflicts_elem. eauto.
    + intros ru. destruct (more_than_one (devices_on_unit ru targets)) eqn:E; [|reflexivity].
      exfalso. eapply (proj1 (list_nil_iff _) Hr).
      apply rack_unit_conflicts_elem. eauto.
  - intros (Hm & Hh & Hr).
    assert (mac_conflicts site cabinet targets = []) as ->.
    { apply list_nil_iff. intros r Hin. apply mac_conflicts_elem in Hin as (m & E & _).
      rewrite Hm in E. discriminate. }
    assert (hostname_conflicts site cabinet targets = []) as ->.
    { apply list_nil_iff. intros r Hin. apply hostname_conflicts_elem in Hin as (h & E & _).
      rewrite Hh in E. discriminate. }
    apply list_nil_iff. intros r Hin. apply rack_unit_conflicts_elem in Hin as (ru & E & _).
    rewrite Hr in E. discriminate.
Qed.

End Tables.


(** X24. [_validate_bmc_conflicts] logs nothing exactly when no mac, no
    hostname and no rack unit is shared by two targets of the cabinet,
    a hostname claiming every unit of [_get_rack_unit_range]. *)
Theorem quiet_iff_conflict_free (targets : list BmcTarget) (site cabinet : string) :
  _validate_bmc_conflicts targets site cabinet = [] ↔ conflict_free targets.
Proof.
  rewrite <- (conflict_tables_nil site cabinet).
  unfold _validate_bmc_conflicts. cbv zeta.
  destruct (mac_conflicts site cabinet targets ++ hostname_conflicts site cabinet targets
            ++ rack_unit_conflicts site cabinet targets) as [|r0 rest] eqn:E.
  - split; reflexivity.
  - split; [|discriminate]. intros H. apply app_eq_nil in H as [_ H]. discriminate.
Qed.

(** ** The order of the written targets *)

(** X25. The order in which [bmc_targets.sort] leaves the targets depends
    on the targets only, not on the order in which the dictionary yielded
    them: two lists with the same targets, each address once, are sorted to
    the same list. *)
Theorem sort_targets_order_independent (l1 l2 : list BmcTarget) :
  l1 ≡ₚ l2 → NoDup (map t_ip l1) → sort_targets l1 = sort_targets l2.
Proof.
  intros Hperm Hnd.
  apply (StronglySorted_unique_strong (λ a b, key_ge (sort_key a) (sort_key b)));
    [| apply sort_targets_sorted | apply sort_targets_sorted
     | rewrite !sort_targets_perm; exact Hperm].
  intros x1 x2 H1 H2 H12 H21.
  rewrite sort_targets_perm in H1, H2. rewrite <- Hperm in H2.
  apply key_lt_ge in H12, H21.
  pose proof (key_ge_antisym _ _ H12 H21) as Hk.
  assert (t_ip x1 = t_ip x2) as Hip by (unfold sort_key in Hk; congruence).
  apply list_elem_of_lookup in H1 as [i Hi], H2 as [j Hj].
  assert (i = j) as ->.
  { eapply NoDup_lookup; [exact Hnd | |]; rewrite list_lookup_fmap.
    - rewrite Hi. reflexivity.
    - rewrite Hj. simpl. congruence. }
  congruence.
Qed.

Lemma sort_targets_order_independent_witness :
  sort_targets [Scenario.ru3; Scenario.unnamed; Scenario.ru9]
  = sort_targets [Scenario.unnamed; Scenario.ru3; Scenario.ru9].
Proof.
  apply sort_targets_order_independent.
  - apply perm_swap.
  - apply (@bool_decide_unpack _ (NoDup_dec _)). vm_compute. exact I.
Defined.

(** ** From the notification to the reservation key *)

Section MacKey.

Lemma chunks2_nil s : chunks2 s = [] → s = "".
Proof. destruct s as [|a [|b s]]; simpl; [reflexivity | discriminate | discriminate]. Qed.

Lemma remove_join_chunks2 s :
  remove_char ":" (join ":" (chunks2 s)) = remove_char ":" s.
Proof.
  assert (∀ s, remove_char ":" (join ":" (chunks2 s)) = remove_char ":" s
               ∧ ∀ a, remove_char ":" (join ":" (chunks2 (String a s)))
                      = remove_char ":" (String a s)) as H.
  { clear s. induction s as [|b s [IH1 IH2]].
    - split; [reflexivity | intros a; reflexivity].
    - split; [apply IH2|]. intros a.
      change (chunks2 (String a (String b s)))
        with (String a (String b EmptyString) :: chunks2 s).
      destruct (chunks2 s) as [|x l] eqn:E.
      + apply chunks2_nil in E. subst s. reflexivity.
      + change (join ":" (String a (String b EmptyString) :: x :: l))
          with (String a (String b (String ":" (join ":" (x :: l))))).
        cbn [remove_char]. rewrite Ascii.eqb_refl.
        destruct (Ascii.eqb a ":"), (Ascii.eqb b ":"); rewrite IH1; reflexivity. }
  apply H.
Qed.

Lemma lease_of_notification_mac self clock p l :
  lease_of_notification self clock p = Some l →
  mac_address l
  = if truthy_opt (n_dhcp_identifier p)
    then Some (join ":" (chunks2 (or_empty (n_dhcp_identifier p)))) else None.
Proof.
  unfold lease_of_notification.
  destruct (negb (truthy_opt (n_hostname p)) || negb (truthy_address (n_ipv4_address p)));
    simpl; [discriminate|].
  destruct (match n_ipv4_address p with
            | Some (inl n) => ipv4_to_string n
            | Some (inr s) => inr s
            | None => inr ""
            end) as [e|ip]; simpl; [discriminate|].
  destruct (bool_decide (ip ∈ processed_lease_ids self)); simpl; [discriminate|].
  intros [= <-]. reflexivity.
Qed.

End MacKey.

(** X26. The lease decoded from a notification with a hardware identifier
    carries it in colon-separated pairs, and the key under which
    [create_static_reservation] stores it is the identifier of the
    notification again, in upper case: splitting into pairs and removing the
    colons cancel. *)
Theorem notification_reservation_key (self : DatabaseLeaseSource) (clock : Z)
    (p : Notification) (l : DHCPLease) (hex : string) :
  lease_of_notification self clock p = Some l →
  n_dhcp_identifier p = Some hex → hex ≠ "" →
  ∃ m, mac_address l = Some m
       ∧ m = join ":" (chunks2 hex)
       ∧ mac_hex_of m = mac_hex_of hex.
Proof.
  intros Hl Hp Hne. apply lease_of_notification_mac in Hl. rewrite Hp in Hl.
  assert (truthy_opt (Some hex) = true) as Ht by (destruct hex; [congruence | reflexivity]).
  assert (or_empty (Some hex) = hex) as Ho by (destruct hex; reflexivity).
  rewrite Ht, Ho in Hl.
  exists (join ":" (chunks2 hex)). split; [exact Hl|]. split; [reflexivity|].
  unfold mac_hex_of. rewrite remove_join_chunks2. reflexivity.
Qed.

Lemma notification_reservation_key_witness :
  ∃ l m, lease_of_notification Scenario.listener 1700000000 Scenario.notification_with_mac
         = Some l
         ∧ mac_address l = Some m
         ∧ m = "aa:bb:cc:00:00:07"
         ∧ mac_hex_of m = "AABBCC000007".
Proof.
  assert (lease_of_notification Scenario.listener 1700000000 Scenario.notification_with_mac
          = Some Scenario.lease_ru7) as H by (vm_compute; reflexivity).
  destruct (notification_reservation_key _ _ _ _ "aabbcc000007" H eq_refl)
    as (m & Hm & Hj & Hk); [discriminate|].
  exists Scenario.lease_ru7, m. split; [exact H|]. split; [exact Hm|].
  split; [rewrite Hj; vm_compute; reflexivity | rewrite Hk; vm_compute; reflexivity].
Defined.

(** ** A file in the older shape *)

Section OldShape.
Variables (env : Env) (self : LeaseProcessor).

Lemma fold_dict_set_values {X V} (P : V → Prop) (k : X → string) (v : X → V)
    (l : list X) (m : list (string * V)) :
  (∀ x, P (v x)) → (∀ key d, (key, d) ∈ m → P d) →
  ∀ key d, (key, d) ∈ fold_left (λ m x, dict_set m (k x) (v x)) l m → P d.
Proof.
  intros Hv. revert m. induction l as [|x l IH]; intros m Hm; simpl; [exact Hm|].
  apply IH. intros key d Hin. apply dict_set_elem in Hin as [[= _ ->]|Hin]; [apply Hv|].
  eapply Hm. exact Hin.
Qed.

Lemma query_lease_details_disabled ip cache :
  db_enabled self = false → _query_lease_details env self ip cache = blank_details.
Proof. intros H. unfold _query_lease_details. rewrite H. reflexivity. Qed.

Lemma load_existing_old_shape inv t ts ip d :
  db_enabled self = false →
  bmc_targets inv = Some (t :: ts) → t_mac t = None →
  (ip, d) ∈ load_existing env self (Some (YamlDoc inv)) → d = blank_details.
Proof.
  intros Hdb Hb Hm. unfold load_existing. rewrite Hb, Hm. cbv zeta.
  match goal with
  | |- context [_query_lease_details env self _ ?c] =>
      apply (fold_dict_set_values (λ d, d = blank_details) id
               (λ ip, _query_lease_details env self ip c))
  end.
  - intros x. apply query_lease_details_disabled. exact Hdb.
  - intros key d' Hin. apply elem_of_nil in Hin. contradiction.
Qed.

End OldShape.

(** X27. Without a lease database, a cabinet file whose first target has no
    [mac] key is taken for the older shape, and every target it listed is
    written back with its address only: hostname, rack unit, manufacturer
    and mac of all the targets of the file are dropped, whatever the file
    said about them. *)
Theorem old_shape_file_rewritten_bare (env : Env) (self : LeaseProcessor)
    (site cabinet : string) (leases : list DHCPLease) (w : World)
    (inv : Inventory) (t : BmcTarget) (ts : list BmcTarget) :
  db_enabled self = false →
  files w !! inventory_file_name site cabinet = Some (YamlDoc inv) →
  bmc_targets inv = Some (t :: ts) → t_mac t = None →
  ∀ x, x ∈ targets_of (_update_cabinet_inventory env self site cabinet leases w).2
                      (inventory_file_name site cabinet) →
       t_ip x ∈ map t_ip (t :: ts) →
       x = bare_target (t_ip x).
Proof.
  intros Hdb Hfile Hb Hm x Hx Hip.
  apply written_target in Hx as (d & Hget & Hx).
  assert (t_ip x ∈ dict_keys (loaded_map env self site cabinet w)) as Hkey.
  { unfold loaded_map. rewrite load_existing_keys, Hfile, Hb. exact Hip. }
  destruct (dict_get (loaded_map env self site cabinet w) (t_ip x)) as [d0|] eqn:E;
    [|apply dict_get_None in E; contradiction].
  assert (d0 = blank_details) as ->.
  { apply dict_get_elem in E. unfold loaded_map in E. rewrite Hfile in E.
    eapply load_existing_old_shape; eassumption. }
  pose proof (merge_leases_keeps env self leases
                {| existing_bmc_map := loaded_map env self site cabinet w;
                   new_lease_count := 0; new_hostnames := [];
                   m_store := store w; m_calls := reservation_calls w |}
                (t_ip x) blank_details E) as Hkeep.
  fold (merged_map env self site cabinet leases w) in Hkeep.
  rewrite Hkeep in Hget. injection Hget as <-. rewrite Hx. reflexivity.
Qed.

Lemma old_shape_file_rewritten_bare_witness :
  Scenario.target "10.0.0.1" None None None None
    ∈ targets_of (_update_cabinet_inventory Scenario.env_up Scenario.files_only
                    "us3" "cab10" [Scenario.lease_ru7] Scenario.world_without_mac).2
                 "us3-cab10-discovery.yml"
  ∧ ∀ x, x ∈ targets_of (_update_cabinet_inventory Scenario.env_up Scenario.files_only
                           "us3" "cab10" [Scenario.lease_ru7] Scenario.world_without_mac).2
                        "us3-cab10-discovery.yml" →
         t_ip x = "10.0.0.1" → x = bare_target "10.0.0.1".
Proof.
  split.
  - vm_compute. right. left.
  - intros x Hx Hip. rewrite <- Hip.
    eapply (old_shape_file_rewritten_bare Scenario.env_up Scenario.files_only
              "us3" "cab10" [Scenario.lease_ru7] Scenario.world_without_mac).
    + reflexivity.
    + vm_compute. reflexivity.
    + reflexivity.
    + reflexivity.
    + exact Hx.
    + rewrite Hip. left.
Defined.
